(** * TEKNO-M1X-Pro: the mix engine's numeric core, embedded and verified

    A shallow embedding of [src/services/beatParser.ts] (class [BeatParser])
    and of [src/services/mixEngine.ts] (classes [InternalTimeStretcher],
    [MixEngine] and [AnalysisEngine]), followed by the properties of the
    specification that concern them and by further properties of the
    code.

    Numbers.  The TypeScript code computes with IEEE-754 doubles.  The
    embedding computes with exact rationals [Q] (compared with [==]): a
    JavaScript [number] that is finite is read as the rational it denotes
    and rounding is not modelled.  Where the code tests for [NaN] (the tempo
    post-processing) a number is a rational, an infinity or [NaN]; where it
    reads an array out of range (which yields [undefined]) the absent value
    is [None].  Integer conversions ([Math.floor], [|0], [DataView.setInt16])
    are modelled exactly on [Z].  The grid locker, whose loops add up
    rounded sums, is embedded a second time on binary64 numbers: what is
    stated of its beats is stated of the sums as the code forms them and
    proved of both embeddings, and given scenarios are evaluated with the
    roundings of the code.

    Audio graph.  What the code does to the Web Audio graph (sources
    started and stopped, parameters automated) is embedded as the calls it
    makes, in program order, each with the argument check of the Web Audio
    API, which throws a [RangeError]; what the platform makes of the
    accepted calls (decoding, rendering, fetching) is taken as given.

    Loops.  A [for] loop with a known trip count is a structural recursion
    on the remaining count.  A [while] loop is run by [while], which is
    given a number of iterations computed from the state and answers [NoEnd]
    should that number not suffice; every theorem about a loop proves that a
    result is produced. *)

From Stdlib Require Import String.
From Stdlib Require Floats Uint63 DecimalString.
From Stdlib Require Import ZArith QArith Qround Qabs Qminmax Lqa Lia List Bool.
From stdpp Require Import base list.
Import ListNotations.

Local Open Scope Z_scope.
Local Open Scope Q_scope.

(** ** JavaScript numbers as rationals *)

Module Num.

(** [x < y] and [x <= y] as JavaScript evaluates them, on finite numbers. *)
Definition ltb (x y : Q) : bool := negb (Qle_bool y x).
Definition leb (x y : Q) : bool := Qle_bool x y.
Definition gtb (x y : Q) : bool := ltb y x.
Definition geb (x y : Q) : bool := leb y x.

(** [Math.min], [Math.max], [Math.abs], [Math.floor] on finite numbers. *)
Definition min (x y : Q) : Q := if leb x y then x else y.
Definition max (x y : Q) : Q := if leb x y then y else x.
Definition abs (x : Q) : Q := if ltb x 0 then - x else x.
Definition floor (x : Q) : Z := Qfloor x.

(** Truncation toward zero, the first step of [ToInt32]. *)
Definition trunc (x : Q) : Z := if ltb x 0 then Qceiling x else Qfloor x.

(** [x | 0]: truncate, then wrap into the signed 32-bit range. *)
Definition toInt32 (x : Q) : Z :=
  ((trunc x + 2147483648) mod 4294967296 - 2147483648)%Z.

(** Integers as numbers. *)
Definition ofZ (z : Z) : Q := inject_Z z.
Definition ofNat (n : nat) : Q := inject_Z (Z.of_nat n).

End Num.

(** ** Outcomes of a call *)

(** What a call can throw.  [Error msg] is [new Error(msg)]; [RangeError] is
    thrown by the platform for a typed array of negative or infinite length,
    for a [DataView] write outside the buffer, and by the Web Audio API for
    a negative time or offset and for an exponential ramp to zero. *)
Inductive exn : Type :=
| Error (msg : string)
| RangeError.

(** [Ok a]: the call returns [a].  [Throw e]: it throws [e].
    [OutOfBounds]: a typed array was read or written outside its bounds
    where the model checks for it (JavaScript itself does not stop there: it
    reads [undefined] and drops the write).  [NoEnd]: a loop was still
    running when its iteration budget was used up. *)
Inductive result (A : Type) : Type :=
| Ok (a : A)
| Throw (e : exn)
| OutOfBounds
| NoEnd.

Arguments Ok {A} a.
Arguments Throw {A} e.
Arguments OutOfBounds {A}.
Arguments NoEnd {A}.

(** Sequencing: what follows runs only after a normal completion. *)
Definition bind {A B : Type} (r : result A) (k : A -> result B) : result B :=
  match r with
  | Ok a => k a
  | Throw e => Throw e
  | OutOfBounds => OutOfBounds
  | NoEnd => NoEnd
  end.

Notation "'let!' x ':=' r 'in' k" := (bind r (fun x => k))
  (at level 10, x name, r at level 100, k at level 200).

(** ** [while] loops *)

Section While.
Context {St : Type}.
Variable cond : St -> bool.
Variable body : St -> result St.

(** [while fuel s] runs [while (cond s) s = body s] for at most [fuel]
    iterations; [NoEnd] when the guard still holds after [fuel] turns. *)
Fixpoint while (fuel : nat) (s : St) : result St :=
  if cond s then
    match fuel with
    | O => NoEnd
    | S fuel' => let! s' := body s in while fuel' s'
    end
  else Ok s.

End While.

(** ** [BeatParser] (src/services/beatParser.ts) *)

(** The function on exact rationals: here [t += idealInterval] adds
    without rounding and the three loops always end.  What depends on the
    rounding of the sums, or on the loops ending on the numbers of
    JavaScript, is settled on the binary64 embedding that follows. *)
Module BeatParser.

(** [BeatGrid] of [../types]: the object literal returned by
    [getLockedGrid]. *)
Record BeatGrid : Type := mkBeatGrid {
  bpm : Q;
  offset : Q;
  beats : list Q;
  downbeats : list Q
}.

(** [for (let i = 0; i < sampleSize; i++)
      phaseSum += (rawBeats[i] - (i * idealInterval));]
    with [n] the iterations that remain. *)
Fixpoint phaseSumLoop (n : nat) (i : nat) (rawBeats : list Q)
         (idealInterval phaseSum : Q) : Q :=
  match n with
  | O => phaseSum
  | S n' =>
      phaseSumLoop n' (S i) rawBeats idealInterval
        (phaseSum + (nth i rawBeats 0 - Num.ofNat i * idealInterval))
  end.

(** Step 2 of [getLockedGrid]: the phase [averageOffset]. *)
Definition averageOffset (rawBeats : list Q) (idealInterval forcedOffset : Q) : Q :=
  if Num.geb forcedOffset 0 then forcedOffset
  else if (2 <=? length rawBeats)%nat then
    let sampleSize := Nat.min (length rawBeats) 32 in
    phaseSumLoop sampleSize 0 rawBeats idealInterval 0 / Num.ofNat sampleSize
  else 0.

(** Iterations after which [while (t < 0) t += idealInterval] has left
    the negative numbers, and likewise for the two other loops; so it is
    on the rationals, where every addition is exact. *)
Definition turns (distance idealInterval : Q) : nat :=
  Z.to_nat (Qceiling (distance / idealInterval)).

(** [while (t < 0) t += idealInterval;] *)
Definition raisePhase (idealInterval t : Q) : result Q :=
  while (fun t => Num.ltb t 0) (fun t => Ok (t + idealInterval))
        (turns (- t) idealInterval) t.

(** [while (t > idealInterval) t -= idealInterval;] *)
Definition lowerPhase (idealInterval t : Q) : result Q :=
  while (fun t => Num.gtb t idealInterval) (fun t => Ok (t - idealInterval))
        (turns t idealInterval) t.

(** The state of the grid loop: [t], [beatCount], [lockedBeats],
    [downbeats]. *)
Record GridState : Type := mkGridState {
  gs_t : Q;
  gs_beatCount : Z;
  gs_lockedBeats : list Q;
  gs_downbeats : list Q
}.

(** The body of [while (t < totalDuration)]. *)
Definition gridStep (idealInterval : Q) (s : GridState) : GridState :=
  let t := gs_t s in
  mkGridState
    (t + idealInterval)
    (gs_beatCount s + 1)
    (gs_lockedBeats s ++ [t])
    (if (gs_beatCount s mod 4 =? 0)%Z then gs_downbeats s ++ [t]
     else gs_downbeats s).

(** [while (t < totalDuration) { ... }] *)
Definition gridLoop (idealInterval totalDuration : Q) (s : GridState)
  : result GridState :=
  while (fun s => Num.ltb (gs_t s) totalDuration)
        (fun s => Ok (gridStep idealInterval s))
        (turns (totalDuration - gs_t s) idealInterval) s.

(** The normalised phase [t] with which the grid starts (step 3, before
    the grid loop). *)
Definition startPhase (idealInterval averageOffset : Q) : result Q :=
  let! t := raisePhase idealInterval averageOffset in
  lowerPhase idealInterval t.

(** [static getLockedGrid(rawBeats, detectedBpm, totalDuration,
    forcedOffset = -1)]. *)
Definition getLockedGrid (rawBeats : list Q)
           (detectedBpm totalDuration forcedOffset : Q) : result BeatGrid :=
  let idealInterval := 60 / detectedBpm in
  let averageOffset := averageOffset rawBeats idealInterval forcedOffset in
  let! t := startPhase idealInterval averageOffset in
  let! s := gridLoop idealInterval totalDuration (mkGridState t 0 [] []) in
  Ok (mkBeatGrid detectedBpm (averageOffset * 1000)
                 (gs_lockedBeats s) (gs_downbeats s)).

(** The call without the optional argument: [forcedOffset] is [-1]. *)
Definition getLockedGrid3 (rawBeats : list Q) (detectedBpm totalDuration : Q)
  : result BeatGrid :=
  getLockedGrid rawBeats detectedBpm totalDuration (-1).

End BeatParser.

(** ** [BeatParser] on binary64 numbers *)

(** The same function on IEEE-754 binary64 numbers, the numbers that
    JavaScript computes with, with the very roundings of the code.  Here a
    loop takes its iteration budget as an argument and [None] stands for a
    budget that did not suffice: on these numbers a loop need not end (a
    phase of [2^53] is not changed by [t -= idealInterval]). *)
Module BeatParser64.
Import Floats.
Local Open Scope float_scope.

(** [BeatGrid], with binary64 fields. *)
Record BeatGrid : Type := mkBeatGrid {
  bpm : float;
  offset : float;
  beats : list float;
  downbeats : list float
}.

(** The loop index [i] as a number. *)
Definition ofNat (n : nat) : float := of_uint63 (Uint63.of_Z (Z.of_nat n)).

(** The loop that sums the residuals [rawBeats[i] - i * idealInterval]. *)
Fixpoint phaseSumLoop (n : nat) (i : nat) (rawBeats : list float)
         (idealInterval phaseSum : float) : float :=
  match n with
  | O => phaseSum
  | S n' =>
      phaseSumLoop n' (S i) rawBeats idealInterval
        (phaseSum + (nth i rawBeats nan - ofNat i * idealInterval))
  end.

(** Step 2: the phase [averageOffset]. *)
Definition averageOffset (rawBeats : list float) (idealInterval forcedOffset : float)
  : float :=
  if 0 <=? forcedOffset then forcedOffset
  else if (2 <=? length rawBeats)%nat then
    let sampleSize := Nat.min (length rawBeats) 32 in
    phaseSumLoop sampleSize 0 rawBeats idealInterval 0 / ofNat sampleSize
  else 0.

(** [while (t < 0) t += idealInterval;] *)
Fixpoint raisePhase (fuel : nat) (idealInterval t : float) : option float :=
  if t <? 0 then
    match fuel with
    | O => None
    | S fuel' => raisePhase fuel' idealInterval (t + idealInterval)
    end
  else Some t.

(** [while (t > idealInterval) t -= idealInterval;] *)
Fixpoint lowerPhase (fuel : nat) (idealInterval t : float) : option float :=
  if idealInterval <? t then
    match fuel with
    | O => None
    | S fuel' => lowerPhase fuel' idealInterval (t - idealInterval)
    end
  else Some t.

(** [while (t < totalDuration) { ... }] *)
Fixpoint gridLoop (fuel : nat) (idealInterval totalDuration t : float)
         (beatCount : Z) (lockedBeats downbeats : list float)
  : option (list float * list float) :=
  if t <? totalDuration then
    match fuel with
    | O => None
    | S fuel' =>
        gridLoop fuel' idealInterval totalDuration (t + idealInterval)
                 (beatCount + 1)%Z (lockedBeats ++ [t])
                 (if (beatCount mod 4 =? 0)%Z then downbeats ++ [t] else downbeats)
    end
  else Some (lockedBeats, downbeats).

(** [static getLockedGrid(rawBeats, detectedBpm, totalDuration,
    forcedOffset)] *)
Definition getLockedGrid (fuel : nat) (rawBeats : list float)
           (detectedBpm totalDuration forcedOffset : float) : option BeatGrid :=
  let idealInterval := 60 / detectedBpm in
  let averageOffset := averageOffset rawBeats idealInterval forcedOffset in
  match raisePhase fuel idealInterval averageOffset with
  | None => None
  | Some t =>
      match lowerPhase fuel idealInterval t with
      | None => None
      | Some t =>
          match gridLoop fuel idealInterval totalDuration t 0 [] [] with
          | None => None
          | Some (lockedBeats, downbeats) =>
              Some (mkBeatGrid detectedBpm (averageOffset * 1000) lockedBeats downbeats)
          end
      end
  end.

(** The call [getLockedGrid([], 125, 40)], with 100 turns allowed to each
    loop. *)
Definition emptyInput_125_40 : option BeatGrid :=
  getLockedGrid 100 [] 125 40 (-1).

End BeatParser64.

(** ** Web Audio buffers *)

Module WebAudio.

(** An [AudioBuffer]: [sampleRate], [length] (sample frames per channel)
    and the channels returned by [getChannelData(c)], each a
    [Float32Array] read as a list of rationals (the rounding of a stored
    value to single precision is not modelled). *)
Record AudioBuffer : Type := mkAudioBuffer {
  sampleRate : Z;
  frames : Z;
  channelData : list (list Q)
}.

(** [numberOfChannels] *)
Definition numberOfChannels (b : AudioBuffer) : nat := length (channelData b).

(** Every channel of a buffer holds [length] samples. *)
Definition wellFormed (b : AudioBuffer) : Prop :=
  (0 <= frames b)%Z /\
  Forall (fun ch : list Q => Z.of_nat (length ch) = frames b) (channelData b).

(** [a[i]] on a typed array, checked. *)
Definition readSample (a : list Q) (i : Z) : result Q :=
  if (i <? 0)%Z then OutOfBounds
  else match a !! Z.to_nat i with
       | Some v => Ok v
       | None => OutOfBounds
       end.

(** [a[i] += v] on a typed array, checked. *)
Definition addSample (a : list Q) (i : Z) (v : Q) : result (list Q) :=
  let! old := readSample a i in
  Ok (<[Z.to_nat i := old + v]> a).

(** A time handed to the platform ([when] of [start] and [stop],
    [startTime] and [endTime] of the [AudioParam] methods, the [offset] of
    [start]): a negative one is refused with a [RangeError]. *)
Definition checkTime (time : Q) : result unit :=
  if Num.ltb time 0 then Throw RangeError else Ok tt.

(** [AudioBufferSourceNode.start(when, offset)] *)
Definition sourceStart (when offset : Q) : result unit :=
  let! _ := checkTime when in checkTime offset.

(** [AudioBufferSourceNode.stop(when)], on a source that was started. *)
Definition sourceStop (when : Q) : result unit := checkTime when.

End WebAudio.

(** ** [InternalTimeStretcher] (src/services/mixEngine.ts) *)

Module InternalTimeStretcher.
Import WebAudio.

(** The constants of [process]. *)
Definition winSize : Z := 4096.
Definition overlap : Z := 2.
(** [Math.floor(winSize / overlap)] *)
Definition hopSize : Z := Num.floor (Num.ofZ winSize / Num.ofZ overlap).
(** [Math.floor(hopSize * speed)] *)
Definition anaHop (speed : Q) : Z := Num.floor (Num.ofZ hopSize * speed).
(** [Math.floor(buffer.length / speed)] *)
Definition newLength (buffer : AudioBuffer) (speed : Q) : Z :=
  Num.floor (Num.ofZ (frames buffer) / speed).

(** The cursors and the output arrays of the overlap-add loop.  [inPos]
    is a sum of copies of the integer [anaHop], so [Math.floor(inPos)] is
    [inPos]. *)
Record OlaState : Type := mkOlaState {
  ola_inPos : Z;
  ola_outPos : Z;
  ola_outputData : list (list Q)
}.

Section Stretch.
(** [hanningWindow[i]], that is
    [0.5 * (1 - Math.cos(2 * Math.PI * i / (winSize - 1)))]: the table
    is not rational, so the embedding takes it as given. *)
Variable hanningWindow : Z -> Q.

(** [for (let i = 0; i < winSize; i++) {
       const sample = inCh[Math.floor(inPos) + i];
       outCh[outPos + i] += sample * hanningWindow[i]; }]
    with [n] the iterations that remain. *)
Fixpoint windowLoop (n : nat) (i : Z) (inCh outCh : list Q)
         (inPos outPos : Z) : result (list Q) :=
  match n with
  | O => Ok outCh
  | S n' =>
      let! sample := readSample inCh (inPos + i) in
      let! outCh' := addSample outCh (outPos + i) (sample * hanningWindow i) in
      windowLoop n' (i + 1)%Z inCh outCh' inPos outPos
  end.

(** [for (let c = 0; c < numChannels; c++)] around the window loop;
    [outputData[c]] is updated in place. *)
Fixpoint channelLoop (n : nat) (c : nat) (inputData outputData : list (list Q))
         (inPos outPos : Z) : result (list (list Q)) :=
  match n with
  | O => Ok outputData
  | S n' =>
      match inputData !! c, outputData !! c with
      | Some inCh, Some outCh =>
          let! outCh' := windowLoop (Z.to_nat winSize) 0 inCh outCh inPos outPos in
          channelLoop n' (S c) inputData (<[c := outCh']> outputData) inPos outPos
      | _, _ => OutOfBounds
      end
  end.

(** [outPos < newLength - winSize && inPos < buffer.length - winSize] *)
Definition olaGuard (newLength bufferLength : Z) (s : OlaState) : bool :=
  (ola_outPos s <? newLength - winSize)%Z
  && (ola_inPos s <? bufferLength - winSize)%Z.

(** The body of the overlap-add loop. *)
Definition olaStep (numChannels : nat) (inputData : list (list Q))
           (anaHop : Z) (s : OlaState) : result OlaState :=
  let! out := channelLoop numChannels 0 inputData (ola_outputData s)
                          (ola_inPos s) (ola_outPos s) in
  Ok (mkOlaState (ola_inPos s + anaHop) (ola_outPos s + hopSize) out).

(** [static process(buffer, speed)].  A length that is negative, or
    infinite because [speed] is [0], makes [new Float32Array] throw.
    [ctx.createBuffer] followed by [copyToChannel] is read as building
    the buffer from [outputData].  Each turn of the loop moves [outPos]
    forward by [hopSize], so [newLength / hopSize] turns are allowed for.
    The function is called with [speed = TARGET_BPM / originalBpm > 0]. *)
Definition process (buffer : AudioBuffer) (speed : Q) : result AudioBuffer :=
  if Num.ltb (Num.abs (speed - 1)) (1 # 1000) then Ok buffer
  else
    let numChannels := numberOfChannels buffer in
    let inputData := channelData buffer in
    let newLength := newLength buffer speed in
    if Qeq_bool speed 0 || (newLength <? 0)%Z then Throw RangeError
    else
      let outputData :=
        replicate numChannels (replicate (Z.to_nat newLength) 0) in
      let! s := while (olaGuard newLength (frames buffer))
                      (olaStep numChannels inputData (anaHop speed))
                      (Z.to_nat (newLength / hopSize))
                      (mkOlaState 0 0 outputData) in
      Ok (mkAudioBuffer (sampleRate buffer) newLength (ola_outputData s)).

End Stretch.

End InternalTimeStretcher.

(** ** Shared types ([../types]) *)

Module Types.

(** [TransitionTechnique], the members [mixEngine.ts] names. *)
Inductive TransitionTechnique : Type :=
| HARD_CUT | BASS_SWAP | LONG_BLEND | PHRASE_MIXING | FILTER_SWEEP
| ECHO_OUT | LOOP_ECHO | DROP_SWAP | SLOW_EQ_BLEND.

(** [MixStyle], the keys of [STYLE_PROFILES]. *)
Inductive MixStyle : Type :=
| CAROLA | MILLS | GARNIER | SANCHEZ | SOLOMUN | SIMS | MAY.

(** [TrackMetadata.status]. *)
Inductive Status : Type := PENDING | ANALYZING | READY | ERROR.

(** [status === 'READY'] *)
Definition isReady (s : Status) : bool :=
  match s with READY => true | _ => false end.

(** [CuePoints.loopRegion]: [{ start, end }]. *)
Record LoopRegion : Type := mkLoopRegion {
  loopStart : Q;
  loopEnd : Q
}.

(** [CuePoints]: [{ start, end, loopRegion: { start, end } }]. *)
Record CuePoints : Type := mkCuePoints {
  cueStart : Q;
  cueEnd : Q;
  loopRegion : LoopRegion
}.

(** [EnergyProfile]: [{ low, mid, high }]. *)
Record EnergyProfile : Type := mkEnergyProfile {
  low : list Q;
  mid : list Q;
  high : list Q
}.

(** The fields of [TrackMetadata] that [renderMix] reads.  [file] is
    represented by what [decodeAudioData] makes of its bytes: [None] when
    decoding rejects.  [cuePoints] may be absent ([cuePoints?.]). *)
Record TrackMetadata : Type := mkTrackMetadata {
  name : string;
  file : option WebAudio.AudioBuffer;
  status : Status;
  originalBpm : Q;
  duration : Q;
  cuePoints : option CuePoints;
  gainFactor : Q
}.

(** [MixConfiguration]. *)
Record MixConfiguration : Type := mkMixConfiguration {
  style : MixStyle;
  targetBpm : Q;
  transitionLengthBars : Q
}.

(** [x || d] on numbers: [d] when [x] is [0] (or [NaN]). *)
Definition orElse (x d : Q) : Q := if Qeq_bool x 0 then d else x.

End Types.

(** ** [MixEngine] (src/services/mixEngine.ts) *)

Module MixEngine.
Import WebAudio Types.

(** The constants at the top of the file. *)
Definition TARGET_BPM : Q := 125.
Definition BEAT_DURATION : Q := 60 / TARGET_BPM.
Definition BAR_DURATION : Q := BEAT_DURATION * 4.

(** [STYLE_PROFILES]: weights in tenths. *)
Definition STYLE_PROFILES (style : MixStyle) : list (TransitionTechnique * Q) :=
  match style with
  | CAROLA => [(LONG_BLEND, 5 # 10); (BASS_SWAP, 4 # 10); (SLOW_EQ_BLEND, 1 # 10)]
  | MILLS => [(HARD_CUT, 4 # 10); (LOOP_ECHO, 3 # 10); (DROP_SWAP, 2 # 10);
              (FILTER_SWEEP, 1 # 10)]
  | GARNIER => [(FILTER_SWEEP, 5 # 10); (SLOW_EQ_BLEND, 3 # 10); (LONG_BLEND, 2 # 10)]
  | SANCHEZ => [(PHRASE_MIXING, 4 # 10); (LOOP_ECHO, 3 # 10); (SLOW_EQ_BLEND, 3 # 10)]
  | SOLOMUN => [(LONG_BLEND, 6 # 10); (DROP_SWAP, 3 # 10); (BASS_SWAP, 1 # 10)]
  | SIMS => [(HARD_CUT, 3 # 10); (DROP_SWAP, 4 # 10); (ECHO_OUT, 3 # 10)]
  | MAY => [(BASS_SWAP, 4 # 10); (SLOW_EQ_BLEND, 4 # 10); (FILTER_SWEEP, 2 # 10)]
  end.

(** [private getOverlapBars(tech)] *)
Definition getOverlapBars (tech : TransitionTechnique) : Q :=
  match tech with
  | HARD_CUT => 0
  | DROP_SWAP => 8
  | ECHO_OUT => 4
  | LOOP_ECHO => 8
  | FILTER_SWEEP => 16
  | BASS_SWAP => 32
  | SLOW_EQ_BLEND => 32
  | PHRASE_MIXING => 32
  | LONG_BLEND => 64
  end.

(** [for (const item of profile)
      { if (random < item.weight) return item.tech; random -= item.weight; }
    return SLOW_EQ_BLEND;] *)
Fixpoint pickTechnique (profile : list (TransitionTechnique * Q)) (random : Q)
  : TransitionTechnique :=
  match profile with
  | [] => SLOW_EQ_BLEND
  | (tech, weight) :: rest =>
      if Num.ltb random weight then tech
      else pickTechnique rest (random - weight)
  end.

(** [private chooseTechnique(style)], with the value of [Math.random()]
    passed in. *)
Definition chooseTechnique (style : MixStyle) (mathRandom : Q) : TransitionTechnique :=
  let profile := STYLE_PROFILES style in
  let totalWeight := fold_left (fun sum item => sum + snd item) profile 0 in
  pickTechnique profile (mathRandom * totalWeight).

(** An element of [processedTracks]. *)
Record ProcessedTrack : Type := mkProcessedTrack {
  pt_buffer : AudioBuffer;
  pt_metadata : TrackMetadata;
  pt_tempo : Q
}.

(** An element of [timelineEvents]. *)
Record TimelineEvent : Type := mkTimelineEvent {
  trackIndex : nat;
  startTime : Q;
  buffer : AudioBuffer;
  bufferOffsetStart : Q;
  bufferOffsetEnd : Q;
  bufferLoopStart : Q;
  bufferLoopEnd : Q;
  overlapTime : Q;
  technique : TransitionTechnique;
  gain : Q
}.

(** [bufferOffsetEnd - bufferOffsetStart], the [eventDuration] of the
    timeline loop and the [wallDuration] of the scheduling loop. *)
Definition eventDuration (e : TimelineEvent) : Q :=
  bufferOffsetEnd e - bufferOffsetStart e.

(** *** [bufferToWave] *)

(** The [DataView] over the output [ArrayBuffer] (a list of bytes) and the
    write position [pos]. *)
Record Writer : Type := mkWriter {
  view : list Z;
  pos : Z
}.

(** The [n] low bytes of [data], least significant first: what
    [setUint16], [setInt16] and [setUint32] store with [littleEndian]
    set ([data] is taken modulo 2^(8n), two's complement when negative). *)
Fixpoint littleEndian (n : nat) (data : Z) : list Z :=
  match n with
  | O => []
  | S n' => (data mod 256)%Z :: littleEndian n' (data / 256)%Z
  end.

(** A [DataView] store of [bytes] at [at]: a [RangeError] outside the
    buffer. *)
Definition store (view : list Z) (at_ : Z) (bytes : list Z) : result (list Z) :=
  if (at_ <? 0)%Z || (Z.of_nat (length view) <? at_ + Z.of_nat (length bytes))%Z
  then Throw RangeError
  else Ok (list_inserts (Z.to_nat at_) bytes view).

(** [function setUint16(data) { view.setUint16(pos, data, true); pos += 2; }] *)
Definition setUint16 (data : Z) (w : Writer) : result Writer :=
  let! v := store (view w) (pos w) (littleEndian 2 data) in
  Ok (mkWriter v (pos w + 2)).

(** [function setUint32(data) { view.setUint32(pos, data, true); pos += 4; }] *)
Definition setUint32 (data : Z) (w : Writer) : result Writer :=
  let! v := store (view w) (pos w) (littleEndian 4 data) in
  Ok (mkWriter v (pos w + 4)).

(** The thirteen header stores, in source order. *)
Definition writeHeader (numOfChan sampleRate length : Z) (w : Writer)
  : result Writer :=
  let! w := setUint32 0x46464952 w in
  let! w := setUint32 (length - 8) w in
  let! w := setUint32 0x45564157 w in
  let! w := setUint32 0x20746d66 w in
  let! w := setUint32 16 w in
  let! w := setUint16 1 w in
  let! w := setUint16 numOfChan w in
  let! w := setUint32 sampleRate w in
  let! w := setUint32 (sampleRate * 2 * numOfChan) w in
  let! w := setUint16 (numOfChan * 2) w in
  let! w := setUint16 16 w in
  let! w := setUint32 0x61746164 w in
  setUint32 (length - pos w - 4) w.

(** [Math.max(-1, Math.min(1, x))] *)
Definition clamp (x : Q) : Q := Num.max (-1) (Num.min 1 x).

(** [(0.5 + sample < 0 ? sample * 32768 : sample * 32767)|0] *)
Definition toPCM16 (sample : Q) : Z :=
  Num.toInt32 (if Num.ltb ((1 # 2) + sample) 0 then sample * 32768
               else sample * 32767).

(** The two sample statements applied to [channels[i][offset]].  A read
    outside the array is [undefined]; it stays [NaN] through [Math.min],
    [Math.max], the comparison (false) and the product, and [NaN|0] is
    [0]. *)
Definition encodeSample (x : option Q) : Z :=
  match x with
  | Some x => toPCM16 (clamp x)
  | None => 0%Z
  end.

(** [channels[i][offset]]: [undefined] outside the array. *)
Definition sampleAt (channels : list (list Q)) (i : nat) (offset : Z) : option Q :=
  if (offset <? 0)%Z then None
  else mjoin ((fun ch : list Q => ch !! Z.to_nat offset) <$> channels !! i).

(** [view.setInt16(pos, sample, true); pos += 2;] *)
Definition setInt16 (sample : Z) (w : Writer) : result Writer :=
  let! v := store (view w) (pos w) (littleEndian 2 sample) in
  Ok (mkWriter v (pos w + 2)).

(** [for (i = 0; i < numOfChan; i++) { sample = ...; sample = ...;
    view.setInt16(pos, sample, true); pos += 2; }] with [n] the iterations
    that remain. *)
Fixpoint frameLoop (n : nat) (i : nat) (channels : list (list Q)) (offset : Z)
         (w : Writer) : result Writer :=
  match n with
  | O => Ok w
  | S n' =>
      let! w' := setInt16 (encodeSample (sampleAt channels i offset)) w in
      frameLoop n' (S i) channels offset w'
  end.

(** [private bufferToWave(abuffer, offset, len)]; the [Blob] is its list
    of bytes.  [new ArrayBuffer] of a negative length throws.  Each turn
    of [while (pos < length)] writes one frame, so [len] turns are
    allowed for. *)
Definition bufferToWave (abuffer : AudioBuffer) (offset len : Z) : result (list Z) :=
  let numOfChan := Z.of_nat (numberOfChannels abuffer) in
  let length := (len * numOfChan * 2 + 44)%Z in
  if (length <? 0)%Z then Throw RangeError
  else
    let buffer := replicate (Z.to_nat length) 0%Z in
    let! w := writeHeader numOfChan (sampleRate abuffer) length (mkWriter buffer 0) in
    let channels := channelData abuffer in
    let! s := while (fun s : Writer * Z => (pos (fst s) <? length)%Z)
                    (fun s =>
                       let! w' := frameLoop (numberOfChannels abuffer) 0 channels
                                            (snd s) (fst s) in
                       Ok (w', (snd s + 1)%Z))
                    (Z.to_nat len)
                    (w, offset) in
    Ok (view (fst s)).

(** *** The automation recipes and the scheduling loop *)

(** The [AudioParam]s of a channel strip that the automation drives. *)
Inductive StripParam : Type :=
| channelGain_gain | lowEQ_gain | highEQ_gain | filter_frequency | auxSend_gain.

(** [BiquadFilterNode.type], the two values assigned to [filter.type]. *)
Inductive FilterType : Type := lowpass | highpass.

(** A call that [renderMix] or [applyStemAutomation] makes on a strip:
    the three scheduling methods of an [AudioParam], and the two
    assignments [filter.type = ...] and [filter.Q.value = ...]. *)
Inductive Automation : Type :=
| setValueAtTime (param : StripParam) (value time : Q)
| linearRampToValueAtTime (param : StripParam) (value time : Q)
| exponentialRampToValueAtTime (param : StripParam) (value time : Q)
| setFilterType (type : FilterType)
| setFilterQ (value : Q).

(** [private applyStemAutomation(tech, isOutgoing, ctx, strip, start,
    duration, baseGain)]: the calls it makes on [strip], in program
    order. *)
Definition applyStemAutomation (tech : TransitionTechnique) (isOutgoing : bool)
           (start duration baseGain : Q) : list Automation :=
  let end_ := start + duration in
  (if negb isOutgoing then
     [ setValueAtTime channelGain_gain 0 start;
       setValueAtTime lowEQ_gain 0 start;
       setValueAtTime highEQ_gain 0 start;
       setValueAtTime filter_frequency 22000 start;
       setFilterType lowpass;
       setValueAtTime auxSend_gain 0 start ]
   else [])
  ++
  match tech with
  | BASS_SWAP =>
      let swapPoint := start + duration * (75 # 100) in
      if isOutgoing then
        [ setValueAtTime channelGain_gain baseGain start;
          setValueAtTime channelGain_gain baseGain (end_ - 1);
          linearRampToValueAtTime channelGain_gain 0 end_;
          setValueAtTime lowEQ_gain 0 (swapPoint - (1 # 10));
          linearRampToValueAtTime lowEQ_gain (-40) swapPoint ]
      else
        [ setValueAtTime channelGain_gain 0 start;
          linearRampToValueAtTime channelGain_gain baseGain (start + 4);
          setValueAtTime lowEQ_gain (-40) start;
          setValueAtTime lowEQ_gain (-40) swapPoint;
          linearRampToValueAtTime lowEQ_gain 0 (swapPoint + (1 # 10)) ]
  | LONG_BLEND | PHRASE_MIXING =>
      if isOutgoing then
        [ setValueAtTime channelGain_gain baseGain start;
          linearRampToValueAtTime channelGain_gain 0 end_;
          linearRampToValueAtTime lowEQ_gain (-40) (end_ - 10);
          linearRampToValueAtTime highEQ_gain (-10) end_ ]
      else
        [ setValueAtTime channelGain_gain 0 start;
          linearRampToValueAtTime channelGain_gain baseGain end_;
          setValueAtTime lowEQ_gain (-40) start;
          linearRampToValueAtTime lowEQ_gain 0 end_ ]
  | FILTER_SWEEP =>
      if isOutgoing then
        [ setFilterType highpass;
          setValueAtTime filter_frequency 20 start;
          exponentialRampToValueAtTime filter_frequency 8000 end_;
          setFilterQ 4;
          setValueAtTime channelGain_gain baseGain start;
          linearRampToValueAtTime channelGain_gain 0 end_ ]
      else
        [ setValueAtTime channelGain_gain 0 start;
          linearRampToValueAtTime channelGain_gain baseGain end_ ]
  | ECHO_OUT | LOOP_ECHO =>
      if isOutgoing then
        [ setValueAtTime channelGain_gain baseGain start;
          setValueAtTime auxSend_gain 0 (end_ - 2);
          linearRampToValueAtTime auxSend_gain 1 end_;
          setValueAtTime channelGain_gain baseGain (end_ - (1 # 10));
          exponentialRampToValueAtTime channelGain_gain (1 # 1000) end_ ]
      else
        [ setValueAtTime channelGain_gain 0 start;
          linearRampToValueAtTime channelGain_gain baseGain (start + 2) ]
  | DROP_SWAP =>
      let dropPoint := start + duration * (9 # 10) in
      if isOutgoing then
        [ setValueAtTime channelGain_gain baseGain start;
          setValueAtTime channelGain_gain baseGain dropPoint;
          linearRampToValueAtTime channelGain_gain 0 (dropPoint + (1 # 10)) ]
      else
        [ setValueAtTime channelGain_gain 0 start;
          setValueAtTime channelGain_gain 0 dropPoint;
          linearRampToValueAtTime channelGain_gain baseGain (dropPoint + (1 # 10)) ]
  | HARD_CUT | SLOW_EQ_BLEND =>
      if isOutgoing then
        [ setValueAtTime channelGain_gain baseGain start;
          linearRampToValueAtTime channelGain_gain 0 end_ ]
      else
        [ setValueAtTime channelGain_gain 0 start;
          linearRampToValueAtTime channelGain_gain baseGain end_ ]
  end.

(** What the platform makes of an automation call.  The three scheduling
    methods refuse a negative time, and [exponentialRampToValueAtTime]
    also refuses the target value 0, with a [RangeError]; the two
    assignments to the filter always succeed. *)
Definition callAutomation (call : Automation) : result unit :=
  match call with
  | setValueAtTime _ _ time => checkTime time
  | linearRampToValueAtTime _ _ time => checkTime time
  | exponentialRampToValueAtTime _ value time =>
      if Qeq_bool value 0 then Throw RangeError else checkTime time
  | setFilterType _ => Ok tt
  | setFilterQ _ => Ok tt
  end.

(** Calls made one after the other: the first one that throws ends the
    sequence. *)
Fixpoint callAll (calls : list Automation) : result unit :=
  match calls with
  | [] => Ok tt
  | call :: rest => let! _ := callAutomation call in callAll rest
  end.

(** The calls, made and recorded. *)
Definition automate (calls : list Automation) : result (list Automation) :=
  let! _ := callAll calls in Ok calls.

(** A buffer source as the scheduling loop sets it up: [source.buffer],
    the loop bounds when [source.loop] is set, and the arguments of
    [source.start(when, offset)] and [source.stop(when)]. *)
Record Playback : Type := mkPlayback {
  pb_buffer : AudioBuffer;
  pb_loop : option (Q * Q);
  pb_when : Q;
  pb_offset : Q;
  pb_stop : Q
}.

(** What one turn of the scheduling loop puts on the strip it creates:
    the main source, the automation calls in program order, and the
    loop-tail source if there is one. *)
Record StripSchedule : Type := mkStripSchedule {
  mainSource : Playback;
  automation : list Automation;
  loopTail : option Playback
}.

(** [[LOOP_ECHO, ECHO_OUT, DROP_SWAP].includes(event.technique)] *)
Definition needsLoopTail (tech : TransitionTechnique) : bool :=
  match tech with
  | LOOP_ECHO | ECHO_OUT | DROP_SWAP => true
  | _ => false
  end.

(** [event.technique === TransitionTechnique.LOOP_ECHO ? 16 : 8] *)
Definition tailLen (tech : TransitionTechnique) : Q :=
  match tech with LOOP_ECHO => 16 | _ => 8 end.

(** [source.start(when, offset); source.stop(end)] for the source
    described by [source], recorded when both calls are accepted. *)
Definition startAndStop (source : Playback) : result Playback :=
  let! _ := sourceStart (pb_when source) (pb_offset source) in
  let! _ := sourceStop (pb_stop source) in
  Ok source.

(** The body of [for (const event of timelineEvents)] in step 3 of
    [renderMix], call by call in program order; [None] is the [continue]
    of an event that cannot be played.  The numbers are rationals, so the
    two [isFinite] tests hold.  A call that the platform refuses throws
    and ends the turn (and with it [renderMix]).
    [timelineEvents[event.trackIndex - 1]] outside the array would make
    [prevEvent.technique] throw; the model answers [OutOfBounds] there. *)
Definition scheduleEvent (timelineEvents : list TimelineEvent) (event : TimelineEvent)
  : result (option StripSchedule) :=
  let wallDuration := bufferOffsetEnd event - bufferOffsetStart event in
  if Num.gtb wallDuration 0 then
    let! source :=
      startAndStop
        (mkPlayback (buffer event) None (startTime event) (bufferOffsetStart event)
                    (startTime event + wallDuration)) in
    let! first :=
      automate [setValueAtTime channelGain_gain (gain event) (startTime event)] in
    let isFirst := (trackIndex event =? 0)%nat in
    let isLast :=
      (Z.of_nat (trackIndex event) =? Z.of_nat (length timelineEvents) - 1)%Z in
    let! incoming :=
      if negb isFirst then
        match timelineEvents !! (trackIndex event - 1)%nat with
        | Some prevEvent =>
            automate (applyStemAutomation (technique prevEvent) false (startTime event)
                                          (overlapTime prevEvent) (gain event))
        | None => OutOfBounds
        end
      else Ok [] in
    let! outgoing :=
      if negb isLast then
        let transStart := startTime event + wallDuration - overlapTime event in
        automate (applyStemAutomation (technique event) true transStart
                                      (overlapTime event) (gain event))
      else Ok [] in
    let! tail :=
      if negb isLast
         && (needsLoopTail (technique event)
             && Num.gtb (bufferLoopEnd event) (bufferLoopStart event))
      then
        let mainEnd := startTime event + wallDuration in
        let! loopSource :=
          startAndStop
            (mkPlayback (buffer event)
                        (Some (bufferLoopStart event, bufferLoopEnd event))
                        mainEnd (bufferLoopStart event)
                        (mainEnd + tailLen (technique event))) in
        Ok (Some loopSource)
      else Ok None in
    Ok (Some (mkStripSchedule source (first ++ incoming ++ outgoing) tail))
  else Ok None.

(** [for (const event of timelineEvents)], on the events that remain. *)
Fixpoint scheduleLoop (timelineEvents rest : list TimelineEvent)
  : result (list (option StripSchedule)) :=
  match rest with
  | [] => Ok []
  | event :: rest' =>
      let! strip := scheduleEvent timelineEvents event in
      let! strips := scheduleLoop timelineEvents rest' in
      Ok (strip :: strips)
  end.

(** "Schedule Events": the whole loop. *)
Definition scheduleEvents (timelineEvents : list TimelineEvent)
  : result (list (option StripSchedule)) :=
  scheduleLoop timelineEvents timelineEvents.

(** [MixResult]: the bytes of [blob], [duration] and [metadata]. *)
Record MixResult : Type := mkMixResult {
  blob : list Z;
  mixDuration : Q;
  transitionPoints : list Q;
  mixStyle : MixStyle;
  techniquesUsed : list TransitionTechnique
}.

(** The two errors of [renderMix]. *)
Definition NoValidTracks : exn := Error "No valid tracks to mix.".
Definition NoProcessedTracks : exn := Error "Failed to process any tracks.".

Section Render.
(** The window table of the stretcher, the successive values of
    [Math.random()], and [OfflineAudioContext.startRendering] applied to
    the scheduled events and the context length in seconds. *)
Variable hanningWindow : Z -> Q.
Variable mathRandom : nat -> Q.
Variable startRendering : list TimelineEvent -> Q -> AudioBuffer.

(** [tracks.filter(t => t.status === 'READY' && t.originalBpm > 0)] *)
Definition validTracks (tracks : list TrackMetadata) : list TrackMetadata :=
  List.filter (fun t => isReady (status t) && Num.gtb (originalBpm t) 0) tracks.

(** The body of [for (const track of validTracks)]: a track whose
    decoding or stretching throws is logged and left out. *)
Definition prepareTrack (track : TrackMetadata) : option ProcessedTrack :=
  match file track with
  | None => None
  | Some rawBuffer =>
      let tempo := TARGET_BPM / originalBpm track in
      match InternalTimeStretcher.process hanningWindow rawBuffer tempo with
      | Ok stretchedBuffer => Some (mkProcessedTrack stretchedBuffer track tempo)
      | _ => None
      end
  end.

(** [for (const track of validTracks)], which fills [processedTracks]. *)
Fixpoint prepareTracks (validTracks : list TrackMetadata) : list ProcessedTrack :=
  match validTracks with
  | [] => []
  | track :: rest =>
      match prepareTrack track with
      | Some p => p :: prepareTracks rest
      | None => prepareTracks rest
      end
  end.

(** One turn of the timeline loop for [pTrack = processedTracks[i]],
    given whether [processedTracks[i+1]] exists, the cursor, and the
    number of calls made to [Math.random] so far. *)
Definition timelineEvent (style : MixStyle) (i : nat) (pTrack : ProcessedTrack)
           (hasNext : bool) (cursor : Q) (calls : nat) : TimelineEvent :=
  let technique :=
    if hasNext then chooseTechnique style (mathRandom calls) else SLOW_EQ_BLEND in
  let overlapBars := if hasNext then getOverlapBars technique else 0 in
  let overlapTime := overlapBars * BAR_DURATION in
  let scaleFactor := 1 / pt_tempo pTrack in
  let cue := cuePoints (pt_metadata pTrack) in
  let rawCueStart := orElse (from_option cueStart 0 cue) 0 in
  let rawCueEnd :=
    orElse (from_option cueEnd 0 cue) (duration (pt_metadata pTrack)) in
  let rawLoopStart := orElse (from_option (fun c => loopStart (loopRegion c)) 0 cue) 0 in
  let rawLoopEnd := orElse (from_option (fun c => loopEnd (loopRegion c)) 0 cue) 0 in
  mkTimelineEvent i cursor (pt_buffer pTrack)
    (rawCueStart * scaleFactor) (rawCueEnd * scaleFactor)
    (rawLoopStart * scaleFactor) (rawLoopEnd * scaleFactor)
    overlapTime technique
    (orElse (gainFactor (pt_metadata pTrack)) 1).

(** [for (let i = 0; i < processedTracks.length; i++)], on the tracks
    from index [i] on; returns the final cursor and the events. *)
Fixpoint timelineLoop (style : MixStyle) (i : nat) (rest : list ProcessedTrack)
         (cursor : Q) (calls : nat) (timelineEvents : list TimelineEvent)
  : Q * list TimelineEvent :=
  match rest with
  | [] => (cursor, timelineEvents)
  | pTrack :: rest' =>
      let hasNext := match rest' with [] => false | _ => true end in
      let e := timelineEvent style i pTrack hasNext cursor calls in
      let cursor' :=
        if hasNext then cursor + (eventDuration e - overlapTime e)
        else cursor + eventDuration e in
      timelineLoop style (S i) rest' cursor'
                   (if hasNext then S calls else calls)
                   (timelineEvents ++ [e])
  end.

(** Step 2 of [renderMix], "Build Timeline". *)
Definition buildTimeline (style : MixStyle) (processedTracks : list ProcessedTrack)
  : Q * list TimelineEvent :=
  timelineLoop style 0 processedTracks 0 0 [].

(** [async renderMix(tracks, config)].  Step 3 builds the audio graph
    and schedules the events and their automation on it, which throws when
    the platform refuses a call; rendering the scheduled graph is the
    platform's work and is left to [startRendering]. *)
Definition renderMix (tracks : list TrackMetadata) (config : MixConfiguration)
  : result MixResult :=
  let validTracks := validTracks tracks in
  if (length validTracks =? 0)%nat then Throw NoValidTracks
  else
    let processedTracks := prepareTracks validTracks in
    if (length processedTracks =? 0)%nat then Throw NoProcessedTracks
    else
      let (cursor, timelineEvents) := buildTimeline (style config) processedTracks in
      let totalDuration := Num.max (cursor + 10) 10 in
      let! strips := scheduleEvents timelineEvents in
      let renderedBuffer := startRendering timelineEvents totalDuration in
      let! wavBlob := bufferToWave renderedBuffer 0 (frames renderedBuffer) in
      Ok (mkMixResult wavBlob
            (Num.ofZ (frames renderedBuffer) / Num.ofZ (sampleRate renderedBuffer))
            (map startTime timelineEvents)
            (style config)
            (map technique timelineEvents)).

End Render.

End MixEngine.

(** ** [AnalysisEngine] (src/services/mixEngine.ts, second part) *)

Module AnalysisEngine.
Import Types.

(** *** Tempo consensus and normalisation

    Here the code tests [isNaN] and nothing keeps an infinite value out
    (the extractor and the detector are foreign code), so a number is a
    rational, [Infinity], [-Infinity] or [NaN]; a zero is read as [+0]. *)
Inductive number : Type :=
| NaN
| NegInf
| Fin (q : Q)
| PosInf.

(** The infinity of the given sign. *)
Definition infinity (positive : bool) : number :=
  if positive then PosInf else NegInf.

(** An infinity times a finite number: the sign follows the factor, and
    [Infinity * 0] is [NaN]. *)
Definition scaleInfinity (positive : bool) (q : Q) : number :=
  match q ?= 0 with
  | Gt => infinity positive
  | Lt => infinity (negb positive)
  | Eq => NaN
  end.

(** Arithmetic on numbers: an operation with a [NaN] argument is [NaN],
    and so are [Infinity - Infinity], [Infinity * 0], [Infinity / Infinity]
    and [0 / 0]. *)
Definition add (x y : number) : number :=
  match x, y with
  | NaN, _ | _, NaN => NaN
  | Fin a, Fin b => Fin (a + b)
  | PosInf, NegInf | NegInf, PosInf => NaN
  | PosInf, _ | _, PosInf => PosInf
  | NegInf, _ | _, NegInf => NegInf
  end.
Definition sub (x y : number) : number :=
  match x, y with
  | NaN, _ | _, NaN => NaN
  | Fin a, Fin b => Fin (a - b)
  | PosInf, PosInf | NegInf, NegInf => NaN
  | PosInf, _ | _, NegInf => PosInf
  | NegInf, _ | _, PosInf => NegInf
  end.
Definition mul (x y : number) : number :=
  match x, y with
  | NaN, _ | _, NaN => NaN
  | Fin a, Fin b => Fin (a * b)
  | PosInf, Fin b | Fin b, PosInf => scaleInfinity true b
  | NegInf, Fin b | Fin b, NegInf => scaleInfinity false b
  | PosInf, PosInf | NegInf, NegInf => PosInf
  | PosInf, NegInf | NegInf, PosInf => NegInf
  end.
Definition div (x y : number) : number :=
  match x, y with
  | NaN, _ | _, NaN => NaN
  | Fin a, Fin b => if Qeq_bool b 0 then scaleInfinity true a else Fin (a / b)
  | Fin _, PosInf | Fin _, NegInf => Fin 0
  | PosInf, Fin b => infinity (negb (Num.ltb b 0))
  | NegInf, Fin b => infinity (Num.ltb b 0)
  | _, _ => NaN
  end.

(** Comparisons: false when an argument is [NaN]. *)
Definition lt (x y : number) : bool :=
  match x, y with
  | NaN, _ | _, NaN => false
  | Fin a, Fin b => Num.ltb a b
  | _, NegInf => false
  | NegInf, _ => true
  | PosInf, _ => false
  | _, PosInf => true
  end.
Definition gt (x y : number) : bool := lt y x.
Definition abs (x : number) : number :=
  match x with
  | NaN => NaN
  | Fin a => Fin (Num.abs a)
  | NegInf | PosInf => PosInf
  end.
(** [Math.min] and [Math.max]: [NaN] if an argument is. *)
Definition min (x y : number) : number :=
  match x, y with
  | NaN, _ | _, NaN => NaN
  | Fin a, Fin b => Fin (Num.min a b)
  | _, _ => if lt y x then y else x
  end.
Definition max (x y : number) : number :=
  match x, y with
  | NaN, _ | _, NaN => NaN
  | Fin a, Fin b => Fin (Num.max a b)
  | _, _ => if lt x y then y else x
  end.
(** [x || d]: [d] when [x] is [0] or [NaN]. *)
Definition orElse (x d : number) : number :=
  match x with
  | NaN => d
  | Fin a => if Qeq_bool a 0 then d else x
  | NegInf | PosInf => x
  end.



(** [if (bpm < 80) bpm *= 2; if (bpm > 160) bpm /= 2;] *)
Definition fold (bpm : number) : number :=
  let bpm := if lt bpm (Fin 80) then mul bpm (Fin 2) else bpm in
  if gt bpm (Fin 160) then div bpm (Fin 2) else bpm.






(** *** Cue points *)

(** [for (let i = Math.floor(samples * 0.2); i < Math.floor(samples * 0.7); i++)
      { mainSum += energy.low[i]; mainCount++; }]
    with [n] the iterations that remain. *)
Fixpoint mainLoop (n : nat) (i : nat) (low : list Q) (mainSum : Q) (mainCount : Z)
  : Q * Z :=
  match n with
  | O => (mainSum, mainCount)
  | S n' => mainLoop n' (S i) low (mainSum + nth i low 0) (mainCount + 1)%Z
  end.

(** [for (let i = searchStartIndex; i < samples - 5; i++)
      { const currentAvg = ...; if (currentAvg < dropThreshold)
          { outroTime = i * timePerSample; break; } }] *)
Fixpoint outroLoop (n : nat) (i : nat) (low : list Q)
         (dropThreshold timePerSample outroTime : Q) : Q :=
  match n with
  | O => outroTime
  | S n' =>
      let currentAvg := (nth i low 0 + nth (i + 1) low 0 + nth (i + 2) low 0) / 3 in
      if Num.ltb currentAvg dropThreshold then Num.ofNat i * timePerSample
      else outroLoop n' (S i) low dropThreshold timePerSample outroTime
  end.

(** [downbeats.reduce((prev, curr) =>
      Math.abs(curr - target) < Math.abs(prev - target) ? curr : prev, init)] *)
Definition nearest (downbeats : list Q) (target init : Q) : Q :=
  fold_left (fun prev curr =>
               if Num.ltb (Num.abs (curr - target)) (Num.abs (prev - target))
               then curr else prev)
            downbeats init.

(** [private detectCuePoints(beatGrid, energy, duration)].  The products
    [samples * 0.2] and [samples * 0.70] are taken exactly; for the 200
    buckets that the engine computes they are 40 and 140 in binary64 too. *)
Definition detectCuePoints (beatGrid : BeatParser.BeatGrid) (energy : EnergyProfile)
           (duration : Q) : CuePoints :=
  let downbeats := BeatParser.downbeats beatGrid in
  let startPoint := match downbeats with d :: _ => d | [] => 0 end in
  let samples := length (low energy) in
  if (samples =? 0)%nat then
    mkCuePoints 0 (duration - 15) (mkLoopRegion (duration - 20) (duration - 15))
  else
    let timePerSample := duration / Num.ofNat samples in
    let searchStartIndex := Num.floor (Num.ofNat samples * (70 # 100)) in
    let mainStart := Num.floor (Num.ofNat samples * (2 # 10)) in
    let mainStop := Num.floor (Num.ofNat samples * (7 # 10)) in
    let '(mainSum, mainCount) :=
      mainLoop (Z.to_nat (mainStop - mainStart)) (Z.to_nat mainStart) (low energy) 0 0 in
    let mainAvg := if (0 <? mainCount)%Z then mainSum / Num.ofZ mainCount else 1 # 2 in
    let dropThreshold := mainAvg * (6 # 10) in
    let outroTime :=
      outroLoop (Z.to_nat (Z.of_nat samples - 5 - searchStartIndex))
                (Z.to_nat searchStartIndex) (low energy)
                dropThreshold timePerSample (duration - 15) in
    let nearestDownbeat :=
      nearest downbeats outroTime (Types.orElse (List.last downbeats 0) duration) in
    let endPoint := nearestDownbeat in
    let endPoint := if Num.gtb endPoint (duration - 5) then duration - 5 else endPoint in
    let endPoint :=
      if Num.ltb endPoint (duration * (6 # 10)) then duration * (9 # 10) else endPoint in
    let beatsPerBar := 4 in
    let barsToLoop := 4 in
    let beatsToLoop := barsToLoop * beatsPerBar in
    let secondsPerBeat := 60 / BeatParser.bpm beatGrid in
    let loopDuration := beatsToLoop * secondsPerBeat in
    let loopStart := endPoint - loopDuration in
    let loopEnd := endPoint in
    let snapLoopStart := nearest downbeats loopStart loopStart in
    let loopStart :=
      if Num.ltb (Num.abs (snapLoopStart - loopStart)) 2 then snapLoopStart
      else loopStart in
    let loopStart :=
      if Num.ltb loopStart startPoint then Num.max 0 (duration - 30) else loopStart in
    let loopEnd := if Num.leb loopEnd loopStart then duration else loopEnd in
    mkCuePoints startPoint loopEnd (mkLoopRegion loopStart loopEnd).

End AnalysisEngine.

(** ** [AnalysisEngine.mapToCamelot] (src/services/mixEngine.ts, second part) *)

Module Camelot.
Local Open Scope string_scope.

(** [s.replace(pattern, replacement)] with a string pattern: the first
    occurrence is replaced, if there is one. *)
Definition replace (pattern replacement s : string) : string :=
  match index 0 pattern s with
  | Some i =>
      substring 0 i s ++ replacement
      ++ substring (i + String.length pattern)
                   (String.length s - (i + String.length pattern)) s
  | None => s
  end.

(** [map[key]] on an object literal with number values: the value of the
    property, [None] for [undefined].  (A name inherited from
    [Object.prototype] yields a function there, which fails the test
    [index > 0] as [undefined || 0] does.) *)
Fixpoint property (map : list (string * Z)) (key : string) : option Z :=
  match map with
  | [] => None
  | (k, v) :: rest => if String.eqb key k then Some v else property rest key
  end.

Definition majorMap : list (string * Z) :=
  [ ("B", 1); ("F#", 2); ("Gb", 2); ("Db", 3); ("C#", 3); ("Ab", 4); ("G#", 4);
    ("Eb", 5); ("D#", 5); ("Bb", 6); ("A#", 6); ("F", 7); ("C", 8); ("G", 9);
    ("D", 10); ("A", 11); ("E", 12) ]%Z.

Definition minorMap : list (string * Z) :=
  [ ("Ab", 1); ("G#", 1); ("Eb", 2); ("D#", 2); ("Bb", 3); ("A#", 3); ("F", 4);
    ("C", 5); ("G", 6); ("D", 7); ("A", 8); ("E", 9); ("B", 10); ("F#", 11);
    ("Gb", 11); ("Db", 12); ("C#", 12) ]%Z.

(** A number in a template literal, for the integers. *)
Definition toString (n : Z) : string :=
  DecimalString.NilZero.string_of_int (Z.to_int n).

(** [private mapToCamelot(key, scale)] *)
Definition mapToCamelot (key scale : string) : string :=
  let isMinor := String.eqb scale "minor" in
  let suffix := if isMinor then "A" else "B" in
  let map := if isMinor then minorMap else majorMap in
  let normKey := replace "flat" "b" (replace "sharp" "#" key) in
  let index := match property map normKey with Some v => v | None => 0%Z end in
  if (0 <? index)%Z then toString index ++ suffix else key.

End Camelot.

(** ** [AnalysisEngine.initializeEssentia] (src/services/mixEngine.ts, second part) *)

Module EssentiaInit.

Section Engine.
(** The bytes of the WASM binary and the [Essentia] instance built from
    it are the platform's. *)
Variables Binary Essentia : Type.

(** The fields of [AnalysisEngine] that the initialisation touches;
    [initPromise] is whether the promise has been created. *)
Record Engine : Type := mkEngine {
  essentia : option Essentia;
  isReady : bool;
  useLiteMode : bool;
  initPromise : bool
}.

(** The engine as constructed. *)
Definition newEngine : Engine := mkEngine None false false false.

(** What the initialisation meets: whether [window.Essentia] and
    [window.EssentiaWASM] are defined; for each URL of [CDNS], in order,
    the binary that the fetch yields, [None] when the fetch throws or the
    response is not [ok]; and the instance that [EssentiaWASM] and
    [new Essentia] make of a binary, [None] when either throws. *)
Record Platform : Type := mkPlatform {
  globalsDefined : bool;
  fetchWasm : list (option Binary);
  instantiate : Binary -> option Essentia
}.

(** [for (const url of CDNS) { try { ... if (response.ok) { wasmBinary =
    ...; break; } } catch (e) {} }] *)
Fixpoint fetchLoop (responses : list (option Binary)) : option Binary :=
  match responses with
  | [] => None
  | Some wasmBinary :: _ => Some wasmBinary
  | None :: rest => fetchLoop rest
  end.

(** [private async initializeEssentia()] *)
Definition initializeEssentia (p : Platform) (e : Engine) : Engine :=
  if isReady e then e
  else if negb (globalsDefined p) then
    mkEngine (essentia e) true true (initPromise e)
  else
    match fetchLoop (fetchWasm p) with
    | None => mkEngine (essentia e) true true (initPromise e)
    | Some wasmBinary =>
        match instantiate p wasmBinary with
        | Some instance => mkEngine (Some instance) true (useLiteMode e) (initPromise e)
        | None => mkEngine (essentia e) true true (initPromise e)
        end
    end.

(** The first statements of [analyzeTrack]:
    [if (!this.initPromise) this.initPromise = this.initializeEssentia();
     await this.initPromise;] *)
Definition awaitInit (p : Platform) (e : Engine) : Engine :=
  if initPromise e then e
  else initializeEssentia p (mkEngine (essentia e) (isReady e) (useLiteMode e) true).

End Engine.

Arguments mkEngine {Essentia}.
Arguments essentia {Essentia}.
Arguments isReady {Essentia}.
Arguments useLiteMode {Essentia}.
Arguments initPromise {Essentia}.
Arguments newEngine {Essentia}.
Arguments mkPlatform {Binary Essentia}.
Arguments globalsDefined {Binary Essentia}.
Arguments fetchWasm {Binary Essentia}.
Arguments instantiate {Binary Essentia}.
Arguments fetchLoop {Binary}.
Arguments initializeEssentia {Binary Essentia}.
Arguments awaitInit {Binary Essentia}.

End EssentiaInit.

(** * Vocabulary of the properties *)

(** ** Stretched buffers *)

Module StretchSpec.
Import WebAudio InternalTimeStretcher.

(** An output channel as the loop keeps it: [newLength] samples, the last
    of which is still the [0] it was created with. *)
Definition channelKept (newLength : Z) (ch : list Q) : Prop :=
  Z.of_nat (length ch) = newLength /\
  ((0 < newLength)%Z -> ch !! Z.to_nat (newLength - 1) = Some 0).

(** The state of the overlap-add loop between two turns. *)
Definition olaInv (numChannels : nat) (newLength : Z) (s : OlaState) : Prop :=
  (0 <= ola_inPos s)%Z /\ (0 <= ola_outPos s)%Z /\
  length (ola_outputData s) = numChannels /\
  Forall (channelKept newLength) (ola_outputData s).

(** The sample at index [j] of a stretched mono buffer of 4097 samples. *)
Definition sampleOf (r : result AudioBuffer) (j : nat) : option Q :=
  match r with
  | Ok out =>
      match channelData out with
      | [ch] => if (frames out =? 4097)%Z then ch !! j else None
      | _ => None
      end
  | _ => None
  end.

End StretchSpec.

(** ** Timelines *)

Module TimelineSpec.
Import WebAudio Types MixEngine.

(** What the timeline loop keeps true of the events pushed so far
    ([acc]), the cursor, and the tracks still to come ([rest]): each event
    but the first starts where its predecessor's cursor update led, and
    while tracks remain the cursor is the update made for the last event. *)
Definition linked (acc : list TimelineEvent) (cursor : Q)
           (rest : list ProcessedTrack) : Prop :=
  (forall (i : nat) (this next : TimelineEvent),
      acc !! i = Some this -> acc !! S i = Some next ->
      startTime next = startTime this + (eventDuration this - overlapTime this)) /\
  (rest <> [] ->
   forall e, last acc = Some e ->
             cursor = startTime e + (eventDuration e - overlapTime e)).

End TimelineSpec.

(** ** WAV bytes *)

Module WaveSpec.
Import WebAudio Types MixEngine.

(** The writer over a buffer of [total] bytes has written [bytes] so far:
    they are the first bytes of the view, and [pos] is just behind them. *)
Definition written (total : nat) (w : Writer) (bytes : list Z) : Prop :=
  length (view w) = total /\
  pos w = Z.of_nat (length bytes) /\
  take (length bytes) (view w) = bytes.

(** The 44 bytes of the header, field by field. *)
Definition headerBytes (numOfChan sampleRate length : Z) : list Z :=
  littleEndian 4 0x46464952 ++ littleEndian 4 (length - 8)
  ++ littleEndian 4 0x45564157 ++ littleEndian 4 0x20746d66
  ++ littleEndian 4 16 ++ littleEndian 2 1 ++ littleEndian 2 numOfChan
  ++ littleEndian 4 sampleRate ++ littleEndian 4 (sampleRate * 2 * numOfChan)
  ++ littleEndian 2 (numOfChan * 2) ++ littleEndian 2 16
  ++ littleEndian 4 0x61746164 ++ littleEndian 4 (length - 40 - 4).

(** The bytes of one frame, channels [i] to [i + n - 1], and of the first
    [k] frames from [offset] on. *)
Definition frameBytes (channels : list (list Q)) (offset : Z) (i n : nat) : list Z :=
  flat_map (fun c => littleEndian 2 (encodeSample (sampleAt channels c offset)))
           (seq i n).

Definition dataBytes (channels : list (list Q)) (offset : Z) (k : nat) : list Z :=
  flat_map (fun j => frameBytes channels (offset + Z.of_nat j) 0 (length channels))
           (seq 0 k).

(** The character codes of a string. *)
Definition asciiBytes (s : string) : list Z :=
  map (fun c => Z.of_N (Ascii.N_of_ascii c)) (list_ascii_of_string s).

(** [DataView.getUint32(at, true)]: the little-endian field at [at]. *)
Definition getUint32 (bytes : list Z) (at_ : nat) : option Z :=
  match take 4 (drop at_ bytes) with
  | [b0; b1; b2; b3] => Some (b0 + 256 * b1 + 65536 * b2 + 16777216 * b3)%Z
  | _ => None
  end.

End WaveSpec.

(** ** Tempos *)

Module TempoSpec.
Import AnalysisEngine.



End TempoSpec.

(** ** Cue points *)

Module CueSpec.
Import Types.

(** The order that [detectCuePoints] keeps: start and loop within the
    track, the loop non-empty and ending at the mix-out point, and the loop
    not before the start unless it was reset to [max(0, duration - 30)]. *)
Definition cuesInOrder (duration : Q) (cp : CuePoints) : Prop :=
  0 <= cueStart cp /\
  cueStart cp < duration /\
  0 <= loopStart (loopRegion cp) /\
  loopStart (loopRegion cp) < loopEnd (loopRegion cp) /\
  loopEnd (loopRegion cp) = cueEnd cp /\
  cueEnd cp <= duration /\
  (cueStart cp <= loopStart (loopRegion cp)
   \/ loopStart (loopRegion cp) == Num.max 0 (duration - 30)).

End CueSpec.

(** ** Inputs of the examples *)

Module Examples.
Import WebAudio Types InternalTimeStretcher MixEngine.

(** A mono buffer of three samples. *)
Definition threeSamples : AudioBuffer :=
  mkAudioBuffer 44100 3 [[1 # 10; 2 # 10; 3 # 10]].

(** A rational window that vanishes at both ends and peaks in the middle,
    as the Hanning window does. *)
Definition parabolicWindow (i : Z) : Q :=
  4 * inject_Z i * inject_Z (winSize - 1 - i)
  / (inject_Z (winSize - 1) * inject_Z (winSize - 1)).

(** A mono buffer of 8194 samples, all [1]. *)
Definition ones : AudioBuffer :=
  mkAudioBuffer 44100 8194 [replicate (Z.to_nat 8194) 1].

(** Two frames of stereo silence. *)
Definition demoBuffer : AudioBuffer := mkAudioBuffer 44100 2 [[0; 0]; [0; 0]].

(** Three tracks: two analysed at 120 and 125 BPM, between them one whose
    analysis failed; the last has no cue points. *)
Definition demoTracks : list TrackMetadata :=
  [ mkTrackMetadata "a" (Some demoBuffer) READY 120 200
      (Some (mkCuePoints 0 180 (mkLoopRegion 172 180))) 1;
    mkTrackMetadata "x" None ERROR 0 0 None 0;
    mkTrackMetadata "b" (Some demoBuffer) READY 125 240 None 1 ].

(** Two tracks whose analysis failed. *)
Definition failedTracks : list TrackMetadata :=
  [ mkTrackMetadata "a" None ERROR 0 0 None 0;
    mkTrackMetadata "b" None ERROR 0 0 None 0 ].

(** One second of stereo silence at 44100 Hz. *)
Definition silentSecond : AudioBuffer :=
  mkAudioBuffer 44100 44100
    [replicate (Z.to_nat 44100) 0; replicate (Z.to_nat 44100) 0].

(** The grid of a track of [duration] seconds at 120 BPM, locked without
    onsets or external offset. *)
Definition gridAt120 (duration : Q) : BeatParser.BeatGrid :=
  match BeatParser.getLockedGrid3 [] 120 duration with
  | Ok g => g
  | _ => BeatParser.mkBeatGrid 120 0 [] []
  end.

(** A flat energy profile of 200 buckets. *)
Definition flatEnergy : EnergyProfile :=
  mkEnergyProfile (replicate 200 (1 # 10)) (replicate 200 (1 # 10))
                  (replicate 200 (1 # 10)).

End Examples.

(** ** Beat grids *)

Module GridSpec.
Import BeatParser.

(** The [k]-th point of the grid of spacing [iv] that starts at [t]. *)
Definition gridPoint (t iv : Q) (k : nat) : Q := t + Num.ofNat k * iv.

(** What the grid loop keeps true of its state, for the grid that starts
    at [t0]: the beats pushed so far are the first grid points, each below
    the duration and each one interval after its predecessor; [t] is the
    next grid point; the downbeats are the beats at the indices 0, 4, 8,
    and so on. *)
Definition gridInv (t0 iv dur : Q) (s : GridState) : Prop :=
  gs_beatCount s = Z.of_nat (length (gs_lockedBeats s)) /\
  gs_t s == gridPoint t0 iv (length (gs_lockedBeats s)) /\
  (forall k b, gs_lockedBeats s !! k = Some b -> b == gridPoint t0 iv k /\ b < dur) /\
  (forall k b b', gs_lockedBeats s !! k = Some b -> gs_lockedBeats s !! S k = Some b' ->
                  b' = b + iv) /\
  (forall b, last (gs_lockedBeats s) = Some b -> gs_t s = b + iv) /\
  (forall j, gs_downbeats s !! j = gs_lockedBeats s !! (4 * j)%nat).

(** The values that [t] takes under [t += idealInterval], started at
    [t]: [t], [t + iv], [(t + iv) + iv], ..., added up in this order. *)
Fixpoint runningSums (t iv : Q) (n : nat) : list Q :=
  match n with
  | O => []
  | S n' => t :: runningSums (t + iv) iv n'
  end.
End GridSpec.

(** ** The grid in binary64 *)

Module GridSpec64.
Import Floats.
Local Open Scope float_scope.

(** The values that [t] takes under [t += idealInterval] in binary64,
    each sum rounded as the code rounds it. *)
Fixpoint runningSums (t iv : float) (n : nat) : list float :=
  match n with
  | O => []
  | S n' => t :: runningSums (t + iv) iv n'
  end.

(** [b < totalDuration] holds in binary64. *)
Definition below (totalDuration b : float) : Prop := (b <? totalDuration) = true.

End GridSpec64.

(** ** Overlap-add sums *)

Module OlaSpec.
Import WebAudio InternalTimeStretcher.

Section Sum.
Variable hanningWindow : Z -> Q.
Variable inCh : list Q.
Variable anaHop : Z.

(** Turn [t] of the overlap-add loop accumulates into the output indices
    from [t * hopSize] to [t * hopSize + winSize - 1]. *)
Definition inWindow (t : nat) (j : Z) : bool :=
  (Z.of_nat t * hopSize <=? j)%Z && (j <? Z.of_nat t * hopSize + winSize)%Z.

(** What turn [t] adds at the output index [j]: the input sample at the
    same place of the input window, which starts at [t * anaHop], times
    the window entry. *)
Definition grain (t : nat) (j : Z) : Q :=
  nth (Z.to_nat (Z.of_nat t * anaHop + (j - Z.of_nat t * hopSize))) inCh 0
  * hanningWindow (j - Z.of_nat t * hopSize).

(** The output sample at index [j] after [turns] turns: the grains of the
    windows that cover [j], added up in the order of the turns. *)
Fixpoint overlapAdd (turns : nat) (j : Z) : Q :=
  match turns with
  | O => 0
  | S t => if inWindow t j then overlapAdd t j + grain t j else overlapAdd t j
  end.

(** An output channel of [newLength] samples after [turns] turns. *)
Definition channelAfter (newLength : Z) (turns : nat) (outCh : list Q) : Prop :=
  Z.of_nat (length outCh) = newLength /\
  forall j : nat, (Z.of_nat j < newLength)%Z ->
                  outCh !! j = Some (overlapAdd turns (Z.of_nat j)).

End Sum.

(** The guard of the overlap-add loop before turn [t]. *)
Definition turnAllowed (newLength bufferLength anaHop : Z) (t : nat) : Prop :=
  (Z.of_nat t * hopSize < newLength - winSize)%Z /\
  (Z.of_nat t * anaHop < bufferLength - winSize)%Z.

End OlaSpec.

(** ** Processed tracks and timelines *)

Module TimelineShape.
Import WebAudio Types MixEngine.

(** [processedTracks[k + 1]] exists, in a list of [n] tracks. *)
Definition hasNextAt (n k : nat) : bool := (S k <? n)%nat.

(** A processed track as [renderMix] prepares it from [tracks]: its
    metadata is one of the tracks, ready and with a positive tempo; its
    [tempo] is [TARGET_BPM / originalBpm]; its buffer is what the stretcher
    made of the decoded file at that tempo. *)
Definition preparedFrom (hanningWindow : Z -> Q) (tracks : list TrackMetadata)
           (p : ProcessedTrack) : Prop :=
  In (pt_metadata p) tracks /\
  status (pt_metadata p) = READY /\
  0 < originalBpm (pt_metadata p) /\
  pt_tempo p = TARGET_BPM / originalBpm (pt_metadata p) /\
  exists rawBuffer,
    file (pt_metadata p) = Some rawBuffer /\
    InternalTimeStretcher.process hanningWindow rawBuffer (pt_tempo p)
    = Ok (pt_buffer p).

(** [processedTracks] and [timelineEvents] as [renderMix] computes them
    from [tracks]. *)
Definition processedOf (hanningWindow : Z -> Q) (tracks : list TrackMetadata)
  : list ProcessedTrack :=
  prepareTracks hanningWindow (validTracks tracks).

Definition timelineOf (hanningWindow : Z -> Q) (mathRandom : nat -> Q)
           (style : MixStyle) (tracks : list TrackMetadata) : list TimelineEvent :=
  snd (buildTimeline mathRandom style (processedOf hanningWindow tracks)).

End TimelineShape.

(** ** Automation calls *)

Module ScheduleSpec.
Import WebAudio Types MixEngine.

(** The time at which a call takes effect, for the calls that name one. *)
Definition timeOf (a : Automation) : option Q :=
  match a with
  | setValueAtTime _ _ t | linearRampToValueAtTime _ _ t
  | exponentialRampToValueAtTime _ _ t => Some t
  | setFilterType _ | setFilterQ _ => None
  end.

(** The call drives the gain of the channel fader. *)
Definition onChannelGain (a : Automation) : bool :=
  match a with
  | setValueAtTime channelGain_gain _ _
  | linearRampToValueAtTime channelGain_gain _ _
  | exponentialRampToValueAtTime channelGain_gain _ _ => true
  | _ => false
  end.

(** The value that a call sets or ramps to. *)
Definition valueOf (a : Automation) : option Q :=
  match a with
  | setValueAtTime _ v _ | linearRampToValueAtTime _ v _
  | exponentialRampToValueAtTime _ v _ => Some v
  | setFilterType _ | setFilterQ _ => None
  end.

(** The call is a ramp (linear or exponential). *)
Definition isRamp (a : Automation) : bool :=
  match a with
  | linearRampToValueAtTime _ _ _ | exponentialRampToValueAtTime _ _ _ => true
  | _ => false
  end.

(** The calls that drive the channel fader, in program order. *)
Definition gainCalls (calls : list Automation) : list Automation :=
  List.filter onChannelGain calls.

(** The parameter that a call drives. *)
Definition paramOf (a : Automation) : option StripParam :=
  match a with
  | setValueAtTime p _ _ | linearRampToValueAtTime p _ _
  | exponentialRampToValueAtTime p _ _ => Some p
  | setFilterType _ | setFilterQ _ => None
  end.

Definition sameParam (p q : StripParam) : bool :=
  match p, q with
  | channelGain_gain, channelGain_gain | lowEQ_gain, lowEQ_gain
  | highEQ_gain, highEQ_gain | filter_frequency, filter_frequency
  | auxSend_gain, auxSend_gain => true
  | _, _ => false
  end.

(** The value that the last call on [p] in [calls] sets or ramps to. *)
Fixpoint lastValueOn (p : StripParam) (calls : list Automation) : option Q :=
  match calls with
  | [] => None
  | a :: rest =>
      match lastValueOn p rest with
      | Some v => Some v
      | None =>
          match paramOf a with
          | Some q => if sameParam p q then valueOf a else None
          | None => None
          end
      end
  end.

(** Every exponential ramp of the list is one that the Web Audio API can
    follow: it aims at a positive value, and the call before it on the same
    parameter has left that parameter at a positive value. *)
Definition rampsArePositive (calls : list Automation) : Prop :=
  forall (i : nat) (p : StripParam) (v t : Q),
    calls !! i = Some (exponentialRampToValueAtTime p v t) ->
    0 < v /\ exists v0, lastValueOn p (take i calls) = Some v0 /\ 0 < v0.

(** Every timed call of the list takes effect between [from] and [to]. *)
Definition withinWindow (from to : Q) (calls : list Automation) : Prop :=
  Forall (fun a => match timeOf a with
                   | Some t => from <= t /\ t <= to
                   | None => True
                   end) calls.

(** An event with times that the platform accepts: it starts at a time
    that is not negative, it plays, and loops, from offsets that are not
    negative, and its outgoing pass, which starts at
    [startTime + wallDuration - overlapTime], does not start before time
    0. *)
Definition schedulable (e : TimelineEvent) : Prop :=
  0 <= startTime e /\ 0 <= bufferOffsetStart e /\ 0 <= bufferLoopStart e /\
  0 <= startTime e + (bufferOffsetEnd e - bufferOffsetStart e) - overlapTime e.

(** The call returns or throws a [RangeError]. *)
Definition returnsOrRangeError {A : Type} (r : result A) : Prop :=
  (exists a, r = Ok a) \/ r = Throw RangeError.

End ScheduleSpec.

(** ** Reading WAV bytes *)

Module WaveReading.
Import WebAudio Types MixEngine WaveSpec.

(** [DataView.getUint16(at, true)] and [DataView.getInt16(at, true)]:
    the little-endian 16-bit field at [at], unsigned and signed. *)
Definition getUint16 (bytes : list Z) (at_ : nat) : option Z :=
  match take 2 (drop at_ bytes) with
  | [b0; b1] => Some (b0 + 256 * b1)%Z
  | _ => None
  end.

Definition getInt16 (bytes : list Z) (at_ : nat) : option Z :=
  match getUint16 bytes at_ with
  | Some u => Some (if (u <? 32768)%Z then u else u - 65536)%Z
  | None => None
  end.

End WaveReading.

(** ** The Camelot wheel *)

Module CamelotSpec.
Local Open Scope string_scope.

(** The twelve pitch classes by their names, C = 0, in semitones. *)
Definition pitchClass : list (string * Z) :=
  [ ("C", 0); ("C#", 1); ("Db", 1); ("D", 2); ("D#", 3); ("Eb", 3); ("E", 4);
    ("F", 5); ("F#", 6); ("Gb", 6); ("G", 7); ("G#", 8); ("Ab", 8); ("A", 9);
    ("A#", 10); ("Bb", 10); ("B", 11) ]%Z.

(** The number of a major key on the Camelot wheel: C major is 8, and a
    fifth up (seven semitones) is one step on. *)
Definition wheelNumber (pc : Z) : Z := ((7 * pc + 7) mod 12 + 1)%Z.

(** The 17 key names of the two tables. *)
Definition keyNames : list string :=
  [ "C"; "C#"; "Db"; "D"; "D#"; "Eb"; "E"; "F"; "F#"; "Gb"; "G"; "G#"; "Ab"; "A";
    "A#"; "Bb"; "B" ].
End CamelotSpec.

(** ** More inputs of the examples *)

Module MoreExamples.
Import WebAudio Types MixEngine.

(** A track that was analysed but whose file no longer decodes. *)
Definition undecodableTracks : list TrackMetadata :=
  [ mkTrackMetadata "a" None READY 120 200 None 1 ].

(** Two tracks of 100 seconds at the target tempo, each with cue points
    from 0 to 95 seconds. *)
Definition shortTracks : list TrackMetadata :=
  [ mkTrackMetadata "a" (Some Examples.demoBuffer) READY 125 100
      (Some (mkCuePoints 0 95 (mkLoopRegion 64 80))) 1;
    mkTrackMetadata "b" (Some Examples.demoBuffer) READY 125 100
      (Some (mkCuePoints 0 95 (mkLoopRegion 64 80))) 1 ].

End MoreExamples.

(** * Properties *)

(** ** Comparisons and rounding *)

Module NumFacts.

Lemma ltb_true (x y : Q) : Num.ltb x y = true <-> x < y.
Proof.
  unfold Num.ltb. rewrite negb_true_iff, <- not_true_iff_false, Qle_bool_iff.
  split; [apply Qnot_le_lt | apply Qlt_not_le].
Qed.

Lemma ltb_false (x y : Q) : Num.ltb x y = false <-> y <= x.
Proof.
  unfold Num.ltb. rewrite negb_false_iff. apply Qle_bool_iff.
Qed.

Lemma leb_true (x y : Q) : Num.leb x y = true <-> x <= y.
Proof. apply Qle_bool_iff. Qed.

Lemma leb_false (x y : Q) : Num.leb x y = false <-> y < x.
Proof.
  unfold Num.leb. rewrite <- not_true_iff_false, Qle_bool_iff.
  split; [apply Qnot_le_lt | apply Qlt_not_le].
Qed.

Lemma gtb_true (x y : Q) : Num.gtb x y = true <-> y < x.
Proof. apply ltb_true. Qed.

Lemma gtb_false (x y : Q) : Num.gtb x y = false <-> x <= y.
Proof. apply ltb_false. Qed.

Lemma geb_true (x y : Q) : Num.geb x y = true <-> y <= x.
Proof. apply leb_true. Qed.

Lemma geb_false (x y : Q) : Num.geb x y = false <-> x < y.
Proof. apply leb_false. Qed.

End NumFacts.

(** Case analysis on every comparison of the goal, each case recorded as
    an inequality. *)
Ltac cmp_cases :=
  repeat match goal with
  | |- context [Num.ltb ?x ?y] =>
      let H := fresh "Hcmp" in
      destruct (Num.ltb x y) eqn:H;
      [apply NumFacts.ltb_true in H | apply NumFacts.ltb_false in H]
  | |- context [Num.gtb ?x ?y] =>
      let H := fresh "Hcmp" in
      destruct (Num.gtb x y) eqn:H;
      [apply NumFacts.gtb_true in H | apply NumFacts.gtb_false in H]
  | |- context [Num.leb ?x ?y] =>
      let H := fresh "Hcmp" in
      destruct (Num.leb x y) eqn:H;
      [apply NumFacts.leb_true in H | apply NumFacts.leb_false in H]
  | |- context [Num.geb ?x ?y] =>
      let H := fresh "Hcmp" in
      destruct (Num.geb x y) eqn:H;
      [apply NumFacts.geb_true in H | apply NumFacts.geb_false in H]
  end.

(** ** Loops that end *)

Section WhileFacts.
Context {St : Type}.
Variable cond : St -> bool.
Variable body : St -> result St.
(** An invariant and a measure that every turn lowers. *)
Variable Inv : St -> Prop.
Variable measure : St -> nat.
Hypothesis turn :
  forall s, Inv s -> cond s = true ->
            exists s', body s = Ok s' /\ Inv s' /\ (measure s' < measure s)%nat.

(** With at least [measure s] turns allowed, the loop started in [s] ends
    in a state that satisfies the invariant and falsifies the guard. *)
Lemma while_ends (fuel : nat) :
  forall s, Inv s -> (measure s <= fuel)%nat ->
            exists s', while cond body fuel s = Ok s' /\ Inv s' /\ cond s' = false.
Proof.
  induction fuel as [|fuel IH]; intros s HI Hm; simpl;
    destruct (cond s) eqn:Hc; eauto.
  - destruct (turn s HI Hc) as (s' & _ & _ & Hlt). lia.
  - destruct (turn s HI Hc) as (s' & Hb & HI' & Hlt).
    rewrite Hb. simpl. apply IH; [assumption | lia].
Qed.

End WhileFacts.

(** ** The beat grid *)

Module BeatParserFacts.
Import BeatParser.

(** One more interval covered leaves fewer turns to go. *)
Lemma turns_lt (d d' iv : Q) :
  0 < iv -> 0 < d -> d' <= d - iv -> (turns d' iv < turns d iv)%nat.
Proof.
  intros Hiv Hd Hd'. unfold turns.
  assert (Hx : 0 < d / iv) by (apply Qlt_shift_div_l; lra).
  assert (Hy : d' / iv <= d / iv - 1).
  { apply Qle_shift_div_r; [assumption|].
    assert (E : (d / iv - 1) * iv == d - iv) by (field; lra).
    rewrite E. assumption. }
  pose proof (Qceiling_lt (d' / iv)) as H1.
  pose proof (Qle_ceiling (d / iv)) as H2.
  assert (H3 : inject_Z (Qceiling (d' / iv)) < inject_Z (Qceiling (d / iv))).
  { unfold Z.sub in H1. rewrite inject_Z_plus, inject_Z_opp in H1.
    change (inject_Z 1) with 1 in H1. lra. }
  rewrite <- Zlt_Qlt in H3.
  assert (H4 : inject_Z 0 < inject_Z (Qceiling (d / iv))).
  { change (inject_Z 0) with 0. lra. }
  rewrite <- Zlt_Qlt in H4. lia.
Qed.

(** A forced offset that is not negative is the phase. *)
Lemma averageOffset_forced (rawBeats : list Q) (iv forced : Q) :
  0 <= forced -> averageOffset rawBeats iv forced = forced.
Proof.
  intros Hf. unfold averageOffset.
  now replace (Num.geb forced 0) with true by (symmetry; apply NumFacts.geb_true; exact Hf).
Qed.

Lemma raisePhase_ends (iv t : Q) :
  0 < iv -> exists t', raisePhase iv t = Ok t' /\ 0 <= t'.
Proof.
  intros Hiv. unfold raisePhase.
  destruct (while_ends (fun t => Num.ltb t 0) (fun t => Ok (t + iv))
              (fun _ => True) (fun t => turns (- t) iv)) with
    (fuel := turns (- t) iv) (s := t) as (t' & Hw & _ & Hc); auto.
  - intros s _ Hs. apply NumFacts.ltb_true in Hs.
    eexists. split; [reflexivity|]. split; [exact I|].
    apply turns_lt; lra.
  - exists t'. split; [assumption|]. now apply NumFacts.ltb_false in Hc.
Qed.

Lemma lowerPhase_ends (iv t : Q) :
  0 < iv -> 0 <= t -> exists t', lowerPhase iv t = Ok t' /\ 0 <= t' /\ t' <= iv.
Proof.
  intros Hiv Ht. unfold lowerPhase.
  destruct (while_ends (fun t => Num.gtb t iv) (fun t => Ok (t - iv))
              (fun t => 0 <= t) (fun t => turns t iv)) with
    (fuel := turns t iv) (s := t) as (t' & Hw & Hpos & Hc); auto.
  - intros s Hs0 Hs. apply NumFacts.gtb_true in Hs.
    eexists. split; [reflexivity|]. split; [lra|].
    apply turns_lt; lra.
  - exists t'. split; [assumption|]. split; [assumption|].
    now apply NumFacts.gtb_false in Hc.
Qed.

Lemma startPhase_ends (iv a : Q) :
  0 < iv -> exists t, startPhase iv a = Ok t /\ 0 <= t /\ t <= iv.
Proof.
  intros Hiv. unfold startPhase.
  destruct (raisePhase_ends iv a Hiv) as (t1 & -> & H1). simpl.
  now apply lowerPhase_ends.
Qed.

(** The grid loop ends, and what it has pushed first stays first. *)
Lemma gridLoop_ends (iv dur : Q) (s : GridState) :
  0 < iv ->
  exists s', gridLoop iv dur s = Ok s' /\
             (gs_lockedBeats s = [] ->
              gs_lockedBeats s' = [] \/ head (gs_lockedBeats s') = Some (gs_t s)) /\
             (forall b, head (gs_lockedBeats s) = Some b ->
                        head (gs_lockedBeats s') = Some b).
Proof.
  intros Hiv. unfold gridLoop.
  destruct (while_ends (fun s => Num.ltb (gs_t s) dur) (fun s => Ok (gridStep iv s))
              (fun s' =>
                 (gs_lockedBeats s = [] ->
                  (gs_lockedBeats s' = [] /\ gs_t s' = gs_t s)
                  \/ head (gs_lockedBeats s') = Some (gs_t s)) /\
                 (forall b, head (gs_lockedBeats s) = Some b ->
                            head (gs_lockedBeats s') = Some b))
              (fun s => turns (dur - gs_t s) iv)) with
    (fuel := turns (dur - gs_t s) iv) (s := s) as (s' & Hw & (Ha & Hb) & _); auto.
  - intros s1 (Ha & Hb) Hc. apply NumFacts.ltb_true in Hc.
    eexists. split; [reflexivity|]. split; [split|].
    + intros Hnil. right. simpl.
      destruct (Ha Hnil) as [[E1 E2]|E1].
      * rewrite E1, E2. reflexivity.
      * destruct (gs_lockedBeats s1); [discriminate|exact E1].
    + intros b Hh. specialize (Hb b Hh). simpl.
      destruct (gs_lockedBeats s1); [discriminate|exact Hb].
    + simpl. apply turns_lt; lra.
  - exists s'. split; [assumption|]. split; [|assumption].
    intros Hnil. destruct (Ha Hnil) as [[E _]|E]; auto.
Qed.

End BeatParserFacts.

Module BeatParserClaims.
Import Floats BeatParser BeatParserFacts.

(** C2.  The [offset] of the grid is not normalised.  The code brings the
    local phase [t] into [0, 60/bpm] ("Normalize t to be the first beat
    >= 0") and returns [averageOffset * 1000], the phase as it was before:
    [getLockedGrid([], 120, 10, 1)] reports an offset of 1000 ms, so
    [offsetMs/1000 = 1] is not below [60/120 = 0.5], while the first beat
    of the same grid is at 0.5 s; so it is in exact arithmetic and so it
    is in binary64 arithmetic. *)
Theorem getLockedGrid_offset_not_normalised :
  (exists g b,
      getLockedGrid [] 120 10 1 = Ok g /\
      offset g / 1000 == 1 /\
      60 / 120 <= offset g / 1000 /\
      head (beats g) = Some b /\
      b == 60 / 120) /\
  (exists g64,
      BeatParser64.getLockedGrid 100 [] 120 10 1 = Some g64 /\
      BeatParser64.offset g64 = 1000%float /\
      (60 / 120 <=? BeatParser64.offset g64 / 1000)%float = true /\
      head (BeatParser64.beats g64) = Some 0.5%float).
Proof.
  split.
  - do 2 eexists. split; [vm_compute; reflexivity|].
    split; [vm_compute; reflexivity|]. split; [vm_compute; discriminate|].
    split; [reflexivity|]. vm_compute. reflexivity.
  - eexists. split; [vm_compute; reflexivity|]. repeat split.
Qed.

(** C5 (as amended).  With no onsets and no external offset, [bpm = 125]
    and [duration = 40], the locked grid starts at phase 0 and has
    exactly 84 beats and exactly 21 downbeats; so it is in exact arithmetic
    and so it is in binary64 arithmetic. *)
Theorem empty_input_grid :
  (exists g,
      getLockedGrid3 [] 125 40 = Ok g /\
      head (beats g) = Some 0 /\
      length (beats g) = 84%nat /\
      length (downbeats g) = 21%nat) /\
  (exists g,
      BeatParser64.emptyInput_125_40 = Some g /\
      head (BeatParser64.beats g) = Some PrimFloat.zero /\
      length (BeatParser64.beats g) = 84%nat /\
      length (BeatParser64.downbeats g) = 21%nat).
Proof.
  split; eexists; (split; [vm_compute; reflexivity|]); repeat split.
Qed.

(** C5 as stated fails: the grid has 84 beats, not 83 (beats 0 to 83, the
    last at 83 * 0.48 = 39.84 < 40), in exact and in binary64 arithmetic. *)
Lemma empty_input_grid_not_83_beats :
  (exists g,
      getLockedGrid3 [] 125 40 = Ok g /\
      length (beats g) = 84%nat /\
      length (beats g) <> 83%nat /\
      (exists b, List.last (beats g) 0 = b /\ b == 3984 # 100 /\ b < 40)) /\
  (exists g,
      BeatParser64.emptyInput_125_40 = Some g /\
      length (BeatParser64.beats g) = 84%nat /\
      length (BeatParser64.beats g) <> 83%nat).
Proof.
  split.
  - eexists. split; [vm_compute; reflexivity|].
    split; [reflexivity|]. split; [discriminate|].
    eexists. split; [vm_compute; reflexivity|].
    split; vm_compute; reflexivity.
  - eexists. split; [vm_compute; reflexivity|].
    split; [reflexivity | discriminate].
Qed.

End BeatParserClaims.

(** ** The time stretcher *)

Module InternalTimeStretcherFacts.
Import WebAudio InternalTimeStretcher StretchSpec.

(** A checked read answers [Ok] exactly on the indices of the array. *)
Lemma readSample_Ok (a : list Q) (i : Z) (v : Q) :
  readSample a i = Ok v <->
  (0 <= i < Z.of_nat (length a))%Z /\ a !! Z.to_nat i = Some v.
Proof.
  unfold readSample. destruct (Z.ltb_spec i 0) as [Hi|Hi].
  - split; [discriminate | lia].
  - destruct (a !! Z.to_nat i) as [x|] eqn:E.
    + apply lookup_lt_Some in E as Hlt. split.
      * intros [= ->]. split; [lia | reflexivity].
      * intros [_ [= ->]]. reflexivity.
    + split; [discriminate | intros [_ [=]]].
Qed.

Lemma readSample_in_range (a : list Q) (i : Z) :
  (0 <= i < Z.of_nat (length a))%Z -> exists v, readSample a i = Ok v.
Proof.
  intros Hi. destruct (lookup_lt_is_Some_2 a (Z.to_nat i)) as [v Hv]; [lia|].
  exists v. apply readSample_Ok. auto.
Qed.

(** A checked accumulation answers [Ok] on the indices of the array and
    touches that index only. *)
Lemma addSample_in_range (a : list Q) (i : Z) (v : Q) :
  (0 <= i < Z.of_nat (length a))%Z ->
  exists a', addSample a i v = Ok a' /\
             length a' = length a /\
             forall j, j <> Z.to_nat i -> a' !! j = a !! j.
Proof.
  intros Hi. unfold addSample.
  destruct (readSample_in_range a i Hi) as (old & ->). simpl.
  eexists. split; [reflexivity|]. split.
  - apply length_insert.
  - intros j Hj. apply list_lookup_insert_ne. congruence.
Qed.

Lemma addSample_Ok (a a' : list Q) (i : Z) (v : Q) :
  addSample a i v = Ok a' -> (0 <= i < Z.of_nat (length a))%Z.
Proof.
  unfold addSample. destruct (readSample a i) as [old| | |] eqn:E; try discriminate.
  intros _. now apply readSample_Ok in E.
Qed.

Lemma hopSize_value : hopSize = 2048%Z.
Proof. reflexivity. Qed.

Section OneTurn.
Variable hanningWindow : Z -> Q.
Variables bufferLength newLength inPos outPos : Z.
Hypothesis inPos_range : (0 <= inPos < bufferLength - winSize)%Z.
Hypothesis outPos_range : (0 <= outPos < newLength - winSize)%Z.

(** Under the guard of the overlap-add loop, the window loop reads
    [inCh] and accumulates into [outCh] within bounds, and leaves the
    last output sample alone. *)
Lemma windowLoop_in_bounds (inCh : list Q) :
  Z.of_nat (length inCh) = bufferLength ->
  forall (n : nat) (i : Z) (outCh : list Q),
    (0 <= i)%Z -> (i + Z.of_nat n <= winSize)%Z ->
    channelKept newLength outCh ->
    exists outCh',
      windowLoop hanningWindow n i inCh outCh inPos outPos = Ok outCh' /\
      channelKept newLength outCh'.
Proof.
  intros Hin. induction n as [|n IH]; intros i outCh Hi Hn [Hlen Hlast]; simpl.
  - exists outCh. split; [reflexivity | split; assumption].
  - destruct (readSample_in_range inCh (inPos + i)) as (sample & ->); [lia|].
    simpl.
    destruct (addSample_in_range outCh (outPos + i) (sample * hanningWindow i))
      as (outCh' & -> & Hlen' & Hother); [lia|].
    simpl. apply IH; [lia | lia |]. split.
    + rewrite Hlen'. assumption.
    + intros Hpos. rewrite Hother; [auto | lia].
Qed.

(** The same for the loop over the channels. *)
Lemma channelLoop_in_bounds (inputData : list (list Q)) :
  Forall (fun ch : list Q => Z.of_nat (length ch) = bufferLength) inputData ->
  forall (n c : nat) (outputData : list (list Q)),
    (c + n)%nat = length inputData ->
    length outputData = length inputData ->
    Forall (channelKept newLength) outputData ->
    exists outputData',
      channelLoop hanningWindow n c inputData outputData inPos outPos
      = Ok outputData' /\
      length outputData' = length inputData /\
      Forall (channelKept newLength) outputData'.
Proof.
  intros Hin. induction n as [|n IH]; intros c outputData Hc Hlen Hout;
    cbn [channelLoop].
  - exists outputData. auto.
  - destruct (lookup_lt_is_Some_2 inputData c) as [inCh HinCh]; [lia|].
    destruct (lookup_lt_is_Some_2 outputData c) as [outCh HoutCh]; [lia|].
    rewrite HinCh, HoutCh.
    destruct (windowLoop_in_bounds inCh (Forall_lookup_1 _ _ _ _ Hin HinCh)
                (Z.to_nat winSize) 0 outCh) as (outCh' & -> & Hkept).
    { lia. }
    { rewrite Z2Nat.id; [lia | discriminate]. }
    { exact (Forall_lookup_1 _ _ _ _ Hout HoutCh). }
    cbn [bind]. apply IH.
    + lia.
    + rewrite length_insert. assumption.
    + apply Forall_insert; assumption.
Qed.

End OneTurn.

Lemma floor_nonneg (x : Q) : 0 <= x -> (0 <= Num.floor x)%Z.
Proof.
  intros Hx. change 0%Z with (Qfloor 0). now apply Qfloor_resp_le.
Qed.

Lemma anaHop_nonneg (speed : Q) : 0 < speed -> (0 <= anaHop speed)%Z.
Proof.
  intros Hs. apply floor_nonneg. unfold Num.ofZ.
  rewrite hopSize_value. apply Qmult_le_0_compat; [discriminate | lra].
Qed.

Lemma newLength_nonneg (buffer : AudioBuffer) (speed : Q) :
  (0 <= frames buffer)%Z -> 0 < speed -> (0 <= newLength buffer speed)%Z.
Proof.
  intros Hf Hs. apply floor_nonneg. apply Qle_shift_div_l; [assumption|].
  unfold Num.ofZ. rewrite Qmult_0_l. change 0 with (inject_Z 0).
  now rewrite <- Zle_Qle.
Qed.

(** Off the identity path and for a positive speed, [process] runs to its
    end without an access out of bounds; the buffer it returns has the
    sample rate and the channel count of the input and [newLength] samples
    in every channel, the last of them [0]. *)
Lemma process_runs (hanningWindow : Z -> Q) (buffer : AudioBuffer) (speed : Q) :
  wellFormed buffer -> 0 < speed -> 1 # 1000 <= Num.abs (speed - 1) ->
  exists out,
    process hanningWindow buffer speed = Ok out /\
    sampleRate out = sampleRate buffer /\
    frames out = newLength buffer speed /\
    numberOfChannels out = numberOfChannels buffer /\
    Forall (channelKept (newLength buffer speed)) (channelData out).
Proof.
  intros [Hframes Hchannels] Hspeed Hfar. unfold process.
  apply NumFacts.ltb_false in Hfar. rewrite Hfar.
  assert (Hnz : Qeq_bool speed 0 = false).
  { apply not_true_iff_false. rewrite Qeq_bool_iff. lra. }
  pose proof (newLength_nonneg buffer speed Hframes Hspeed) as HN.
  assert (HNb : (newLength buffer speed <? 0)%Z = false) by (apply Z.ltb_ge; exact HN).
  rewrite Hnz, HNb. cbn [orb].
  set (N := newLength buffer speed) in *.
  set (nc := numberOfChannels buffer).
  destruct (while_ends (olaGuard N (frames buffer))
              (olaStep hanningWindow nc (channelData buffer) (anaHop speed))
              (olaInv nc N)
              (fun s => Z.to_nat ((N - ola_outPos s) / hopSize)))
    with (fuel := Z.to_nat (N / hopSize))
         (s := mkOlaState 0 0 (replicate nc (replicate (Z.to_nat N) 0)))
    as (s' & Hw & (_ & _ & Hlen & Hkept) & _).
  - intros s (Hin & Hout & Hlen & Hkept) Hguard.
    unfold olaGuard in Hguard. apply andb_true_iff in Hguard as [Hg1 Hg2].
    apply Z.ltb_lt in Hg1, Hg2. unfold olaStep.
    destruct (channelLoop_in_bounds hanningWindow (frames buffer) N
                (ola_inPos s) (ola_outPos s) ltac:(lia) ltac:(lia)
                (channelData buffer) Hchannels nc 0 (ola_outputData s))
      as (out & -> & Hlen' & Hkept'); [reflexivity | exact Hlen | exact Hkept |].
    cbn [bind]. eexists. split; [reflexivity|]. split.
    + pose proof (anaHop_nonneg speed Hspeed).
      rewrite hopSize_value. unfold olaInv.
      cbn [ola_inPos ola_outPos ola_outputData].
      repeat split; try lia; assumption.
    + cbn [ola_inPos ola_outPos ola_outputData].
      rewrite hopSize_value. unfold winSize in Hg1.
      Z.div_mod_to_equations. lia.
  - unfold olaInv. cbn [ola_inPos ola_outPos ola_outputData].
    repeat split; try lia.
    + apply length_replicate.
    + apply Forall_replicate. split.
      * rewrite length_replicate. lia.
      * intros Hpos. apply lookup_replicate_2. lia.
  - cbn [ola_outPos]. rewrite Z.sub_0_r. lia.
  - rewrite Hw. cbn [bind]. eexists. split; [reflexivity|].
    cbn [sampleRate frames channelData]. unfold numberOfChannels.
    cbn [channelData]. repeat split; assumption.
Qed.

End InternalTimeStretcherFacts.

Module InternalTimeStretcherClaims.
Import WebAudio InternalTimeStretcher StretchSpec Examples InternalTimeStretcherFacts.

(** C6 (as amended).  For every well-formed buffer and every speed ratio
    [r > 0]: when [|r - 1| < 0.001] the input buffer is returned as it is;
    when [|r - 1| >= 0.001] a buffer is returned whose length, and the
    length of each of whose channels, is [floor(inputLength / r)]. *)
Theorem process_length (hanningWindow : Z -> Q) (buffer : AudioBuffer) (r : Q) :
  wellFormed buffer -> 0 < r ->
  (Num.abs (r - 1) < 1 # 1000 -> process hanningWindow buffer r = Ok buffer) /\
  (1 # 1000 <= Num.abs (r - 1) ->
   exists out,
     process hanningWindow buffer r = Ok out /\
     frames out = Qfloor (inject_Z (frames buffer) / r) /\
     Forall (fun ch : list Q =>
               Z.of_nat (length ch) = Qfloor (inject_Z (frames buffer) / r))
            (channelData out)).
Proof.
  intros Hwf Hr. split.
  - intros Hnear. unfold process.
    apply NumFacts.ltb_true in Hnear. now rewrite Hnear.
  - intros Hfar.
    destruct (process_runs hanningWindow buffer r Hwf Hr Hfar)
      as (out & Hout & _ & Hframes & _ & Hkept).
    exists out. split; [assumption|]. split; [assumption|].
    eapply Forall_impl; [exact Hkept|]. intros ch [Hlen _]. exact Hlen.
Qed.

Lemma threeSamples_wellFormed : wellFormed threeSamples.
Proof.
  split; [discriminate|]. repeat constructor.
Defined.

Lemma process_length_witness :
  process (fun _ => 1) threeSamples 1 = Ok threeSamples /\
  exists out,
    process (fun _ => 1) threeSamples 2 = Ok out /\
    frames out = Qfloor (inject_Z (frames threeSamples) / 2) /\
    Forall (fun ch : list Q =>
              Z.of_nat (length ch) = Qfloor (inject_Z (frames threeSamples) / 2))
           (channelData out).
Proof.
  split.
  - destruct (process_length (fun _ => 1) threeSamples 1) as [Hnear _].
    + exact threeSamples_wellFormed.
    + reflexivity.
    + apply Hnear. reflexivity.
  - destruct (process_length (fun _ => 1) threeSamples 2) as [_ Hfar].
    + exact threeSamples_wellFormed.
    + reflexivity.
    + apply Hfar. vm_compute. discriminate.
Defined.

(** C6 as stated fails: the ratio 1.0005 is not 1, yet the three samples
    come back as they are, and [floor(3 / 1.0005)] is 2. *)
Lemma process_length_near_one :
  exists out,
    process (fun _ => 1) threeSamples (10005 # 10000) = Ok out /\
    frames out = 3%Z /\
    Qfloor (inject_Z (frames threeSamples) / (10005 # 10000)) = 2%Z /\
    1 < 10005 # 10000.
Proof.
  eexists. split; [vm_compute; reflexivity|].
  repeat split.
Qed.

(** C10 (as amended).  For every well-formed buffer and every speed ratio
    [r > 0] with [|r - 1| >= 0.001], the overlap-add loop ends and every
    read of an input channel and every accumulation into an output channel
    is within bounds ([process] does not answer [OutOfBounds]); each output
    channel has the new length, and its last sample is left at zero. *)
Theorem process_in_bounds (hanningWindow : Z -> Q) (buffer : AudioBuffer) (r : Q) :
  wellFormed buffer -> 0 < r -> 1 # 1000 <= Num.abs (r - 1) ->
  exists out,
    process hanningWindow buffer r = Ok out /\
    Forall (fun ch : list Q =>
              Z.of_nat (length ch) = frames out /\
              ((0 < frames out)%Z -> ch !! Z.to_nat (frames out - 1) = Some 0))
           (channelData out).
Proof.
  intros Hwf Hr Hfar.
  destruct (process_runs hanningWindow buffer r Hwf Hr Hfar)
    as (out & Hout & _ & Hframes & _ & Hkept).
  exists out. split; [assumption|]. rewrite Hframes. exact Hkept.
Qed.

Lemma process_in_bounds_witness :
  exists out,
    process parabolicWindow ones 2 = Ok out /\
    Forall (fun ch : list Q =>
              Z.of_nat (length ch) = frames out /\
              ((0 < frames out)%Z -> ch !! Z.to_nat (frames out - 1) = Some 0))
           (channelData out).
Proof.
  apply (process_in_bounds parabolicWindow ones 2).
  - split; [discriminate|]. constructor; [|constructor].
    cbn [ones frames]. rewrite length_replicate. reflexivity.
  - reflexivity.
  - vm_compute. discriminate.
Defined.

(** What [process] leaves at index [j] of the only channel of [ones]. *)
Local Abbreviation stretchedOnes hanningWindow j :=
  (sampleOf (process hanningWindow ones 2) j).

Lemma sampleOf_Some (r : result AudioBuffer) (j : nat) (v : Q) :
  sampleOf r j = Some v ->
  exists out ch,
    r = Ok out /\ frames out = 4097%Z /\ channelData out = [ch] /\ ch !! j = Some v.
Proof.
  unfold sampleOf. destruct r as [out| | |]; try discriminate.
  destruct (channelData out) as [|ch [|]] eqn:Hch; try discriminate.
  destruct (Z.eqb_spec (frames out) 4097) as [Hf|]; try discriminate.
  intros Hv. exists out, ch. auto.
Qed.

Lemma stretchedOnes_2048_positive :
  match stretchedOnes parabolicWindow 2048 with
  | Some v => Num.ltb 0 v
  | None => false
  end = true.
Proof. vm_compute. reflexivity. Qed.

(** C10 as stated fails in its last part: at speed 2 the 8194 samples
    give 4097, the loop makes one turn with [outPos = 0] and accumulates
    into the indices 0 to 4095, so index 2048, which lies in the final
    window (indices 1 to 4096), is not left at zero.  The Hanning entry
    [0.5 * (1 - cos(2 pi 2048 / 4095))] is close to 1; a rational window of
    the same shape stands for the table here, and [process_tail_value]
    below gives the stored sample for any table. *)
Lemma process_tail_written :
  exists out ch v,
    process parabolicWindow ones 2 = Ok out /\
    frames out = 4097%Z /\
    channelData out = [ch] /\
    (frames out - winSize <= 2048 < frames out)%Z /\
    ch !! 2048%nat = Some v /\
    0 < v.
Proof.
  pose proof stretchedOnes_2048_positive as H.
  destruct (stretchedOnes parabolicWindow 2048) as [v|] eqn:E; [|discriminate].
  apply NumFacts.ltb_true in H.
  apply sampleOf_Some in E as (out & ch & Hout & Hf & Hch & Hv).
  exists out, ch, v. rewrite Hf. unfold winSize.
  split; [assumption|]. split; [reflexivity|]. split; [assumption|].
  split; [lia|]. split; assumption.
Qed.

Section AnyWindow.
Variable hanningWindow : Z -> Q.

(** Whatever the window table, that turn stores
    [1 * hanningWindow[2048]] at index 2048. *)
Lemma process_tail_value :
  stretchedOnes hanningWindow 2048 = Some (0 + 1 * hanningWindow 2048%Z).
Proof. vm_compute. reflexivity. Qed.

End AnyWindow.

End InternalTimeStretcherClaims.

(** ** The mix timeline *)

Module MixEngineFacts.
Import WebAudio Types MixEngine TimelineSpec.

Section Timeline.
Variable mathRandom : nat -> Q.
Variable style : MixStyle.

Lemma timelineEvent_startTime (i : nat) (pTrack : ProcessedTrack) (hasNext : bool)
      (cursor : Q) (calls : nat) :
  startTime (timelineEvent mathRandom style i pTrack hasNext cursor calls) = cursor.
Proof. reflexivity. Qed.

Lemma timelineLoop_linked (rest : list ProcessedTrack) :
  forall (i : nat) (cursor : Q) (calls : nat) (acc : list TimelineEvent),
    linked acc cursor rest ->
    linked (snd (timelineLoop mathRandom style i rest cursor calls acc))
           (fst (timelineLoop mathRandom style i rest cursor calls acc)) [].
Proof.
  induction rest as [|pTrack rest IH]; intros i cursor calls acc Hacc.
  - exact Hacc.
  - cbn [timelineLoop]. apply IH. destruct Hacc as [Hpairs Hcursor].
    set (hasNext := match rest with [] => false | _ => true end).
    set (e := timelineEvent mathRandom style i pTrack hasNext cursor calls).
    split.
    + intros k this next Hthis Hnext.
      apply lookup_snoc_Some in Hnext as [[Hk Hnext]|[Hk Hnext]].
      * rewrite lookup_app_l in Hthis by lia. eauto.
      * rewrite lookup_app_l in Hthis by lia.
        rewrite <- Hnext. change (startTime e) with cursor.
        apply Hcursor; [discriminate|].
        rewrite last_lookup. rewrite <- Hk. exact Hthis.
    + intros Hrest e' Hlast. rewrite last_snoc in Hlast.
      injection Hlast as Hlast. rewrite <- Hlast.
      destruct rest as [|p' rest']; [contradiction|].
      change (startTime e) with cursor. reflexivity.
Qed.

End Timeline.

Lemma validTracks_none (tracks : list TrackMetadata) :
  Forall (fun t => status t <> READY) tracks -> validTracks tracks = [].
Proof.
  induction 1 as [|t tracks Ht _ IH]; [reflexivity|].
  unfold validTracks in *. cbn [List.filter].
  destruct (status t); try contradiction; cbn; exact IH.
Qed.

End MixEngineFacts.

Module MixEngineClaims.
Import WebAudio Types MixEngine TimelineSpec Examples MixEngineFacts.

(** C7.  For every timeline that [renderMix] builds (from the tracks that
    are ready, decoded and stretched) and every event [this] that has a
    successor [next]: [next.startTime] equals [this.startTime] plus the
    event duration ([bufferOffsetEnd - bufferOffsetStart]) minus
    [this.overlapTime].  (It is the very number
    [this.startTime + (eventDuration - overlapTime)] that the loop
    computes.) *)
Theorem timeline_overlap (hanningWindow : Z -> Q) (mathRandom : nat -> Q)
        (style : MixStyle) (tracks : list TrackMetadata)
        (i : nat) (this next : TimelineEvent) :
  snd (buildTimeline mathRandom style (prepareTracks hanningWindow (validTracks tracks)))
  !! i = Some this ->
  snd (buildTimeline mathRandom style (prepareTracks hanningWindow (validTracks tracks)))
  !! S i = Some next ->
  startTime next
  == startTime this + (bufferOffsetEnd this - bufferOffsetStart this)
     - overlapTime this
  /\ startTime next = startTime this + (eventDuration this - overlapTime this).
Proof.
  intros Hthis Hnext. unfold buildTimeline in *.
  destruct (timelineLoop_linked mathRandom style
              (prepareTracks hanningWindow (validTracks tracks)) 0 0 0 [])
    as [Hpairs _].
  - split; [intros k a b Ha; discriminate Ha | intros _ e He; discriminate He].
  - rewrite (Hpairs i this next Hthis Hnext). unfold eventDuration.
    split; [ring | reflexivity].
Qed.

Lemma timeline_overlap_witness :
  exists this next,
    snd (buildTimeline (fun _ => 1 # 2) MILLS
           (prepareTracks (fun _ => 1) (validTracks demoTracks)))
    !! 0%nat = Some this /\
    snd (buildTimeline (fun _ => 1 # 2) MILLS
           (prepareTracks (fun _ => 1) (validTracks demoTracks)))
    !! 1%nat = Some next /\
    startTime next
    == startTime this + (bufferOffsetEnd this - bufferOffsetStart this)
       - overlapTime this
    /\ startTime next = startTime this + (eventDuration this - overlapTime this).
Proof.
  do 2 eexists. split; [reflexivity|]. split; [reflexivity|].
  apply (timeline_overlap (fun _ => 1) (fun _ => 1 # 2) MILLS demoTracks 0);
    reflexivity.
Defined.

(** C9.  If no track has reached [READY] (for example because every
    decode failed during analysis), [renderMix] throws the error "No valid
    tracks to mix." and returns no result, hence no WAV. *)
Theorem renderMix_no_ready_track (hanningWindow : Z -> Q) (mathRandom : nat -> Q)
        (startRendering : list TimelineEvent -> Q -> AudioBuffer)
        (tracks : list TrackMetadata) (config : MixConfiguration) :
  Forall (fun t => status t <> READY) tracks ->
  renderMix hanningWindow mathRandom startRendering tracks config
  = Throw NoValidTracks
  /\ forall r : MixResult,
      renderMix hanningWindow mathRandom startRendering tracks config <> Ok r.
Proof.
  intros Hnone.
  assert (H : renderMix hanningWindow mathRandom startRendering tracks config
              = Throw NoValidTracks).
  { unfold renderMix. rewrite (validTracks_none tracks Hnone). reflexivity. }
  split; [exact H|]. intros r. rewrite H. discriminate.
Qed.

Lemma renderMix_no_ready_track_witness :
  renderMix (fun _ => 1) (fun _ => 1 # 2) (fun _ _ => demoBuffer) failedTracks
            (mkMixConfiguration MILLS 125 32)
  = Throw NoValidTracks
  /\ forall r : MixResult,
      renderMix (fun _ => 1) (fun _ => 1 # 2) (fun _ _ => demoBuffer) failedTracks
                (mkMixConfiguration MILLS 125 32) <> Ok r.
Proof.
  apply (renderMix_no_ready_track (fun _ => 1) (fun _ => 1 # 2)
           (fun _ _ => demoBuffer) failedTracks (mkMixConfiguration MILLS 125 32)).
  repeat constructor; discriminate.
Defined.

End MixEngineClaims.

(** ** The WAV encoder *)

Module WaveFacts.
Import WebAudio Types MixEngine WaveSpec.

(** Storing [bs] at [n] makes the first [n + |bs|] bytes the first [n]
    bytes followed by [bs]. *)
Lemma take_inserts (v bs : list Z) (n : nat) :
  (n + length bs <= length v)%nat ->
  take (n + length bs) (list_inserts n bs v) = take n v ++ bs.
Proof.
  intros Hfit. apply list_eq. intros i.
  destruct (Nat.lt_ge_cases i n) as [Hi|Hi].
  - rewrite lookup_take_lt by lia. rewrite list_lookup_inserts_lt by lia.
    rewrite lookup_app_l by (rewrite length_take; lia).
    now rewrite lookup_take_lt by lia.
  - destruct (Nat.lt_ge_cases i (n + length bs)) as [Hi'|Hi'].
    + rewrite lookup_take_lt by lia. rewrite list_lookup_inserts by lia.
      rewrite lookup_app_r by (rewrite length_take; lia).
      rewrite length_take. f_equal. lia.
    + rewrite lookup_take_ge by lia. symmetry. apply lookup_ge_None.
      rewrite length_app, length_take. lia.
Qed.

Lemma length_littleEndian (n : nat) (data : Z) : length (littleEndian n data) = n.
Proof.
  revert data. induction n as [|n IH]; intros data; cbn; [reflexivity|].
  now rewrite IH.
Qed.

Section Writing.
(** The size of the [ArrayBuffer]. *)
Variable total : nat.

(** A store at [pos] that fits appends to what is written. *)
Lemma store_written (w : Writer) (bytes bs : list Z) :
  written total w bytes -> (length bytes + length bs <= total)%nat ->
  exists v,
    store (view w) (pos w) bs = Ok v /\
    written total (mkWriter v (pos w + Z.of_nat (length bs))) (bytes ++ bs).
Proof.
  intros (Hlen & Hpos & Htake) Hfit. unfold store.
  replace ((pos w <? 0)%Z || (Z.of_nat (length (view w)) <? pos w + Z.of_nat (length bs))%Z)
    with false.
  2:{ symmetry. apply orb_false_iff. split; [apply Z.ltb_ge | apply Z.ltb_ge]; lia. }
  eexists. split; [reflexivity|]. unfold written. cbn [view pos].
  rewrite length_inserts, length_app, Hpos, Nat2Z.id.
  split; [assumption|]. split; [lia|].
  rewrite take_inserts by lia. now rewrite Htake.
Qed.

Lemma setUint32_written (data : Z) (w : Writer) (bytes : list Z) :
  written total w bytes -> (length bytes + 4 <= total)%nat ->
  exists w', setUint32 data w = Ok w' /\ written total w' (bytes ++ littleEndian 4 data).
Proof.
  intros Hw Hfit. unfold setUint32.
  destruct (store_written w bytes (littleEndian 4 data) Hw) as (v & -> & Hv).
  - rewrite length_littleEndian. lia.
  - cbn [bind]. eexists. split; [reflexivity|]. exact Hv.
Qed.

Lemma setUint16_written (data : Z) (w : Writer) (bytes : list Z) :
  written total w bytes -> (length bytes + 2 <= total)%nat ->
  exists w', setUint16 data w = Ok w' /\ written total w' (bytes ++ littleEndian 2 data).
Proof.
  intros Hw Hfit. unfold setUint16.
  destruct (store_written w bytes (littleEndian 2 data) Hw) as (v & -> & Hv).
  - rewrite length_littleEndian. lia.
  - cbn [bind]. eexists. split; [reflexivity|]. exact Hv.
Qed.

Lemma setInt16_written (sample : Z) (w : Writer) (bytes : list Z) :
  written total w bytes -> (length bytes + 2 <= total)%nat ->
  exists w', setInt16 sample w = Ok w' /\ written total w' (bytes ++ littleEndian 2 sample).
Proof.
  intros Hw Hfit. unfold setInt16.
  destruct (store_written w bytes (littleEndian 2 sample) Hw) as (v & -> & Hv).
  - rewrite length_littleEndian. lia.
  - cbn [bind]. eexists. split; [reflexivity|]. exact Hv.
Qed.

Lemma length_headerBytes (numOfChan sampleRate length : Z) :
  List.length (headerBytes numOfChan sampleRate length) = 44%nat.
Proof. reflexivity. Qed.

Lemma writeHeader_written (numOfChan sampleRate length : Z) (w : Writer) :
  written total w [] -> (44 <= total)%nat ->
  exists w',
    writeHeader numOfChan sampleRate length w = Ok w' /\
    written total w' (headerBytes numOfChan sampleRate length).
Proof.
  intros Hw Hfit. unfold writeHeader.
  repeat match goal with
  | Hb : written total ?w0 ?bytes |- context [bind (setUint32 ?d ?w0) _] =>
      let w1 := fresh "w" in
      let H1 := fresh "Hw" in
      destruct (setUint32_written d w0 bytes Hb) as (w1 & -> & H1);
      [cbn; lia | cbn [bind]; clear Hb]
  | Hb : written total ?w0 ?bytes |- context [bind (setUint16 ?d ?w0) _] =>
      let w1 := fresh "w" in
      let H1 := fresh "Hw" in
      destruct (setUint16_written d w0 bytes Hb) as (w1 & -> & H1);
      [cbn; lia | cbn [bind]; clear Hb]
  end.
  match goal with
  | Hb : written total ?w0 ?bytes |- _ =>
      destruct (setUint32_written (length - pos w0 - 4) w0 bytes Hb)
        as (w' & Hset & Hw'); [cbn; lia|];
      exists w'; split; [exact Hset|];
      destruct Hb as (_ & Hpos & _); rewrite Hpos in Hw'
  end.
  exact Hw'.
Qed.

Lemma length_frameBytes (channels : list (list Q)) (offset : Z) (i n : nat) :
  length (frameBytes channels offset i n) = (2 * n)%nat.
Proof.
  unfold frameBytes. revert i. induction n as [|n IH]; intros i; cbn; [reflexivity|].
  rewrite IH. lia.
Qed.

Lemma dataBytes_S (channels : list (list Q)) (offset : Z) (k : nat) :
  dataBytes channels offset (S k)
  = dataBytes channels offset k
    ++ frameBytes channels (offset + Z.of_nat k) 0 (length channels).
Proof.
  unfold dataBytes. rewrite seq_S, flat_map_app. cbn [flat_map Nat.add].
  now rewrite app_nil_r.
Qed.

Lemma length_dataBytes (channels : list (list Q)) (offset : Z) (k : nat) :
  length (dataBytes channels offset k) = (2 * length channels * k)%nat.
Proof.
  induction k as [|k IH]; [cbn; lia|].
  rewrite dataBytes_S, length_app, IH, length_frameBytes. lia.
Qed.

Lemma frameLoop_written (channels : list (list Q)) (offset : Z) (n : nat) :
  forall (i : nat) (w : Writer) (bytes : list Z),
    written total w bytes -> (length bytes + 2 * n <= total)%nat ->
    exists w',
      frameLoop n i channels offset w = Ok w' /\
      written total w' (bytes ++ frameBytes channels offset i n).
Proof.
  induction n as [|n IH]; intros i w bytes Hw Hfit; cbn [frameLoop].
  - exists w. split; [reflexivity|]. unfold frameBytes. cbn. now rewrite app_nil_r.
  - destruct (setInt16_written (encodeSample (sampleAt channels i offset)) w bytes Hw)
      as (w1 & -> & Hw1); [lia|].
    cbn [bind].
    destruct (IH (S i) w1 _ Hw1) as (w' & Hloop & Hw').
    + rewrite length_app, length_littleEndian. lia.
    + exists w'. split; [exact Hloop|].
      unfold frameBytes in *. cbn [seq flat_map]. now rewrite app_assoc.
Qed.

End Writing.

(** [bufferToWave] returns the header followed by [len] frames of 16-bit
    samples, for every buffer with a channel and every [len >= 0]. *)
Lemma bufferToWave_bytes (abuffer : AudioBuffer) (offset len : Z) :
  (0 <= len)%Z -> channelData abuffer <> [] ->
  bufferToWave abuffer offset len
  = Ok (headerBytes (Z.of_nat (numberOfChannels abuffer)) (sampleRate abuffer)
                    (len * Z.of_nat (numberOfChannels abuffer) * 2 + 44)
        ++ dataBytes (channelData abuffer) offset (Z.to_nat len)).
Proof.
  intros Hlen Hch. unfold bufferToWave.
  set (nc := numberOfChannels abuffer).
  set (size := (len * Z.of_nat nc * 2 + 44)%Z).
  assert (Hnc : (0 < nc)%nat).
  { unfold nc, numberOfChannels. destruct (channelData abuffer); [contradiction|cbn; lia]. }
  assert (Hsize : (44 <= size)%Z) by (unfold size; nia).
  replace (size <? 0)%Z with false by (symmetry; apply Z.ltb_ge; lia).
  set (total := Z.to_nat size).
  destruct (writeHeader_written total (Z.of_nat nc) (sampleRate abuffer) size
              (mkWriter (replicate total 0%Z) 0)) as (w & -> & Hw).
  { split; [apply length_replicate | split; reflexivity]. }
  { lia. }
  cbn [bind].
  set (header := headerBytes (Z.of_nat nc) (sampleRate abuffer) size) in *.
  assert (Hheader : length header = 44%nat) by reflexivity.
  set (channels := channelData abuffer).
  assert (Hchannels : length channels = nc) by reflexivity.
  assert (Hwritten : forall k, length (header ++ dataBytes channels offset k)
                               = (44 + 2 * nc * k)%nat).
  { intros k. now rewrite length_app, length_dataBytes, Hheader, Hchannels. }
  destruct (while_ends
              (fun s : Writer * Z => (pos (fst s) <? size)%Z)
              (fun s => let! w' := frameLoop nc 0 channels (snd s) (fst s) in
                        Ok (w', (snd s + 1)%Z))
              (fun s => exists k : nat,
                   (Z.of_nat k <= len)%Z /\ snd s = (offset + Z.of_nat k)%Z /\
                   written total (fst s) (header ++ dataBytes channels offset k))
              (fun s => Z.to_nat (len - (snd s - offset))))
    with (fuel := Z.to_nat len) (s := (w, offset))
    as (s' & -> & (k & Hk & Hoff & Hs') & Hguard).
  - intros [w0 off0] (k & Hk & Hoff & Hw0) Hguard. cbn [fst snd] in *.
    apply Z.ltb_lt in Hguard.
    assert (Hpos : pos w0 = Z.of_nat (44 + 2 * nc * k)).
    { destruct Hw0 as (_ & -> & _). now rewrite Hwritten. }
    assert (Hlt : (Z.of_nat k < len)%Z) by (unfold size in Hguard; nia).
    destruct (frameLoop_written total channels off0 nc 0 w0 _ Hw0) as (w1 & -> & Hw1).
    { rewrite Hwritten. unfold total, size. nia. }
    cbn [bind]. eexists. split; [reflexivity|]. cbn [fst snd]. split.
    + exists (S k). split; [lia|]. split; [lia|].
      rewrite dataBytes_S, app_assoc, Hchannels, <- Hoff. exact Hw1.
    + lia.
  - exists 0%nat. cbn [fst snd]. split; [lia|]. split; [lia|].
    unfold dataBytes. cbn [seq flat_map]. rewrite app_nil_r. exact Hw.
  - cbn [snd]. lia.
  - cbn [bind]. apply Z.ltb_ge in Hguard.
    destruct Hs' as (Hview & Hpos & Htake).
    rewrite Hpos, Hwritten in Hguard.
    assert (Hk' : k = Z.to_nat len) by (unfold size in Hguard; nia).
    f_equal. rewrite <- Hk'. rewrite <- Htake. symmetry. apply take_ge.
    rewrite Hview, Hwritten. unfold total, size. nia.
Qed.

End WaveFacts.

Module WaveClaims.
Import WebAudio Types MixEngine WaveSpec Examples WaveFacts.

(** The header fields of a stereo 44100 Hz file of 176444 bytes, whatever
    the samples that follow. *)
Lemma stereo_header_fields (data : list Z) :
  take 4 (headerBytes 2 44100 176444 ++ data) = asciiBytes "RIFF" /\
  take 4 (drop 8 (headerBytes 2 44100 176444 ++ data)) = asciiBytes "WAVE" /\
  getUint32 (headerBytes 2 44100 176444 ++ data) 28 = Some 176400%Z.
Proof. repeat split. Qed.

(** C8.  Encoding a 1-second silent stereo buffer at 44100 Hz yields
    176,444 bytes whose first four are "RIFF", whose bytes 8 to 11 are
    "WAVE", and whose byte-rate field (offset 28) holds 176400. *)
Theorem wav_of_silent_second :
  exists bytes,
    bufferToWave silentSecond 0 (frames silentSecond) = Ok bytes /\
    Z.of_nat (length bytes) = 176444%Z /\
    take 4 bytes = asciiBytes "RIFF" /\
    take 4 (drop 8 bytes) = asciiBytes "WAVE" /\
    getUint32 bytes 28 = Some 176400%Z.
Proof.
  eexists. split.
  - apply bufferToWave_bytes; [discriminate | discriminate].
  - split.
    + rewrite length_app, length_headerBytes, length_dataBytes.
      change (length (channelData silentSecond)) with 2%nat.
      change (frames silentSecond) with 44100%Z. lia.
    + apply stereo_header_fields.
Qed.

Lemma trunc_between (a b : Z) (y : Q) :
  inject_Z a <= y -> y <= inject_Z b -> (a <= Num.trunc y <= b)%Z.
Proof.
  intros Ha Hb. unfold Num.trunc. destruct (Num.ltb y 0).
  - split.
    + rewrite <- (Qceiling_Z a). now apply Qceiling_resp_le.
    + rewrite <- (Qceiling_Z b). now apply Qceiling_resp_le.
  - split.
    + rewrite <- (Qfloor_Z a). now apply Qfloor_resp_le.
    + rewrite <- (Qfloor_Z b). now apply Qfloor_resp_le.
Qed.

Lemma toInt32_small (y : Q) :
  (- 2147483648 <= Num.trunc y < 2147483648)%Z -> Num.toInt32 y = Num.trunc y.
Proof.
  intros H. unfold Num.toInt32. rewrite Z.mod_small; lia.
Qed.

Lemma clamp_range (x : Q) : - (1) <= clamp x /\ clamp x <= 1.
Proof.
  unfold clamp, Num.max, Num.min. cmp_cases; split; lra.
Qed.

(** The sample statements as they are written.  Every sample is first
    clamped to [-1, 1]; the guard [0.5 + sample < 0] then selects the
    factor 32768 for a clamped value below -0.5 and the factor 32767 for
    every other one; the product is truncated toward zero into a signed
    16-bit value, stored least significant byte first. *)
Lemma sample_scaling (x : Q) :
  - (1) <= clamp x /\ clamp x <= 1 /\
  (clamp x < - (1 # 2) -> toPCM16 (clamp x) = Num.trunc (clamp x * 32768)) /\
  (- (1 # 2) <= clamp x -> toPCM16 (clamp x) = Num.trunc (clamp x * 32767)) /\
  (- 32768 <= toPCM16 (clamp x) <= 32767)%Z /\
  encodeSample (Some x) = toPCM16 (clamp x) /\
  littleEndian 2 (toPCM16 (clamp x))
  = [(toPCM16 (clamp x) mod 256)%Z; (toPCM16 (clamp x) / 256 mod 256)%Z].
Proof.
  destruct (clamp_range x) as [Hlo Hhi]. set (s := clamp x) in *.
  assert (Hneg : s < - (1 # 2) ->
                 toPCM16 s = Num.trunc (s * 32768) /\
                 (- 32768 <= Num.trunc (s * 32768) <= 32767)%Z).
  { intros Hs. unfold toPCM16.
    replace (Num.ltb ((1 # 2) + s) 0) with true
      by (symmetry; apply NumFacts.ltb_true; lra).
    assert (Hb : (- 32768 <= Num.trunc (s * 32768) <= 0)%Z).
    { apply trunc_between; [change (inject_Z (-32768)) with (-32768) |
                            change (inject_Z 0) with 0]; lra. }
    split; [apply toInt32_small|]; lia. }
  assert (Hpos : - (1 # 2) <= s ->
                 toPCM16 s = Num.trunc (s * 32767) /\
                 (- 32768 <= Num.trunc (s * 32767) <= 32767)%Z).
  { intros Hs. unfold toPCM16.
    replace (Num.ltb ((1 # 2) + s) 0) with false
      by (symmetry; apply NumFacts.ltb_false; lra).
    assert (Hb : (- 16384 <= Num.trunc (s * 32767) <= 32767)%Z).
    { apply trunc_between; [change (inject_Z (-16384)) with (-16384) |
                            change (inject_Z 32767) with 32767]; lra. }
    split; [apply toInt32_small|]; lia. }
  repeat split; try assumption.
  - intros Hs. now apply Hneg.
  - intros Hs. now apply Hpos.
  - destruct (Qlt_le_dec s (- (1 # 2))) as [Hs|Hs].
    + destruct (Hneg Hs) as [-> ?]. lia.
    + destruct (Hpos Hs) as [-> ?]. lia.
  - destruct (Qlt_le_dec s (- (1 # 2))) as [Hs|Hs].
    + destruct (Hneg Hs) as [-> ?]. lia.
    + destruct (Hpos Hs) as [-> ?]. lia.
Qed.

(** C1.  A negative sample that is not scaled by 32768.  The sample
    statement reads [(0.5 + sample < 0 ? sample * 32768 : sample * 32767)|0],
    so the test is [0.5 + sample < 0] and not [sample < 0]: the clamped
    sample -0.25 is negative, yet it is scaled by 32767 and written as
    -8191 (bytes 01 E0), where -0.25 * 32768 is -8192. *)
Theorem sample_encoding_quarter :
  clamp (- (1 # 4)) == - (1 # 4) /\
  clamp (- (1 # 4)) < 0 /\
  toPCM16 (clamp (- (1 # 4))) = (- 8191)%Z /\
  clamp (- (1 # 4)) * 32768 == - 8192 /\
  Num.trunc (clamp (- (1 # 4)) * 32767) = (- 8191)%Z /\
  bufferToWave (mkAudioBuffer 44100 1 [[- (1 # 4)]]) 0 1
  = Ok (headerBytes 1 44100 46 ++ [1; 224]%Z).
Proof.
  repeat split.
Qed.

End WaveClaims.

(** ** Tempo post-processing *)

Module TempoClaims.
Import AnalysisEngine TempoSpec.






End TempoClaims.

(** ** Cue points *)

Module CueFacts.
Import Types AnalysisEngine.

(** Started from the target itself, the search for the nearest downbeat
    returns the target: no downbeat is strictly nearer than distance 0. *)
Lemma nearest_self (downbeats : list Q) (target : Q) :
  nearest downbeats target target = target.
Proof.
  unfold nearest. induction downbeats as [|d ds IH]; [reflexivity|].
  cbn [fold_left].
  replace (Num.ltb (Num.abs (d - target)) (Num.abs (target - target))) with false.
  - exact IH.
  - symmetry. apply NumFacts.ltb_false. unfold Num.abs. cmp_cases; lra.
Qed.

End CueFacts.

Module CueClaims.
Import Types AnalysisEngine CueSpec Examples CueFacts.

(** C4 (as amended).  For every duration > 0, every beat grid with a
    positive tempo whose first downbeat (if any) lies in [0, duration), and
    every energy profile that is non-empty (or any profile when duration is
    at least 20), the cue points returned by [detectCuePoints] satisfy
    [0 <= start < duration] and
    [0 <= loopRegion.start < loopRegion.end = end <= duration]; moreover
    [start <= loopRegion.start] unless the loop start was reset to
    [max(0, duration - 30)]. *)
Theorem cue_points_order (beatGrid : BeatParser.BeatGrid) (energy : EnergyProfile)
        (duration : Q) :
  0 < duration ->
  0 < BeatParser.bpm beatGrid ->
  (forall d, head (BeatParser.downbeats beatGrid) = Some d -> 0 <= d /\ d < duration) ->
  low energy <> [] \/ 20 <= duration ->
  cuesInOrder duration (detectCuePoints beatGrid energy duration).
Proof.
  intros Hd Hbpm Hfirst Hnonempty. unfold cuesInOrder, detectCuePoints.
  destruct (length (low energy) =? 0)%nat eqn:Hsamples.
  - apply Nat.eqb_eq in Hsamples. destruct Hnonempty as [Hne|H20].
    + destruct (low energy); [contradiction | discriminate].
    + cbn. repeat split; try lra.
  - clear Hsamples Hnonempty.
    destruct (mainLoop _ _ _ _ _) as [mainSum mainCount].
    rewrite nearest_self.
    match goal with |- context [nearest ?ds ?t ?i] => generalize (nearest ds t i) end.
    intros nearestDownbeat.
    assert (Hspb : 0 < 60 / BeatParser.bpm beatGrid) by (apply Qlt_shift_div_l; lra).
    revert Hspb. generalize (60 / BeatParser.bpm beatGrid). intros secondsPerBeat Hspb.
    assert (Hstart : 0 <= match BeatParser.downbeats beatGrid with d :: _ => d | [] => 0 end
                     /\ match BeatParser.downbeats beatGrid with d :: _ => d | [] => 0 end
                        < duration).
    { destruct (BeatParser.downbeats beatGrid) as [|d ds]; [lra|].
      apply Hfirst. reflexivity. }
    revert Hstart.
    generalize (match BeatParser.downbeats beatGrid with d :: _ => d | [] => 0 end).
    intros startPoint [Hs0 Hs1].
    cbn [cueStart cueEnd loopRegion loopStart loopEnd].
    unfold Num.max, Num.abs. cmp_cases.
    all: repeat match goal with |- _ /\ _ => split end;
      try reflexivity; try lra; first [left; lra | right; lra].
Qed.

Lemma cue_points_order_witness :
  cuesInOrder 40 (detectCuePoints (gridAt120 40) flatEnergy 40).
Proof.
  apply (cue_points_order (gridAt120 40) flatEnergy 40).
  - reflexivity.
  - reflexivity.
  - intros d Hd. vm_compute in Hd. injection Hd as <-. split; [discriminate | reflexivity].
  - left. discriminate.
Defined.

(** C4 as stated fails: for a track of 8 seconds at 120 BPM with a flat
    energy profile the outro falls back to 90% of the duration (7.2), the
    four-bar loop would start at -0.8 and is reset to [max(0, 8 - 30) = 0],
    which is the start point itself: [start < loopRegion.start] is false. *)
Lemma cue_points_short_track :
  BeatParser.getLockedGrid3 [] 120 8 = Ok (gridAt120 8) /\
  cueStart (detectCuePoints (gridAt120 8) flatEnergy 8) == 0 /\
  loopStart (loopRegion (detectCuePoints (gridAt120 8) flatEnergy 8)) == 0 /\
  cueEnd (detectCuePoints (gridAt120 8) flatEnergy 8) == 72 # 10 /\
  loopStart (loopRegion (detectCuePoints (gridAt120 8) flatEnergy 8))
  <= cueStart (detectCuePoints (gridAt120 8) flatEnergy 8).
Proof.
  split; [vm_compute; reflexivity|].
  repeat split; vm_compute; try reflexivity; discriminate.
Qed.

End CueClaims.

(** * Further properties of the code *)

(** ** The beat grid, in full *)

Module GridFacts.
Import BeatParser BeatParserFacts GridSpec.

Lemma gridPoint_S (t iv : Q) (k : nat) :
  gridPoint t iv (S k) == gridPoint t iv k + iv.
Proof.
  unfold gridPoint, Num.ofNat. rewrite Nat2Z.inj_succ. unfold Z.succ.
  rewrite inject_Z_plus. ring.
Qed.

(** A list that holds every fourth element of another has a quarter of
    its length, rounded up. *)
Lemma every_fourth_length {A : Type} (ds l : list A) :
  (forall j, ds !! j = l !! (4 * j)%nat) ->
  (length l <= 4 * length ds < length l + 4)%nat.
Proof.
  intros H. split.
  - pose proof (H (length ds)) as E.
    rewrite (proj2 (lookup_ge_None ds (length ds))) in E by lia.
    symmetry in E. apply lookup_ge_None in E. lia.
  - destruct ds as [|d ds'] eqn:Hds; [cbn; lia|]. rewrite <- Hds in *.
    assert (Hpos : (0 < length ds)%nat) by (rewrite Hds; cbn; lia).
    destruct (lookup_lt_is_Some_2 ds (length ds - 1)) as [x Hx]; [lia|].
    rewrite H in Hx. apply lookup_lt_Some in Hx. lia.
Qed.

(** The grid loop ends and keeps [gridInv]; at the end [t] has reached
    the duration. *)
Lemma gridLoop_regular (iv dur t0 : Q) :
  0 < iv ->
  exists s, gridLoop iv dur (mkGridState t0 0 [] []) = Ok s /\
            gridInv t0 iv dur s /\ dur <= gs_t s.
Proof.
  intros Hiv. unfold gridLoop.
  destruct (while_ends (fun s => Num.ltb (gs_t s) dur) (fun s => Ok (gridStep iv s))
              (gridInv t0 iv dur)
              (fun s => turns (dur - gs_t s) iv)) with
    (fuel := turns (dur - gs_t (mkGridState t0 0 [] [])) iv)
    (s := mkGridState t0 0 [] []) as (s' & Hw & Hinv & Hc); auto.
  - intros [t cnt l ds] (Hcnt & Ht & Hbeats & Hstep & Hlast & Hdown) Hc.
    cbn [gs_t gs_beatCount gs_lockedBeats gs_downbeats] in *.
    apply NumFacts.ltb_true in Hc.
    eexists. split; [reflexivity|]. split.
    + unfold gridInv, gridStep. cbn [gs_t gs_beatCount gs_lockedBeats gs_downbeats].
      assert (Hn : length (l ++ [t]) = S (length l)) by (rewrite length_app; cbn; lia).
      split; [rewrite Hn; lia|].
      split; [rewrite Hn, gridPoint_S, Ht; reflexivity|].
      split; [|split; [|split]].
      * intros k b Hk. apply lookup_snoc_Some in Hk as [[Hlt Hk]|[Hk <-]].
        -- now apply Hbeats.
        -- rewrite Hk. split; [exact Ht | exact Hc].
      * intros k b b' Hk Hk'.
        apply lookup_snoc_Some in Hk' as [[Hlt Hk']|[Hk' <-]].
        -- rewrite lookup_app_l in Hk by lia. eauto.
        -- rewrite lookup_app_l in Hk by lia.
           apply Hlast. rewrite last_lookup. rewrite <- Hk'. exact Hk.
      * intros b Hb. rewrite last_snoc in Hb. now injection Hb as <-.
      * pose proof (every_fourth_length _ _ Hdown) as Hlen.
        rewrite Hcnt.
        destruct (Z.eqb_spec (Z.of_nat (length l) mod 4) 0) as [Hmod|Hmod]; intros j.
        -- assert (Hds : (length l = 4 * length ds)%nat).
           { apply Z.mod_divide in Hmod; [|lia]. destruct Hmod as [q Hq]. lia. }
           destruct (Nat.lt_trichotomy j (length ds)) as [Hj|[Hj|Hj]].
           ++ rewrite !lookup_app_l by lia. apply Hdown.
           ++ rewrite !lookup_app_r by lia.
              replace (j - length ds)%nat with 0%nat by lia.
              replace (4 * j - length l)%nat with 0%nat by lia. reflexivity.
           ++ rewrite (proj2 (lookup_ge_None _ _)) by (rewrite length_app; cbn; lia).
              symmetry. apply lookup_ge_None. rewrite Hn. lia.
        -- destruct (Nat.lt_ge_cases (4 * j) (length l)) as [Hj|Hj].
           ++ rewrite lookup_app_l by lia. apply Hdown.
           ++ assert (Hne : (4 * j)%nat <> length l).
              { intros E. apply Hmod. rewrite <- E.
                rewrite Nat2Z.inj_mul, Z.mul_comm. apply Z.mod_mul. lia. }
              rewrite Hdown.
              rewrite (proj2 (lookup_ge_None l _)) by lia.
              symmetry. apply lookup_ge_None. rewrite Hn. lia.
    + cbn [gridStep gs_t]. apply turns_lt; lra.
  - unfold gridInv. cbn [gs_t gs_beatCount gs_lockedBeats gs_downbeats length].
    split; [reflexivity|]. split; [unfold gridPoint, Num.ofNat; cbn; ring|].
    split; [intros k b Hk; discriminate Hk|].
    split; [intros k b b' Hk; discriminate Hk|].
    split; [intros b Hb; discriminate Hb|]. intros j. reflexivity.
  - exists s'. split; [assumption|]. split; [assumption|].
    now apply NumFacts.ltb_false in Hc.
Qed.

(** The two normalisation loops move the phase by whole intervals. *)
Lemma raisePhase_congruent (iv t : Q) :
  0 < iv ->
  exists t', raisePhase iv t = Ok t' /\ 0 <= t' /\
             exists n : Z, t' == t + inject_Z n * iv.
Proof.
  intros Hiv. unfold raisePhase.
  destruct (while_ends (fun t => Num.ltb t 0) (fun t => Ok (t + iv))
              (fun s => exists n : Z, s == t + inject_Z n * iv)
              (fun t => turns (- t) iv)) with
    (fuel := turns (- t) iv) (s := t) as (t' & Hw & Hn & Hc); auto.
  - intros s (n & Hn) Hs. apply NumFacts.ltb_true in Hs.
    eexists. split; [reflexivity|]. split.
    + exists (n + 1)%Z. rewrite inject_Z_plus, Hn. change (inject_Z 1) with 1. ring.
    + apply turns_lt; lra.
  - exists 0%Z. change (inject_Z 0) with 0. ring.
  - exists t'. split; [assumption|]. split; [|assumption].
    now apply NumFacts.ltb_false in Hc.
Qed.

Lemma lowerPhase_congruent (iv t : Q) :
  0 < iv -> 0 <= t ->
  exists t', lowerPhase iv t = Ok t' /\ 0 <= t' /\ t' <= iv /\
             exists n : Z, t' == t + inject_Z n * iv.
Proof.
  intros Hiv Ht. unfold lowerPhase.
  destruct (while_ends (fun t => Num.gtb t iv) (fun t => Ok (t - iv))
              (fun s => 0 <= s /\ exists n : Z, s == t + inject_Z n * iv)
              (fun t => turns t iv)) with
    (fuel := turns t iv) (s := t) as (t' & Hw & (Hpos & Hn) & Hc); auto.
  - intros s (Hs0 & n & Hn) Hs. apply NumFacts.gtb_true in Hs.
    eexists. split; [reflexivity|]. split; [split; [lra|]|].
    + exists (n - 1)%Z. unfold Z.sub. rewrite inject_Z_plus, inject_Z_opp, Hn.
      change (inject_Z 1) with 1. ring.
    + apply turns_lt; lra.
  - split; [assumption|]. exists 0%Z. change (inject_Z 0) with 0. ring.
  - exists t'. split; [assumption|]. split; [assumption|].
    split; [|assumption]. now apply NumFacts.gtb_false in Hc.
Qed.

(** The normalised phase lies in [0, idealInterval] and differs from the
    phase it was computed from by a whole number of intervals. *)
Lemma startPhase_congruent (iv a : Q) :
  0 < iv ->
  exists t, startPhase iv a = Ok t /\ 0 <= t /\ t <= iv /\
            exists n : Z, t == a + inject_Z n * iv.
Proof.
  intros Hiv. unfold startPhase.
  destruct (raisePhase_congruent iv a Hiv) as (t1 & -> & H1 & n1 & Hn1). cbn [bind].
  destruct (lowerPhase_congruent iv t1 Hiv H1) as (t2 & Ht2 & H0 & Hle & n2 & Hn2).
  exists t2. split; [assumption|]. split; [assumption|]. split; [assumption|].
  exists (n1 + n2)%Z. rewrite inject_Z_plus, Hn2, Hn1. ring.
Qed.

(** The ceiling of a number in the interval from [n - 1] (excluded) to [n]. *)
Lemma Qceiling_unique (x : Q) (n : Z) :
  inject_Z n - 1 < x -> x <= inject_Z n -> Qceiling x = n.
Proof.
  intros Hlo Hhi.
  pose proof (Qle_ceiling x) as H1. pose proof (Qceiling_lt x) as H2.
  unfold Z.sub in H2. rewrite inject_Z_plus, inject_Z_opp in H2.
  change (inject_Z 1) with 1 in H2.
  assert (Ha : inject_Z (Qceiling x) < inject_Z (n + 1)).
  { rewrite inject_Z_plus. change (inject_Z 1) with 1. lra. }
  assert (Hb : inject_Z n < inject_Z (Qceiling x + 1)).
  { rewrite inject_Z_plus. change (inject_Z 1) with 1. lra. }
  rewrite <- Zlt_Qlt in Ha, Hb. lia.
Qed.

Lemma ofNat_nonneg (k : nat) : 0 <= Num.ofNat k.
Proof.
  unfold Num.ofNat. change 0 with (inject_Z 0). rewrite <- Zle_Qle. lia.
Qed.

Lemma ofNat_S (k : nat) : Num.ofNat (S k) == Num.ofNat k + 1.
Proof.
  unfold Num.ofNat. rewrite Nat2Z.inj_succ. unfold Z.succ.
  rewrite inject_Z_plus. reflexivity.
Qed.

(** [getLockedGrid] as the composition of its three steps. *)
Lemma getLockedGrid_steps (rawBeats : list Q) (bpm dur forced : Q) :
  0 < bpm ->
  exists t s,
    startPhase (60 / bpm) (averageOffset rawBeats (60 / bpm) forced) = Ok t /\
    0 <= t /\ t <= 60 / bpm /\
    (exists n : Z, t == averageOffset rawBeats (60 / bpm) forced
                        + inject_Z n * (60 / bpm)) /\
    gridInv t (60 / bpm) dur s /\ dur <= gs_t s /\
    getLockedGrid rawBeats bpm dur forced
    = Ok (mkBeatGrid bpm (averageOffset rawBeats (60 / bpm) forced * 1000)
                     (gs_lockedBeats s) (gs_downbeats s)).
Proof.
  intros Hbpm.
  assert (Hiv : 0 < 60 / bpm) by (apply Qlt_shift_div_l; lra).
  unfold getLockedGrid.
  destruct (startPhase_congruent (60 / bpm)
              (averageOffset rawBeats (60 / bpm) forced) Hiv) as (t & Ht & H0 & H1 & Hn).
  destruct (gridLoop_regular (60 / bpm) dur t Hiv) as (s & Hs & Hinv & Hend).
  exists t, s. rewrite Ht. cbn [bind]. rewrite Hs. cbn [bind]. auto 10.
Qed.

(** The sum of the residuals lies between the bounds of the residuals. *)
Lemma phaseSumLoop_bounds (rawBeats : list Q) (iv lo hi : Q) (n : nat) :
  forall (i : nat) (acc : Q),
    (forall k, (i <= k < i + n)%nat ->
               lo <= nth k rawBeats 0 - Num.ofNat k * iv /\
               nth k rawBeats 0 - Num.ofNat k * iv <= hi) ->
    acc + Num.ofNat n * lo <= phaseSumLoop n i rawBeats iv acc /\
    phaseSumLoop n i rawBeats iv acc <= acc + Num.ofNat n * hi.
Proof.
  induction n as [|n IH]; intros i acc Hres; cbn [phaseSumLoop].
  - change (Num.ofNat 0) with 0. lra.
  - destruct (Hres i ltac:(lia)) as [Hlo Hhi].
    destruct (IH (S i) (acc + (nth i rawBeats 0 - Num.ofNat i * iv))) as [H1 H2].
    { intros k Hk. apply Hres. lia. }
    rewrite ofNat_S. lra.
Qed.

(** A list that starts at [t] and steps by [iv] is the list of running
    sums. *)
Lemma runningSums_steps (iv : Q) (l : list Q) :
  forall t,
    (l = [] \/ head l = Some t) ->
    (forall k b b', l !! k = Some b -> l !! S k = Some b' -> b' = b + iv) ->
    l = runningSums t iv (length l).
Proof.
  induction l as [|b l IH]; intros t Hhead Hstep; [reflexivity|].
  destruct Hhead as [Hnil|Hhead]; [discriminate Hnil|].
  injection Hhead as ->. cbn [length runningSums]. f_equal.
  apply IH.
  - destruct l as [|b' l']; [left; reflexivity|]. right. cbn [head]. f_equal.
    apply (Hstep 0%nat t b'); reflexivity.
  - intros k c c' Hk Hk'. apply (Hstep (S k) c c'); assumption.
Qed.

(** [getLockedGrid] step by step, with the beats as the code adds them
    up. *)
Lemma getLockedGrid_sums (rawBeats : list Q) (bpm dur forced : Q) :
  0 < bpm ->
  exists g t,
    getLockedGrid rawBeats bpm dur forced = Ok g /\
    startPhase (60 / bpm) (averageOffset rawBeats (60 / bpm) forced) = Ok t /\
    0 <= t /\ t <= 60 / bpm /\
    beats g = runningSums t (60 / bpm) (length (beats g)) /\
    (forall k b, beats g !! k = Some b -> 0 <= b /\ b < dur) /\
    (forall k b b', beats g !! k = Some b -> beats g !! S k = Some b' ->
                    b' = b + 60 / bpm) /\
    (forall b, last (beats g) = Some b -> dur <= b + 60 / bpm) /\
    (beats g = [] <-> dur <= t).
Proof.
  intros Hbpm.
  assert (Hiv : 0 < 60 / bpm) by (apply Qlt_shift_div_l; lra).
  unfold getLockedGrid.
  destruct (startPhase_congruent (60 / bpm)
              (averageOffset rawBeats (60 / bpm) forced) Hiv) as (t & Ht & H0 & H1 & _).
  destruct (gridLoop_regular (60 / bpm) dur t Hiv)
    as (s & Hs & (_ & Hnext & Hbeats & Hstep & Hlast & _) & Hend).
  destruct (gridLoop_ends (60 / bpm) dur (mkGridState t 0 [] []) Hiv)
    as (s' & Hs' & Hhead & _).
  rewrite Hs in Hs'. injection Hs' as <-. specialize (Hhead eq_refl).
  cbn [gs_t] in Hhead.
  rewrite Ht. cbn [bind]. rewrite Hs. cbn [bind].
  eexists. exists t. split; [reflexivity|]. split; [reflexivity|].
  split; [assumption|]. split; [assumption|]. cbn [beats].
  assert (Hsums : gs_lockedBeats s
                  = runningSums t (60 / bpm) (length (gs_lockedBeats s)))
    by (apply runningSums_steps; assumption).
  assert (Hlow : forall k b, gs_lockedBeats s !! k = Some b -> 0 <= b /\ b < dur).
  { intros k b Hk. destruct (Hbeats k b Hk) as [Hb Hlt]. unfold gridPoint in Hb.
    split; [|assumption].
    pose proof (ofNat_nonneg k) as Hk0. rewrite Hb.
    assert (0 <= Num.ofNat k * (60 / bpm)) by (apply Qmult_le_0_compat; lra).
    lra. }
  split; [exact Hsums|]. split; [exact Hlow|]. split; [exact Hstep|]. split.
  - intros b Hb. rewrite <- (Hlast b Hb). exact Hend.
  - split.
    + intros E. rewrite E in Hnext. cbn [length] in Hnext. unfold gridPoint in Hnext.
      change (Num.ofNat 0) with 0 in Hnext. lra.
    + intros Hle. destruct Hhead as [E|Hh]; [exact E|]. exfalso.
      rewrite head_lookup in Hh. destruct (Hlow 0%nat t Hh). lra.
Qed.

End GridFacts.

Module Grid64Facts.
Import Floats BeatParser64 GridSpec64.
Local Open Scope float_scope.

Lemma raisePhase64_exit (fuel : nat) (iv : float) :
  forall t t', raisePhase fuel iv t = Some t' -> (t' <? 0) = false.
Proof.
  induction fuel as [|fuel IH]; intros t t' H; cbn [raisePhase] in H;
    destruct (t <? 0) eqn:Ht; try discriminate H.
  - now injection H as <-.
  - eauto.
  - now injection H as <-.
Qed.

Lemma lowerPhase64_exit (fuel : nat) (iv : float) :
  forall t t', lowerPhase fuel iv t = Some t' -> (iv <? t') = false.
Proof.
  induction fuel as [|fuel IH]; intros t t' H; cbn [lowerPhase] in H;
    destruct (iv <? t) eqn:Ht; try discriminate H.
  - now injection H as <-.
  - eauto.
  - now injection H as <-.
Qed.

(** What the grid loop has pushed when it returns: running sums, each
    below the duration, the next one not. *)
Lemma gridLoop64_sums (fuel : nat) (iv dur : float) :
  forall t cnt bs ds bs' ds',
    gridLoop fuel iv dur t cnt bs ds = Some (bs', ds') ->
    exists n,
      bs' = bs ++ runningSums t iv n /\
      Forall (below dur) (runningSums t iv n) /\
      (forall b, last (bs ++ runningSums t iv n) = Some b -> n <> 0%nat ->
                 (b + iv <? dur) = false) /\
      (n = 0%nat -> (t <? dur) = false).
Proof.
  induction fuel as [|fuel IH]; intros t cnt bs ds bs' ds' H; cbn [gridLoop] in H;
    destruct (t <? dur) eqn:Ht; try discriminate H.
  - injection H as <- <-. exists 0%nat. cbn [runningSums]. rewrite app_nil_r.
    split; [reflexivity|]. split; [constructor|]. split; [congruence | auto].
  - destruct (IH _ _ _ _ _ _ H) as (n & -> & Hall & Hlast & Hzero).
    exists (S n). cbn [runningSums]. rewrite <- app_assoc. cbn [app].
    split; [reflexivity|]. split; [constructor; assumption|].
    split; [|discriminate].
    intros b Hb _. rewrite <- app_assoc in Hlast. cbn [app] in Hlast.
    destruct n as [|n].
    + cbn [runningSums] in Hb. rewrite last_snoc in Hb. injection Hb as <-.
      now apply Hzero.
    + now apply Hlast.
  - injection H as <- <-. exists 0%nat. cbn [runningSums]. rewrite app_nil_r.
    split; [reflexivity|]. split; [constructor|]. split; [congruence | auto].
Qed.

Lemma length_runningSums64 (iv : float) (n : nat) :
  forall t, length (runningSums t iv n) = n.
Proof. induction n as [|n IH]; intros t; cbn; [reflexivity | now rewrite IH]. Qed.

(** [getLockedGrid] in binary64, when it returns. *)
Lemma getLockedGrid64_sums (fuel : nat) (rawBeats : list float)
      (bpm dur forced : float) (g : BeatGrid) :
  getLockedGrid fuel rawBeats bpm dur forced = Some g ->
  exists t,
    (60 / bpm <? t) = false /\
    beats g = runningSums t (60 / bpm) (length (beats g)) /\
    Forall (below dur) (beats g) /\
    (forall b, last (beats g) = Some b -> (b + 60 / bpm <? dur) = false) /\
    (beats g = [] -> (t <? dur) = false) /\
    offset g = averageOffset rawBeats (60 / bpm) forced * 1000.
Proof.
  unfold getLockedGrid. intros H.
  destruct (raisePhase fuel _ _) as [t0|]; [|discriminate H].
  destruct (lowerPhase fuel _ t0) as [t|] eqn:Ht; [|discriminate H].
  destruct (gridLoop fuel _ dur t 0 [] []) as [[bs ds]|] eqn:Hloop; [|discriminate H].
  injection H as <-. cbn [beats offset].
  destruct (gridLoop64_sums _ _ _ _ _ _ _ _ _ Hloop) as (n & -> & Hall & Hlast & Hzero).
  cbn [app] in *. exists t. rewrite length_runningSums64.
  split; [exact (lowerPhase64_exit _ _ _ _ Ht)|]. split; [reflexivity|].
  split; [assumption|]. split.
  - intros b Hb. apply Hlast; [assumption|]. intros ->. discriminate Hb.
  - split; [|reflexivity]. intros E. apply Hzero. destruct n; [reflexivity | discriminate E].
Qed.

(** A larger budget does not change what a loop returns. *)
Lemma raisePhase64_budget (iv : float) (fuel fuel' : nat) :
  (fuel <= fuel')%nat ->
  forall t r, raisePhase fuel iv t = Some r -> raisePhase fuel' iv t = Some r.
Proof.
  revert fuel'. induction fuel as [|fuel IH]; intros fuel' Hle t r H;
    cbn [raisePhase] in H; destruct (t <? 0) eqn:Ht; try discriminate H.
  - destruct fuel'; cbn [raisePhase]; rewrite Ht; exact H.
  - destruct fuel' as [|fuel']; [lia|]. cbn [raisePhase]. rewrite Ht.
    apply IH; [lia | exact H].
  - destruct fuel'; cbn [raisePhase]; rewrite Ht; exact H.
Qed.

Lemma lowerPhase64_budget (iv : float) (fuel fuel' : nat) :
  (fuel <= fuel')%nat ->
  forall t r, lowerPhase fuel iv t = Some r -> lowerPhase fuel' iv t = Some r.
Proof.
  revert fuel'. induction fuel as [|fuel IH]; intros fuel' Hle t r H;
    cbn [lowerPhase] in H; destruct (iv <? t) eqn:Ht; try discriminate H.
  - destruct fuel'; cbn [lowerPhase]; rewrite Ht; exact H.
  - destruct fuel' as [|fuel']; [lia|]. cbn [lowerPhase]. rewrite Ht.
    apply IH; [lia | exact H].
  - destruct fuel'; cbn [lowerPhase]; rewrite Ht; exact H.
Qed.

Lemma gridLoop64_budget (iv dur : float) (fuel fuel' : nat) :
  (fuel <= fuel')%nat ->
  forall t cnt bs ds r,
    gridLoop fuel iv dur t cnt bs ds = Some r ->
    gridLoop fuel' iv dur t cnt bs ds = Some r.
Proof.
  revert fuel'. induction fuel as [|fuel IH]; intros fuel' Hle t cnt bs ds r H;
    cbn [gridLoop] in H; destruct (t <? dur) eqn:Ht; try discriminate H.
  - destruct fuel'; cbn [gridLoop]; rewrite Ht; exact H.
  - destruct fuel' as [|fuel']; [lia|]. cbn [gridLoop]. rewrite Ht.
    apply IH; [lia | exact H].
  - destruct fuel'; cbn [gridLoop]; rewrite Ht; exact H.
Qed.

(** The grid that [getLockedGrid] returns within a budget is the one it
    returns within any larger budget. *)
Lemma getLockedGrid64_budget (fuel fuel' : nat) (rawBeats : list float)
      (bpm dur forced : float) (g : BeatGrid) :
  (fuel <= fuel')%nat ->
  getLockedGrid fuel rawBeats bpm dur forced = Some g ->
  getLockedGrid fuel' rawBeats bpm dur forced = Some g.
Proof.
  intros Hle. unfold getLockedGrid.
  destruct (raisePhase fuel _ _) as [t0|] eqn:H0; [|discriminate].
  rewrite (raisePhase64_budget _ _ _ Hle _ _ H0).
  destruct (lowerPhase fuel _ t0) as [t|] eqn:H1; [|discriminate].
  rewrite (lowerPhase64_budget _ _ _ Hle _ _ H1).
  destruct (gridLoop fuel _ dur t 0 [] []) as [r|] eqn:H2; [|discriminate].
  rewrite (gridLoop64_budget _ _ _ _ Hle _ _ _ _ _ H2). auto.
Qed.

(** Where the subtraction no longer changes [t], the loop
    [while (t > idealInterval) t -= idealInterval] cannot end: whatever
    the budget, it is used up. *)
Lemma lowerPhase64_stalls (iv t : float) :
  (iv <? t) = true -> t - iv = t -> forall fuel, lowerPhase fuel iv t = None.
Proof.
  intros Hgt Hsame fuel. induction fuel as [|fuel IH]; cbn [lowerPhase]; rewrite Hgt.
  - reflexivity.
  - rewrite Hsame. exact IH.
Qed.

(** So it is for the phase [2^53] at 120 BPM: [2^53 - 0.5] rounds to
    [2^53]. *)
Lemma lowerPhase64_stalls_at_2_53 (fuel : nat) :
  lowerPhase fuel 0.5 9007199254740992 = None.
Proof. apply lowerPhase64_stalls; vm_compute; reflexivity. Qed.

Lemma getLockedGrid64_stalls_at_2_53 (fuel : nat) (dur : float) :
  getLockedGrid fuel [] 120 dur 9007199254740992 = None.
Proof.
  unfold getLockedGrid.
  change (60 / 120) with 0.5.
  assert (E : averageOffset [] 0.5 9007199254740992 = 9007199254740992)
    by (vm_compute; reflexivity).
  rewrite E.
  assert (R : raisePhase fuel 0.5 9007199254740992 = Some 9007199254740992)
    by (destruct fuel; reflexivity).
  rewrite R, lowerPhase64_stalls_at_2_53. reflexivity.
Qed.

End Grid64Facts.

Module GridProperties.
Import Floats BeatParser BeatParserFacts GridSpec GridFacts.

(** X1.  The beats of the locked grid are the values that [t] takes under
    [t += idealInterval].  For every tempo [bpm > 0] the grid starts at the
    normalised phase [t], [0 <= t <= 60/bpm], and its beats are [t],
    [t + 60/bpm], [(t + 60/bpm) + 60/bpm], ..., added up in this order;
    each beat lies in [0, totalDuration) and is its predecessor plus one
    interval, hence the beats are strictly increasing.  With the roundings
    of binary64, whenever the call returns, the beats are the rounded
    running sums from a phase [t] that is not above [60/bpm], and each
    beat is below [totalDuration]. *)
Theorem locked_beats_running_sums (rawBeats : list Q) (bpm dur forced : Q) :
  0 < bpm ->
  (exists g t,
      getLockedGrid rawBeats bpm dur forced = Ok g /\
      startPhase (60 / bpm) (averageOffset rawBeats (60 / bpm) forced) = Ok t /\
      0 <= t /\ t <= 60 / bpm /\
      beats g = runningSums t (60 / bpm) (length (beats g)) /\
      (forall k b, beats g !! k = Some b -> 0 <= b /\ b < dur) /\
      (forall k b b', beats g !! k = Some b -> beats g !! S k = Some b' ->
                      b' = b + 60 / bpm /\ b < b')) /\
  (forall (fuel : nat) (rawBeats64 : list float)
          (bpm64 dur64 forced64 : float) (g64 : BeatParser64.BeatGrid),
      BeatParser64.getLockedGrid fuel rawBeats64 bpm64 dur64 forced64 = Some g64 ->
      exists t64,
        (60 / bpm64 <? t64)%float = false /\
        BeatParser64.beats g64
        = GridSpec64.runningSums t64 (60 / bpm64)%float
                                 (length (BeatParser64.beats g64)) /\
        Forall (GridSpec64.below dur64) (BeatParser64.beats g64)).
Proof.
  intros Hbpm.
  assert (Hiv : 0 < 60 / bpm) by (apply Qlt_shift_div_l; lra).
  split.
  - destruct (getLockedGrid_sums rawBeats bpm dur forced Hbpm)
      as (g & t & Hg & Ht & H0 & H1 & Hsums & Hlow & Hstep & _).
    exists g, t. repeat (split; [assumption|]).
    intros k b b' Hk Hk'. rewrite (Hstep k b b' Hk Hk'). split; [reflexivity | lra].
  - intros fuel rawBeats64 bpm64 dur64 forced64 g64 Hg.
    destruct (Grid64Facts.getLockedGrid64_sums _ _ _ _ _ _ Hg)
      as (t & Ht & Hsums & Hall & _).
    exists t. auto.
Qed.

Lemma locked_beats_running_sums_witness :
  (exists g t,
      getLockedGrid [] 120 10 1 = Ok g /\
      startPhase (60 / 120) (averageOffset [] (60 / 120) 1) = Ok t /\
      0 <= t /\ t <= 60 / 120 /\
      beats g = runningSums t (60 / 120) 19 /\
      length (beats g) = 19%nat) /\
  (exists g64 t64,
      BeatParser64.getLockedGrid 200 [] 125 48 (-1) = Some g64 /\
      BeatParser64.beats g64 = GridSpec64.runningSums t64 (60 / 125)%float 101 /\
      Forall (GridSpec64.below 48) (BeatParser64.beats g64)).
Proof.
  destruct (locked_beats_running_sums [] 120 10 1 eq_refl) as [Hexact Hfloat].
  split.
  - destruct Hexact as (g & t & Hg & Ht & H0 & H1 & Hsums & _).
    exists g, t. repeat (split; [assumption|]).
    assert (Hlen : length (beats g) = 19%nat).
    { assert (E : exists g', getLockedGrid [] 120 10 1 = Ok g' /\ length (beats g') = 19%nat)
        by (eexists; split; vm_compute; reflexivity).
      destruct E as (g' & Hg' & Hlen). rewrite Hg in Hg'. now injection Hg' as <-. }
    rewrite Hlen in Hsums. auto.
  - assert (E : exists g64, BeatParser64.getLockedGrid 200 [] 125 48 (-1) = Some g64 /\
                            length (BeatParser64.beats g64) = 101%nat)
      by (eexists; split; vm_compute; reflexivity).
    destruct E as (g64 & Hg & Hlen).
    destruct (Hfloat _ _ _ _ _ _ Hg) as (t64 & _ & Hsums & Hall).
    rewrite Hlen in Hsums. exists g64, t64. auto.
Defined.

(** X2.  For every tempo [bpm > 0] the downbeats of the locked grid are
    the beats at the indices 0, 4, 8, ...: [downbeats[j]] is [beats[4j]]
    for every [j], so there are [ceil(beats.length / 4)] of them. *)
Theorem downbeats_every_fourth_beat (rawBeats : list Q) (bpm dur forced : Q) :
  0 < bpm ->
  exists g,
    getLockedGrid rawBeats bpm dur forced = Ok g /\
    (forall j, downbeats g !! j = beats g !! (4 * j)%nat) /\
    (length (beats g) <= 4 * length (downbeats g) < length (beats g) + 4)%nat.
Proof.
  intros Hbpm.
  destruct (getLockedGrid_steps rawBeats bpm dur forced Hbpm)
    as (t & s & _ & _ & _ & _ & (_ & _ & _ & _ & _ & Hdown) & _ & ->).
  eexists. split; [reflexivity|]. cbn [beats downbeats].
  split; [exact Hdown|]. now apply every_fourth_length.
Qed.

Lemma downbeats_every_fourth_beat_witness :
  exists g,
    getLockedGrid [] 120 10 1 = Ok g /\
    (forall j, downbeats g !! j = beats g !! (4 * j)%nat) /\
    (length (beats g) <= 4 * length (downbeats g) < length (beats g) + 4)%nat.
Proof.
  apply (downbeats_every_fourth_beat [] 120 10 1). reflexivity.
Defined.

(** X3.  The locked grid covers the track up to its end.  For every
    tempo [bpm > 0] the last beat [b] is below [totalDuration] and one
    interval later is not, [totalDuration <= b + 60/bpm]; the grid is empty
    exactly when [totalDuration <= t], [t] being the normalised phase.
    With the roundings of binary64, whenever the call returns, the last
    beat [b] satisfies [b < totalDuration] and not
    [b + 60/bpm < totalDuration].  How many beats that makes depends on
    the rounding of the sums: at 125 BPM and 48 s the exact sums give 100
    beats and the binary64 sums 101. *)
Theorem grid_reaches_duration (rawBeats : list Q) (bpm dur forced : Q) :
  0 < bpm ->
  (exists g t,
      getLockedGrid rawBeats bpm dur forced = Ok g /\
      startPhase (60 / bpm) (averageOffset rawBeats (60 / bpm) forced) = Ok t /\
      (forall b, last (beats g) = Some b -> b < dur /\ dur <= b + 60 / bpm) /\
      (beats g = [] <-> dur <= t)) /\
  (forall (fuel : nat) (rawBeats64 : list float)
          (bpm64 dur64 forced64 : float) (g64 : BeatParser64.BeatGrid),
      BeatParser64.getLockedGrid fuel rawBeats64 bpm64 dur64 forced64 = Some g64 ->
      forall b, last (BeatParser64.beats g64) = Some b ->
                (b <? dur64)%float = true /\
                (b + 60 / bpm64 <? dur64)%float = false) /\
  (exists g g64,
      getLockedGrid [] 125 48 (-1) = Ok g /\
      length (beats g) = 100%nat /\
      BeatParser64.getLockedGrid 200 [] 125 48 (-1) = Some g64 /\
      length (BeatParser64.beats g64) = 101%nat).
Proof.
  intros Hbpm. split; [|split].
  - destruct (getLockedGrid_sums rawBeats bpm dur forced Hbpm)
      as (g & t & Hg & Ht & _ & _ & _ & Hlow & _ & Hlast & Hempty).
    exists g, t. repeat (split; [assumption|]). split; [|exact Hempty].
    intros b Hb. split; [|now apply Hlast].
    rewrite last_lookup in Hb. now destruct (Hlow _ _ Hb).
  - intros fuel rawBeats64 bpm64 dur64 forced64 g64 Hg b Hb.
    destruct (Grid64Facts.getLockedGrid64_sums _ _ _ _ _ _ Hg)
      as (t & _ & _ & Hall & Hlast & _).
    split; [|now apply Hlast].
    rewrite last_lookup in Hb. apply list_elem_of_lookup_2 in Hb.
    rewrite Forall_forall in Hall. exact (Hall b Hb).
  - do 2 eexists. split; [vm_compute; reflexivity|]. split; [reflexivity|].
    split; [vm_compute; reflexivity | reflexivity].
Qed.

Lemma grid_reaches_duration_witness :
  exists g t b,
    getLockedGrid [] 120 10 1 = Ok g /\
    startPhase (60 / 120) (averageOffset [] (60 / 120) 1) = Ok t /\
    last (beats g) = Some b /\ b < 10 /\ 10 <= b + 60 / 120 /\
    (beats g = [] <-> 10 <= t).
Proof.
  destruct (grid_reaches_duration [] 120 10 1 eq_refl) as [Hexact _].
  destruct Hexact as (g & t & Hg & Ht & Hlast & Hempty).
  assert (E : exists g' b, getLockedGrid [] 120 10 1 = Ok g' /\ last (beats g') = Some b)
    by (do 2 eexists; split; vm_compute; reflexivity).
  destruct E as (g' & b & Hg' & Hb). rewrite Hg in Hg'. injection Hg' as <-.
  destruct (Hlast b Hb). exists g, t, b. auto 10.
Defined.

(** X4.  Statistical sync: without a usable forced offset (negative) and
    with at least two onsets, if each of the first [min(length, 32)] onsets
    [rawBeats[i]] is within [eps] of the grid point [p + i * idealInterval],
    then the phase [averageOffset] is within [eps] of [p]; for onsets that
    are exactly on that grid it is [p]. *)
Theorem statistical_phase_within_jitter (rawBeats : list Q) (iv forced p eps : Q) :
  forced < 0 -> (2 <= length rawBeats)%nat ->
  (forall i, (i < Nat.min (length rawBeats) 32)%nat ->
             p - eps <= nth i rawBeats 0 - Num.ofNat i * iv /\
             nth i rawBeats 0 - Num.ofNat i * iv <= p + eps) ->
  p - eps <= averageOffset rawBeats iv forced /\
  averageOffset rawBeats iv forced <= p + eps /\
  (eps == 0 -> averageOffset rawBeats iv forced == p).
Proof.
  intros Hforced Hlen Hres. unfold averageOffset.
  replace (Num.geb forced 0) with false by (symmetry; apply NumFacts.geb_false; exact Hforced).
  replace (2 <=? length rawBeats)%nat with true by (symmetry; apply Nat.leb_le; exact Hlen).
  set (m := Nat.min (length rawBeats) 32) in *.
  destruct (phaseSumLoop_bounds rawBeats iv (p - eps) (p + eps) m 0 0) as [H1 H2].
  { intros k Hk. apply Hres. lia. }
  assert (Hm : 0 < Num.ofNat m).
  { unfold Num.ofNat. change 0 with (inject_Z 0). rewrite <- Zlt_Qlt. lia. }
  assert (Hlo : p - eps <= phaseSumLoop m 0 rawBeats iv 0 / Num.ofNat m).
  { apply Qle_shift_div_l; [assumption|]. lra. }
  assert (Hhi : phaseSumLoop m 0 rawBeats iv 0 / Num.ofNat m <= p + eps).
  { apply Qle_shift_div_r; [assumption|]. lra. }
  split; [assumption|]. split; [assumption|].
  intros Heps. apply Qle_antisym; lra.
Qed.

Lemma statistical_phase_within_jitter_witness :
  (1 # 4) - (1 # 100) <= averageOffset [26 # 100; 74 # 100; 125 # 100] (1 # 2) (-1) /\
  averageOffset [26 # 100; 74 # 100; 125 # 100] (1 # 2) (-1) <= (1 # 4) + (1 # 100).
Proof.
  destruct (statistical_phase_within_jitter
              [26 # 100; 74 # 100; 125 # 100] (1 # 2) (-1) (1 # 4) (1 # 100))
    as (Hlo & Hhi & _).
  - reflexivity.
  - cbn. lia.
  - intros i Hi. cbn in Hi.
    destruct i as [|[|[|i]]]; [| | |lia]; split; vm_compute; discriminate.
  - split; assumption.
Defined.

End GridProperties.

(** ** The time stretcher, in full *)

Module OlaFacts.
Import WebAudio InternalTimeStretcher StretchSpec OlaSpec InternalTimeStretcherFacts.

(** A loop whose guard is false at the start returns its state. *)
Lemma while_guard_false {St : Type} (cond : St -> bool) (body : St -> result St)
      (fuel : nat) (s : St) :
  cond s = false -> while cond body fuel s = Ok s.
Proof.
  intros Hc. destruct fuel; cbn [while]; now rewrite Hc.
Qed.

Section Window.
Variable hanningWindow : Z -> Q.
Variable inCh : list Q.
Variables inPos outPos : Z.
Hypothesis inPos_nonneg : (0 <= inPos)%Z.
Hypothesis outPos_nonneg : (0 <= outPos)%Z.

(** The window loop, run within bounds, adds one weighted input sample to
    each output sample of its range and leaves the others as they are. *)
Lemma windowLoop_values (n : nat) :
  forall (i : Z) (outCh : list Q),
    (0 <= i)%Z ->
    (inPos + i + Z.of_nat n <= Z.of_nat (length inCh))%Z ->
    (outPos + i + Z.of_nat n <= Z.of_nat (length outCh))%Z ->
    exists outCh',
      windowLoop hanningWindow n i inCh outCh inPos outPos = Ok outCh' /\
      length outCh' = length outCh /\
      forall j : nat,
        outCh' !! j
        = if (outPos + i <=? Z.of_nat j)%Z && (Z.of_nat j <? outPos + i + Z.of_nat n)%Z
          then (fun old => old + nth (Z.to_nat (inPos + (Z.of_nat j - outPos))) inCh 0
                                 * hanningWindow (Z.of_nat j - outPos))
               <$> outCh !! j
          else outCh !! j.
Proof.
  induction n as [|n IH]; intros i outCh Hi Hin Hout; cbn [windowLoop].
  - exists outCh. split; [reflexivity|]. split; [reflexivity|]. intros j.
    destruct (Z.leb_spec (outPos + i)%Z (Z.of_nat j));
      destruct (Z.ltb_spec (Z.of_nat j) (outPos + i + Z.of_nat 0)%Z); cbn; try reflexivity; lia.
  - destruct (readSample_in_range inCh (inPos + i)) as (sample & Hsample); [lia|].
    rewrite Hsample. cbn [bind].
    apply readSample_Ok in Hsample as [_ Hsample].
    unfold addSample.
    destruct (readSample_in_range outCh (outPos + i)) as (old & Hold); [lia|].
    rewrite Hold. cbn [bind].
    apply readSample_Ok in Hold as [_ Hold].
    destruct (IH (i + 1)%Z (<[Z.to_nat (outPos + i) := old + sample * hanningWindow i]> outCh))
      as (outCh' & Hloop & Hlen & Hval).
    { lia. } { lia. } { rewrite length_insert. lia. }
    exists outCh'. split; [exact Hloop|]. split; [now rewrite Hlen, length_insert|].
    intros j. rewrite Hval.
    destruct (Z.eq_dec (Z.of_nat j) (outPos + i)%Z) as [Hj|Hj].
    + assert (Ej : j = Z.to_nat (outPos + i)) by lia.
      replace ((outPos + (i + 1) <=? Z.of_nat j)%Z) with false
        by (symmetry; apply Z.leb_gt; lia).
      replace ((outPos + i <=? Z.of_nat j)%Z) with true
        by (symmetry; apply Z.leb_le; lia).
      replace ((Z.of_nat j <? outPos + i + Z.of_nat (S n))%Z) with true
        by (symmetry; apply Z.ltb_lt; lia).
      cbn [andb]. rewrite Ej at 1. rewrite list_lookup_insert_eq by lia.
      rewrite Ej at 1. rewrite Hold. cbn [fmap option_fmap option_map].
      replace (Z.of_nat j - outPos)%Z with i by lia.
      rewrite (nth_lookup_Some _ _ 0 _ Hsample). reflexivity.
    + rewrite list_lookup_insert_ne by lia.
      replace ((outPos + (i + 1) <=? Z.of_nat j)%Z
               && (Z.of_nat j <? outPos + (i + 1) + Z.of_nat n)%Z)
        with ((outPos + i <=? Z.of_nat j)%Z && (Z.of_nat j <? outPos + i + Z.of_nat (S n))%Z).
      * reflexivity.
      * destruct (Z.leb_spec (outPos + i)%Z (Z.of_nat j));
          destruct (Z.ltb_spec (Z.of_nat j) (outPos + i + Z.of_nat (S n))%Z);
          destruct (Z.leb_spec (outPos + (i + 1))%Z (Z.of_nat j));
          destruct (Z.ltb_spec (Z.of_nat j) (outPos + (i + 1) + Z.of_nat n)%Z);
          cbn; try reflexivity; lia.
Qed.

End Window.

Section Turn.
Variable hanningWindow : Z -> Q.
Variables bufferLength newLength anaHop : Z.
Variable t : nat.
Hypothesis anaHop_nonneg : (0 <= anaHop)%Z.
Hypothesis allowed : turnAllowed newLength bufferLength anaHop t.

(** Turn [t] on one channel. *)
Lemma windowLoop_turn (inCh outCh : list Q) :
  Z.of_nat (length inCh) = bufferLength ->
  channelAfter hanningWindow inCh anaHop newLength t outCh ->
  exists outCh',
    windowLoop hanningWindow (Z.to_nat winSize) 0 inCh outCh
               (Z.of_nat t * anaHop) (Z.of_nat t * hopSize) = Ok outCh' /\
    channelAfter hanningWindow inCh anaHop newLength (S t) outCh'.
Proof.
  intros Hin [Hlen Hval]. destruct allowed as [Hout Hinp].
  rewrite hopSize_value in *. unfold winSize in *.
  destruct (windowLoop_values hanningWindow inCh (Z.of_nat t * anaHop)%Z (Z.of_nat t * 2048)%Z
              ltac:(lia) ltac:(lia) (Z.to_nat 4096) 0 outCh)
    as (outCh' & Hloop & Hlen' & Hval'); [lia | lia | lia |].
  exists outCh'. split; [exact Hloop|]. split; [lia|].
  intros j Hj. rewrite Hval', (Hval j Hj). cbn [overlapAdd].
  unfold inWindow, grain. rewrite hopSize_value. unfold winSize.
  rewrite Z.add_0_r.
  change (Z.of_nat (Z.to_nat 4096)) with 4096%Z.
  destruct ((Z.of_nat t * 2048 <=? Z.of_nat j)%Z && (Z.of_nat j <? Z.of_nat t * 2048 + 4096)%Z);
    reflexivity.
Qed.

(** Turn [t] on the channels from [c] on. *)
Lemma channelLoop_turn (inputData : list (list Q)) :
  Forall (fun ch : list Q => Z.of_nat (length ch) = bufferLength) inputData ->
  forall (n c : nat) (outputData : list (list Q)),
    (c + n)%nat = length inputData ->
    length outputData = length inputData ->
    (forall k inCh outCh,
        inputData !! k = Some inCh -> outputData !! k = Some outCh ->
        channelAfter hanningWindow inCh anaHop newLength
                     (if (k <? c)%nat then S t else t) outCh) ->
    exists outputData',
      channelLoop hanningWindow n c inputData outputData
                  (Z.of_nat t * anaHop) (Z.of_nat t * hopSize) = Ok outputData' /\
      length outputData' = length inputData /\
      forall k inCh outCh,
        inputData !! k = Some inCh -> outputData' !! k = Some outCh ->
        channelAfter hanningWindow inCh anaHop newLength (S t) outCh.
Proof.
  intros Hin. induction n as [|n IH]; intros c outputData Hc Hlen Hinv;
    cbn [channelLoop].
  - exists outputData. split; [reflexivity|]. split; [assumption|].
    intros k inCh outCh Hk Hk'. specialize (Hinv k inCh outCh Hk Hk').
    apply lookup_lt_Some in Hk.
    replace (k <? c)%nat with true in Hinv by (symmetry; apply Nat.ltb_lt; lia).
    exact Hinv.
  - destruct (lookup_lt_is_Some_2 inputData c) as [inCh HinCh]; [lia|].
    destruct (lookup_lt_is_Some_2 outputData c) as [outCh HoutCh]; [lia|].
    rewrite HinCh, HoutCh.
    pose proof (Hinv c inCh outCh HinCh HoutCh) as Hc0.
    rewrite Nat.ltb_irrefl in Hc0.
    destruct (windowLoop_turn inCh outCh (Forall_lookup_1 _ _ _ _ Hin HinCh) Hc0)
      as (outCh' & -> & Hafter).
    cbn [bind]. apply IH.
    + lia.
    + rewrite length_insert. assumption.
    + intros k inCh' outCh'' Hk Hk'.
      destruct (Nat.eq_dec k c) as [->|Hne].
      * rewrite list_lookup_insert_eq in Hk' by lia. injection Hk' as <-.
        rewrite HinCh in Hk. injection Hk as <-.
        replace (c <? S c)%nat with true by (symmetry; apply Nat.ltb_lt; lia).
        exact Hafter.
      * rewrite list_lookup_insert_ne in Hk' by congruence.
        specialize (Hinv k inCh' outCh'' Hk Hk').
        replace (k <? S c)%nat with (k <? c)%nat; [exact Hinv|].
        destruct (Nat.ltb_spec k c); destruct (Nat.ltb_spec k (S c)); try reflexivity; lia.
Qed.

End Turn.

End OlaFacts.

Module StretchProperties.
Import WebAudio InternalTimeStretcher StretchSpec OlaSpec InternalTimeStretcherFacts OlaFacts.

(** X5.  A buffer too short for one analysis window comes out silent:
    off the identity path ([|speed - 1| >= 0.001]) and for a positive
    speed, when the input has at most [winSize = 4096] samples, or the
    stretched length [floor(length / speed)] is at most 4096, the
    overlap-add loop makes no turn and [process] returns a buffer of the
    stretched length whose samples are all zero. *)
Theorem process_short_buffer_silent (hanningWindow : Z -> Q) (buffer : AudioBuffer)
        (speed : Q) :
  (0 <= frames buffer)%Z -> 0 < speed -> 1 # 1000 <= Num.abs (speed - 1) ->
  (frames buffer <= winSize \/ newLength buffer speed <= winSize)%Z ->
  process hanningWindow buffer speed
  = Ok (mkAudioBuffer (sampleRate buffer) (newLength buffer speed)
          (replicate (numberOfChannels buffer)
                     (replicate (Z.to_nat (newLength buffer speed)) 0))).
Proof.
  intros Hframes Hspeed Hfar Hshort. unfold process.
  apply NumFacts.ltb_false in Hfar. rewrite Hfar.
  assert (Hnz : Qeq_bool speed 0 = false).
  { apply not_true_iff_false. rewrite Qeq_bool_iff. lra. }
  pose proof (newLength_nonneg buffer speed Hframes Hspeed) as HN.
  assert (HNb : (newLength buffer speed <? 0)%Z = false) by (apply Z.ltb_ge; exact HN).
  rewrite Hnz, HNb. cbn [orb].
  rewrite while_guard_false; [reflexivity|].
  unfold olaGuard. cbn [ola_inPos ola_outPos].
  apply andb_false_iff. destruct Hshort as [H|H]; [right | left]; apply Z.ltb_ge; lia.
Qed.

Lemma process_short_buffer_silent_witness :
  process (fun _ => 1) Examples.threeSamples 2
  = Ok (mkAudioBuffer 44100 1 [[0]]).
Proof.
  apply (process_short_buffer_silent (fun _ => 1) Examples.threeSamples 2).
  - discriminate.
  - reflexivity.
  - vm_compute. discriminate.
  - left. vm_compute. discriminate.
Defined.

(** X6.  A speed that is zero or negative makes [process] throw a
    [RangeError] for every buffer that holds at least one sample (the
    length handed to [new Float32Array] is infinite or negative). *)
Theorem process_nonpositive_speed (hanningWindow : Z -> Q) (buffer : AudioBuffer)
        (speed : Q) :
  (1 <= frames buffer)%Z -> speed <= 0 ->
  process hanningWindow buffer speed = Throw RangeError.
Proof.
  intros Hframes Hspeed. unfold process.
  replace (Num.ltb (Num.abs (speed - 1)) (1 # 1000)) with false.
  2:{ symmetry. apply NumFacts.ltb_false. unfold Num.abs. cmp_cases; lra. }
  destruct (Qeq_bool speed 0) eqn:Hz; [reflexivity|]. cbn [orb].
  assert (Hneg : speed < 0).
  { apply not_true_iff_false in Hz. rewrite Qeq_bool_iff in Hz.
    destruct (Qlt_le_dec speed 0) as [H|H]; [exact H|].
    exfalso. apply Hz. apply Qle_antisym; assumption. }
  replace (newLength buffer speed <? 0)%Z with true; [reflexivity|].
  symmetry. apply Z.ltb_lt. unfold newLength, Num.floor, Num.ofZ.
  assert (Hq : inject_Z (frames buffer) / speed < 0).
  { assert (Hf : 1 <= inject_Z (frames buffer)).
    { change 1 with (inject_Z 1). now rewrite <- Zle_Qle. }
    assert (E : inject_Z (frames buffer) / speed
                == - (inject_Z (frames buffer) / - speed)) by (field; lra).
    rewrite E.
    assert (0 < inject_Z (frames buffer) / - speed)
      by (apply Qlt_shift_div_l; lra).
    lra. }
  pose proof (Qfloor_le (inject_Z (frames buffer) / speed)) as Hfl.
  assert (Hz' : inject_Z (Qfloor (inject_Z (frames buffer) / speed)) < inject_Z 0).
  { change (inject_Z 0) with 0. lra. }
  now rewrite <- Zlt_Qlt in Hz'.
Qed.

Lemma process_nonpositive_speed_witness :
  process (fun _ => 1) Examples.threeSamples (- (1 # 2)) = Throw RangeError.
Proof.
  apply (process_nonpositive_speed (fun _ => 1) Examples.threeSamples (- (1 # 2))).
  - discriminate.
  - discriminate.
Defined.

(** X7.  [process] maps well-formed buffers to well-formed buffers of the
    same format: for every positive speed, on either path, the buffer
    returned has the sample rate and the channel count of the input, and
    each of its channels holds exactly [length] samples. *)
Theorem process_keeps_format (hanningWindow : Z -> Q) (buffer : AudioBuffer)
        (speed : Q) :
  wellFormed buffer -> 0 < speed ->
  exists out,
    process hanningWindow buffer speed = Ok out /\
    sampleRate out = sampleRate buffer /\
    numberOfChannels out = numberOfChannels buffer /\
    wellFormed out.
Proof.
  intros Hwf Hspeed.
  destruct (Qlt_le_dec (Num.abs (speed - 1)) (1 # 1000)) as [Hnear|Hfar].
  - exists buffer. unfold process.
    apply NumFacts.ltb_true in Hnear. rewrite Hnear. auto.
  - destruct (process_runs hanningWindow buffer speed Hwf Hspeed Hfar)
      as (out & Hout & Hrate & Hframes & Hchan & Hkept).
    exists out. repeat split; try assumption.
    + rewrite Hframes. apply newLength_nonneg; [apply Hwf | assumption].
    + rewrite Hframes. eapply Forall_impl; [exact Hkept|]. intros ch [Hlen _]. exact Hlen.
Qed.

Lemma process_keeps_format_witness :
  exists out,
    process (fun _ => 1) Examples.threeSamples 2 = Ok out /\
    sampleRate out = sampleRate Examples.threeSamples /\
    numberOfChannels out = numberOfChannels Examples.threeSamples /\
    wellFormed out.
Proof.
  apply (process_keeps_format (fun _ => 1) Examples.threeSamples 2).
  - split; [discriminate|]. repeat constructor.
  - reflexivity.
Defined.

(** X8.  What [process] computes.  For every well-formed buffer and every
    positive speed off the identity path, the overlap-add loop makes
    [turns] turns, the first number [t] for which the guard
    [t * hopSize < newLength - winSize && t * anaHop < length - winSize]
    fails, and every sample [j] of every output channel is the sum, over
    the turns [t < turns] whose window [t * hopSize, t * hopSize + winSize)
    covers [j], of the input sample [t * anaHop + (j - t * hopSize)] of the
    same channel times the window entry [j - t * hopSize]. *)
Theorem process_overlap_add (hanningWindow : Z -> Q) (buffer : AudioBuffer) (speed : Q) :
  wellFormed buffer -> 0 < speed -> 1 # 1000 <= Num.abs (speed - 1) ->
  exists out turns,
    process hanningWindow buffer speed = Ok out /\
    (forall t, (t < turns)%nat ->
               turnAllowed (newLength buffer speed) (frames buffer) (anaHop speed) t) /\
    ~ turnAllowed (newLength buffer speed) (frames buffer) (anaHop speed) turns /\
    length (channelData out) = length (channelData buffer) /\
    forall c inCh outCh,
      channelData buffer !! c = Some inCh -> channelData out !! c = Some outCh ->
      channelAfter hanningWindow inCh (anaHop speed) (newLength buffer speed) turns outCh.
Proof.
  intros [Hframes Hchannels] Hspeed Hfar. unfold process.
  apply NumFacts.ltb_false in Hfar. rewrite Hfar.
  assert (Hnz : Qeq_bool speed 0 = false).
  { apply not_true_iff_false. rewrite Qeq_bool_iff. lra. }
  pose proof (newLength_nonneg buffer speed Hframes Hspeed) as HN.
  assert (HNb : (newLength buffer speed <? 0)%Z = false) by (apply Z.ltb_ge; exact HN).
  rewrite Hnz, HNb. cbn [orb].
  pose proof (anaHop_nonneg speed Hspeed) as HA.
  set (N := newLength buffer speed) in *.
  set (A := anaHop speed) in *.
  set (nc := numberOfChannels buffer).
  destruct (while_ends (olaGuard N (frames buffer))
              (olaStep hanningWindow nc (channelData buffer) A)
              (fun s => exists T : nat,
                   ola_inPos s = (Z.of_nat T * A)%Z /\
                   ola_outPos s = (Z.of_nat T * hopSize)%Z /\
                   length (ola_outputData s) = nc /\
                   (forall t, (t < T)%nat -> turnAllowed N (frames buffer) A t) /\
                   forall k inCh outCh,
                     channelData buffer !! k = Some inCh ->
                     ola_outputData s !! k = Some outCh ->
                     channelAfter hanningWindow inCh A N T outCh)
              (fun s => Z.to_nat ((N - ola_outPos s) / hopSize)))
    with (fuel := Z.to_nat (N / hopSize))
         (s := mkOlaState 0 0 (replicate nc (replicate (Z.to_nat N) 0)))
    as (s' & Hw & (T & Hin & Hout & Hlen & Hturns & Hafter) & Hguard).
  - intros s (T & Hin & Hout & Hlen & Hturns & Hafter) Hguard.
    unfold olaGuard in Hguard. apply andb_true_iff in Hguard as [Hg1 Hg2].
    apply Z.ltb_lt in Hg1, Hg2. unfold olaStep.
    assert (Hallowed : turnAllowed N (frames buffer) A T).
    { split; [rewrite <- Hout | rewrite <- Hin]; assumption. }
    rewrite Hin, Hout.
    destruct (channelLoop_turn hanningWindow (frames buffer) N A T HA Hallowed
                (channelData buffer) Hchannels nc 0 (ola_outputData s))
      as (out & -> & Hlen' & Hafter'); [reflexivity | exact Hlen | exact Hafter |].
    cbn [bind]. eexists. split; [reflexivity|]. split.
    + exists (S T). cbn [ola_inPos ola_outPos ola_outputData].
      split; [lia|]. split; [lia|]. split; [exact Hlen'|]. split; [|exact Hafter'].
      intros t Ht. destruct (Nat.eq_dec t T) as [->|Hne]; [exact Hallowed|].
      apply Hturns. lia.
    + cbn [ola_outPos]. rewrite <- Hout in *.
      rewrite hopSize_value. unfold winSize in Hg1.
      Z.div_mod_to_equations. lia.
  - exists 0%nat. cbn [ola_inPos ola_outPos ola_outputData].
    split; [lia|]. split; [lia|]. split; [apply length_replicate|].
    split; [intros t Ht; lia|].
    intros k inCh outCh _ Hk. apply lookup_replicate in Hk as [-> _]. split.
    + rewrite length_replicate. lia.
    + intros j Hj. cbn [overlapAdd]. apply lookup_replicate_2. lia.
  - cbn [ola_outPos]. rewrite Z.sub_0_r. lia.
  - rewrite Hw. cbn [bind]. eexists. exists T. split; [reflexivity|].
    cbn [channelData]. split; [exact Hturns|]. split; [|split; [exact Hlen | exact Hafter]].
    intros [H1 H2]. unfold olaGuard in Hguard. rewrite Hin, Hout in Hguard.
    apply andb_false_iff in Hguard as [Hg|Hg]; apply Z.ltb_ge in Hg; lia.
Qed.

Lemma process_overlap_add_witness :
  exists out turns,
    process (fun _ => 1) Examples.ones 2 = Ok out /\
    (forall t, (t < turns)%nat ->
               turnAllowed (newLength Examples.ones 2) (frames Examples.ones) (anaHop 2) t) /\
    ~ turnAllowed (newLength Examples.ones 2) (frames Examples.ones) (anaHop 2) turns /\
    length (channelData out) = length (channelData Examples.ones) /\
    forall c inCh outCh,
      channelData Examples.ones !! c = Some inCh ->
      channelData out !! c = Some outCh ->
      channelAfter (fun _ => 1) inCh (anaHop 2) (newLength Examples.ones 2) turns outCh.
Proof.
  apply (process_overlap_add (fun _ => 1) Examples.ones 2).
  - split; [discriminate|]. constructor; [reflexivity | constructor].
  - reflexivity.
  - vm_compute. discriminate.
Defined.

End StretchProperties.

(** ** Tracks, timeline and result of [renderMix] *)

Module TimelineFacts.
Import WebAudio Types MixEngine TimelineShape.

Section Timeline.
Variable mathRandom : nat -> Q.
Variable style : MixStyle.

(** The timeline loop appends one event per track, in order; the event of
    the [k]-th remaining track carries the index [i + k], is built with the
    [k]-th next value of [Math.random] and knows whether a track follows;
    the first of these events starts at the cursor. *)
Lemma timelineLoop_events (rest : list ProcessedTrack) :
  forall (i : nat) (cursor : Q) (calls : nat) (acc : list TimelineEvent),
  exists evs,
    snd (timelineLoop mathRandom style i rest cursor calls acc) = acc ++ evs /\
    length evs = length rest /\
    (forall e, evs !! 0%nat = Some e -> startTime e = cursor) /\
    forall k e, evs !! k = Some e ->
      exists p, rest !! k = Some p /\
                e = timelineEvent mathRandom style (i + k) p
                                  (hasNextAt (length rest) k) (startTime e) (calls + k).
Proof.
  induction rest as [|pTrack rest IH]; intros i cursor calls acc.
  - exists []. cbn. rewrite app_nil_r. repeat split; intros; discriminate.
  - cbn [timelineLoop].
    set (hasNext := match rest with [] => false | _ => true end).
    set (e0 := timelineEvent mathRandom style i pTrack hasNext cursor calls).
    destruct (IH (S i)
                 (if hasNext then cursor + (eventDuration e0 - overlapTime e0)
                  else cursor + eventDuration e0)
                 (if hasNext then S calls else calls) (acc ++ [e0]))
      as (evs & Hsnd & Hlen & _ & Hevs).
    exists (e0 :: evs). rewrite Hsnd, <- app_assoc. split; [reflexivity|].
    split; [cbn; lia|]. split; [intros e [= <-]; reflexivity|].
    assert (Hnext : hasNext = hasNextAt (length (pTrack :: rest)) 0).
    { unfold hasNext, hasNextAt. destruct rest; reflexivity. }
    intros [|k] e Hk.
    + injection Hk as <-. exists pTrack. split; [reflexivity|].
      rewrite <- Hnext, !Nat.add_0_r. reflexivity.
    + cbn in Hk. destruct (Hevs k e Hk) as (p & Hp & He).
      exists p. split; [exact Hp|].
      assert (Hcalls : (if hasNext then S calls else calls) = S calls).
      { unfold hasNext. apply lookup_lt_Some in Hp. destruct rest; [cbn in Hp; lia | reflexivity]. }
      rewrite Hcalls in He.
      replace (i + S k)%nat with (S i + k)%nat by lia.
      replace (calls + S k)%nat with (S calls + k)%nat by lia.
      exact He.
Qed.

(** The same for the whole timeline. *)
Lemma buildTimeline_events (processedTracks : list ProcessedTrack) :
  length (snd (buildTimeline mathRandom style processedTracks))
  = length processedTracks /\
  (forall e, snd (buildTimeline mathRandom style processedTracks) !! 0%nat = Some e ->
             startTime e = 0) /\
  forall k e,
    snd (buildTimeline mathRandom style processedTracks) !! k = Some e ->
    exists p, processedTracks !! k = Some p /\
              e = timelineEvent mathRandom style k p
                                (hasNextAt (length processedTracks) k) (startTime e) k.
Proof.
  unfold buildTimeline.
  destruct (timelineLoop_events processedTracks 0 0 0 [])
    as (evs & -> & Hlen & Hfirst & Hevs).
  cbn [app]. split; [exact Hlen|]. split; [exact Hfirst|]. exact Hevs.
Qed.

End Timeline.

Section Prepare.
Variable hanningWindow : Z -> Q.

Lemma prepareTrack_Some (track : TrackMetadata) (p : ProcessedTrack) :
  prepareTrack hanningWindow track = Some p ->
  pt_metadata p = track /\
  pt_tempo p = TARGET_BPM / originalBpm track /\
  exists rawBuffer,
    file track = Some rawBuffer /\
    InternalTimeStretcher.process hanningWindow rawBuffer (pt_tempo p) = Ok (pt_buffer p).
Proof.
  unfold prepareTrack. destruct (file track) as [rawBuffer|]; [|discriminate].
  destruct (InternalTimeStretcher.process _ _ _) as [out| | |] eqn:E; try discriminate.
  intros [= <-]. cbn. eauto.
Qed.

(** Every processed track comes from one of the valid tracks. *)
Lemma prepareTracks_In (valid : list TrackMetadata) (p : ProcessedTrack) :
  In p (prepareTracks hanningWindow valid) ->
  exists track, In track valid /\ prepareTrack hanningWindow track = Some p.
Proof.
  induction valid as [|t valid IH]; cbn [prepareTracks]; [intros []|].
  destruct (prepareTrack hanningWindow t) as [p0|] eqn:E.
  - intros [<-|Hin].
    + exists t. split; [left; reflexivity | exact E].
    + destruct (IH Hin) as (track & Ht & Hp). exists track. split; [right|]; assumption.
  - intros Hin. destruct (IH Hin) as (track & Ht & Hp).
    exists track. split; [right|]; assumption.
Qed.

(** Every valid track that can be prepared is among the processed
    tracks. *)
Lemma prepareTracks_complete (valid : list TrackMetadata) (track : TrackMetadata)
      (p : ProcessedTrack) :
  In track valid -> prepareTrack hanningWindow track = Some p ->
  In p (prepareTracks hanningWindow valid).
Proof.
  induction valid as [|t valid IH]; cbn [prepareTracks]; [intros []|].
  intros [->|Hin] Hp.
  - rewrite Hp. left. reflexivity.
  - destruct (prepareTrack hanningWindow t); [right|]; auto.
Qed.

Lemma validTracks_In (tracks : list TrackMetadata) (t : TrackMetadata) :
  In t (validTracks tracks) <->
  In t tracks /\ status t = READY /\ 0 < originalBpm t.
Proof.
  unfold validTracks. rewrite filter_In, andb_true_iff, NumFacts.gtb_true.
  unfold isReady. destruct (status t); intuition congruence.
Qed.

Lemma prepareTracks_preparedFrom (tracks : list TrackMetadata) (p : ProcessedTrack) :
  In p (prepareTracks hanningWindow (validTracks tracks)) ->
  preparedFrom hanningWindow tracks p.
Proof.
  intros Hin. apply prepareTracks_In in Hin as (track & Hvalid & Hp).
  apply validTracks_In in Hvalid as (Htracks & Hready & Hbpm).
  apply prepareTrack_Some in Hp as (Hmeta & Htempo & raw & Hfile & Hproc).
  unfold preparedFrom. rewrite Hmeta. eauto 10.
Qed.

(** A valid track whose file decodes to a well-formed buffer is
    processed. *)
Lemma prepareTrack_succeeds (track : TrackMetadata) (rawBuffer : AudioBuffer) :
  file track = Some rawBuffer -> wellFormed rawBuffer -> 0 < originalBpm track ->
  exists p, prepareTrack hanningWindow track = Some p.
Proof.
  intros Hfile Hwf Hbpm. unfold prepareTrack. rewrite Hfile.
  assert (Htempo : 0 < TARGET_BPM / originalBpm track).
  { apply Qlt_shift_div_l; [assumption|]. unfold TARGET_BPM. lra. }
  destruct (Qlt_le_dec (Num.abs (TARGET_BPM / originalBpm track - 1)) (1 # 1000))
    as [Hnear|Hfar].
  - unfold InternalTimeStretcher.process.
    apply NumFacts.ltb_true in Hnear. rewrite Hnear. eauto.
  - destruct (InternalTimeStretcherFacts.process_runs hanningWindow rawBuffer _
                Hwf Htempo Hfar) as (out & -> & _). eauto.
Qed.

End Prepare.

Lemma lookup_map {A B : Type} (f : A -> B) (l : list A) (k : nat) :
  map f l !! k = f <$> l !! k.
Proof.
  revert k. induction l as [|a l IH]; intros [|k]; cbn; auto.
Qed.

Lemma last_map {A B : Type} (f : A -> B) (l : list A) :
  last (map f l) = f <$> last l.
Proof.
  rewrite !last_lookup, length_map. apply lookup_map.
Qed.

End TimelineFacts.

Module MixProperties.
Import WebAudio Types MixEngine TimelineShape TimelineFacts.

(** X9.  Whatever the style, a draw [Math.random() < 1] selects one of
    the techniques of the style's profile: the fallback after the loop is
    not reached, and a technique outside the profile is never chosen. *)
Theorem chooseTechnique_in_profile (style : MixStyle) (mathRandom : Q) :
  mathRandom < 1 ->
  In (chooseTechnique style mathRandom) (map fst (STYLE_PROFILES style)).
Proof.
  intros Hr. unfold chooseTechnique.
  destruct style; cbn [STYLE_PROFILES fold_left snd pickTechnique map fst];
    cmp_cases; cbn [In]; first [tauto | exfalso; lra].
Qed.

Lemma chooseTechnique_in_profile_witness :
  In (chooseTechnique CAROLA (1 # 2)) [LONG_BLEND; BASS_SWAP; SLOW_EQ_BLEND].
Proof.
  apply (chooseTechnique_in_profile CAROLA (1 # 2)). reflexivity.
Defined.

(** X10.  The timeline of [renderMix] has exactly one event per processed
    track, in the order of the tracks: the event at position [k] carries
    [trackIndex = k] and the stretched buffer of the [k]-th processed
    track, which stems from a track that is [READY] with a positive tempo
    and was stretched by [125 / originalBpm]; the first event starts at
    time 0. *)
Theorem timeline_follows_tracks (hanningWindow : Z -> Q) (mathRandom : nat -> Q)
        (style : MixStyle) (tracks : list TrackMetadata) :
  length (timelineOf hanningWindow mathRandom style tracks)
  = length (processedOf hanningWindow tracks) /\
  (forall e, timelineOf hanningWindow mathRandom style tracks !! 0%nat = Some e ->
             startTime e = 0) /\
  forall k e,
    timelineOf hanningWindow mathRandom style tracks !! k = Some e ->
    exists p,
      processedOf hanningWindow tracks !! k = Some p /\
      trackIndex e = k /\
      buffer e = pt_buffer p /\
      preparedFrom hanningWindow tracks p.
Proof.
  unfold timelineOf.
  destruct (buildTimeline_events mathRandom style (processedOf hanningWindow tracks))
    as (Hlen & Hfirst & Hevs).
  split; [exact Hlen|]. split; [exact Hfirst|].
  intros k e Hk. destruct (Hevs k e Hk) as (p & Hp & He).
  exists p. split; [exact Hp|].
  split; [rewrite He; reflexivity|]. split; [rewrite He; reflexivity|].
  apply prepareTracks_preparedFrom. apply list_elem_of_In.
  eapply list_elem_of_lookup_2. exact Hp.
Qed.

(** X11.  On every timeline, if every draw of [Math.random] is below 1:
    an event that has a successor carries a technique of the style's
    profile and the overlap [getOverlapBars(technique) * 1.92] seconds; the
    last event carries [SLOW_EQ_BLEND] and the overlap 0. *)
Theorem timeline_techniques (mathRandom : nat -> Q) (style : MixStyle)
        (processedTracks : list ProcessedTrack) :
  (forall n, mathRandom n < 1) ->
  forall k e,
    snd (buildTimeline mathRandom style processedTracks) !! k = Some e ->
    ((S k < length processedTracks)%nat ->
     In (technique e) (map fst (STYLE_PROFILES style)) /\
     overlapTime e == getOverlapBars (technique e) * (192 # 100)) /\
    (S k = length processedTracks ->
     technique e = SLOW_EQ_BLEND /\ overlapTime e == 0).
Proof.
  intros Hrandom k e Hk.
  destruct (buildTimeline_events mathRandom style processedTracks) as (_ & _ & Hevs).
  destruct (Hevs k e Hk) as (p & Hp & He).
  pose proof (f_equal technique He) as Htech.
  pose proof (f_equal overlapTime He) as Hover.
  cbn [timelineEvent technique overlapTime] in Htech, Hover.
  unfold hasNextAt in *. split; intros Hlen.
  - replace (S k <? length processedTracks)%nat with true in *
      by (symmetry; apply Nat.ltb_lt; exact Hlen).
    rewrite Hover, Htech. split.
    + destruct style; unfold chooseTechnique;
        cbn [STYLE_PROFILES fold_left snd pickTechnique map fst];
        pose proof (Hrandom k); cmp_cases; cbn [In]; first [tauto | exfalso; lra].
    + unfold BAR_DURATION, BEAT_DURATION, TARGET_BPM. field.
  - replace (S k <? length processedTracks)%nat with false in *
      by (symmetry; apply Nat.ltb_ge; lia).
    rewrite Hover, Htech. split; [reflexivity|].
    unfold BAR_DURATION, BEAT_DURATION, TARGET_BPM. field.
Qed.

Lemma timeline_techniques_witness :
  exists first second,
    snd (buildTimeline (fun _ => 1 # 2) MILLS
           (prepareTracks (fun _ => 1) (validTracks Examples.demoTracks)))
    = [first; second] /\
    In (technique first) (map fst (STYLE_PROFILES MILLS)) /\
    overlapTime first == getOverlapBars (technique first) * (192 # 100) /\
    technique second = SLOW_EQ_BLEND /\ overlapTime second == 0.
Proof.
  do 2 eexists. split; [reflexivity|].
  pose proof (timeline_techniques (fun _ => 1 # 2) MILLS
                (prepareTracks (fun _ => 1) (validTracks Examples.demoTracks))
                (fun _ => eq_refl)) as H.
  destruct (H 0%nat _ eq_refl) as [[H1 H2] _]; [apply Nat.ltb_lt; reflexivity|].
  destruct (H 1%nat _ eq_refl) as [_ [H3 H4]]; [reflexivity|].
  auto.
Defined.

(** X12.  Cue points are converted to stretched time: the event of a
    processed track plays its buffer from [cueStart * originalBpm / 125]
    to [cueEnd * originalBpm / 125]; when the track has no cue points, or
    its cue end is 0, it plays up to [duration * originalBpm / 125], and
    without cue points it plays from 0. *)
Theorem event_plays_scaled_cues (hanningWindow : Z -> Q) (mathRandom : nat -> Q)
        (style : MixStyle) (tracks : list TrackMetadata)
        (k : nat) (e : TimelineEvent) :
  timelineOf hanningWindow mathRandom style tracks !! k = Some e ->
  exists p,
    processedOf hanningWindow tracks !! k = Some p /\
    bufferOffsetStart e
    == from_option cueStart 0 (cuePoints (pt_metadata p))
       * (originalBpm (pt_metadata p) / 125) /\
    (forall c, cuePoints (pt_metadata p) = Some c -> ~ cueEnd c == 0 ->
               bufferOffsetEnd e == cueEnd c * (originalBpm (pt_metadata p) / 125)) /\
    (cuePoints (pt_metadata p) = None
     \/ (exists c, cuePoints (pt_metadata p) = Some c /\ cueEnd c == 0) ->
     bufferOffsetEnd e
     == duration (pt_metadata p) * (originalBpm (pt_metadata p) / 125)).
Proof.
  intros Hk. unfold timelineOf in Hk.
  destruct (buildTimeline_events mathRandom style (processedOf hanningWindow tracks))
    as (_ & _ & Hevs).
  destruct (Hevs k e Hk) as (p & Hp & He).
  exists p. split; [exact Hp|].
  assert (Hprep : preparedFrom hanningWindow tracks p).
  { apply prepareTracks_preparedFrom. apply list_elem_of_In.
    eapply list_elem_of_lookup_2. exact Hp. }
  destruct Hprep as (_ & _ & Hbpm & Htempo & _).
  pose proof (f_equal bufferOffsetStart He) as Hstart.
  pose proof (f_equal bufferOffsetEnd He) as Hend.
  cbn [timelineEvent bufferOffsetStart bufferOffsetEnd] in Hstart, Hend.
  rewrite Htempo in Hstart, Hend. unfold TARGET_BPM in *.
  assert (Hscale : 1 / (125 / originalBpm (pt_metadata p))
                   == originalBpm (pt_metadata p) / 125) by (field; lra).
  clear He. unfold orElse in *. split; [|split].
  - rewrite Hstart, Hscale.
    destruct (Qeq_bool _ 0) eqn:E; [|reflexivity].
    apply Qeq_bool_iff in E. rewrite E. reflexivity.
  - intros c Hc Hnz. rewrite Hend, Hscale, Hc. cbn [from_option].
    destruct (Qeq_bool (cueEnd c) 0) eqn:E; [|reflexivity].
    apply Qeq_bool_iff in E. contradiction.
  - intros [Hnone|(c & Hc & Hz)]; rewrite Hend, Hscale.
    + rewrite Hnone. reflexivity.
    + rewrite Hc. cbn [from_option].
      apply Qeq_bool_iff in Hz. rewrite Hz. reflexivity.
Qed.

Lemma event_plays_scaled_cues_witness :
  exists e p,
    timelineOf (fun _ => 1) (fun _ => 1 # 2) MILLS Examples.demoTracks !! 0%nat = Some e /\
    processedOf (fun _ => 1) Examples.demoTracks !! 0%nat = Some p /\
    bufferOffsetStart e
    == from_option cueStart 0 (cuePoints (pt_metadata p))
       * (originalBpm (pt_metadata p) / 125) /\
    (forall c, cuePoints (pt_metadata p) = Some c -> ~ cueEnd c == 0 ->
               bufferOffsetEnd e == cueEnd c * (originalBpm (pt_metadata p) / 125)).
Proof.
  destruct (event_plays_scaled_cues (fun _ => 1) (fun _ => 1 # 2) MILLS
              Examples.demoTracks 0 _ eq_refl) as (p & Hp & Hstart & Hend & _).
  eexists. exists p. split; [reflexivity|]. auto.
Defined.

(** X13.  When some track is [READY] with a positive tempo but no file
    decodes, [renderMix] throws the error "Failed to process any tracks."
    and returns no result. *)
Theorem renderMix_no_track_decodes (hanningWindow : Z -> Q) (mathRandom : nat -> Q)
        (startRendering : list TimelineEvent -> Q -> AudioBuffer)
        (tracks : list TrackMetadata) (config : MixConfiguration) :
  Exists (fun t => status t = READY /\ 0 < originalBpm t) tracks ->
  Forall (fun t => file t = None) tracks ->
  renderMix hanningWindow mathRandom startRendering tracks config
  = Throw NoProcessedTracks
  /\ forall r : MixResult,
      renderMix hanningWindow mathRandom startRendering tracks config <> Ok r.
Proof.
  intros Hvalid Hfiles.
  assert (H : renderMix hanningWindow mathRandom startRendering tracks config
              = Throw NoProcessedTracks).
  { unfold renderMix.
    destruct (validTracks tracks) as [|v valid] eqn:Ev.
    - apply Exists_exists in Hvalid as (t & Hin & Hready & Hbpm).
      apply list_elem_of_In in Hin.
      assert (Hv : In t (validTracks tracks)) by (apply validTracks_In; auto).
      rewrite Ev in Hv. destruct Hv.
    - cbn [length Nat.eqb].
      replace (prepareTracks hanningWindow (v :: valid)) with (@nil ProcessedTrack);
        [reflexivity|].
      symmetry. destruct (prepareTracks hanningWindow (v :: valid)) as [|p ps] eqn:Ep;
        [reflexivity|].
      assert (Hp : In p (prepareTracks hanningWindow (v :: valid)))
        by (rewrite Ep; left; reflexivity).
      apply prepareTracks_In in Hp as (t & Ht & Hprep).
      rewrite <- Ev in Ht. apply validTracks_In in Ht as (Ht & _).
      rewrite Forall_forall in Hfiles.
      apply prepareTrack_Some in Hprep as (_ & _ & raw & Hraw & _).
      rewrite (Hfiles t) in Hraw; [discriminate|].
      apply list_elem_of_In. exact Ht. }
  split; [exact H|]. intros r. rewrite H. discriminate.
Qed.

Lemma renderMix_no_track_decodes_witness :
  renderMix (fun _ => 1) (fun _ => 1 # 2) (fun _ _ => Examples.demoBuffer)
            MoreExamples.undecodableTracks (mkMixConfiguration MILLS 125 32)
  = Throw NoProcessedTracks.
Proof.
  apply (renderMix_no_track_decodes (fun _ => 1) (fun _ => 1 # 2)
           (fun _ _ => Examples.demoBuffer) MoreExamples.undecodableTracks
           (mkMixConfiguration MILLS 125 32)).
  - constructor. split; reflexivity.
  - repeat constructor.
Defined.

(** X15.  A track whose tempo is within a thousandth of itself of the
    target, [|originalBpm - 125| * 1000 < originalBpm], is not stretched:
    the decoded buffer itself goes to the timeline, with the tempo
    [125 / originalBpm]. *)
Theorem near_target_track_unstretched (hanningWindow : Z -> Q)
        (track : TrackMetadata) (rawBuffer : AudioBuffer) :
  file track = Some rawBuffer -> 0 < originalBpm track ->
  Num.abs (originalBpm track - 125) * 1000 < originalBpm track ->
  prepareTrack hanningWindow track
  = Some (mkProcessedTrack rawBuffer track (TARGET_BPM / originalBpm track)).
Proof.
  intros Hfile Hbpm Hnear. unfold prepareTrack. rewrite Hfile.
  unfold InternalTimeStretcher.process, TARGET_BPM.
  replace (Num.ltb (Num.abs (125 / originalBpm track - 1)) (1 # 1000)) with true;
    [reflexivity|].
  symmetry. apply NumFacts.ltb_true.
  set (b := originalBpm track) in *.
  assert (Hlo : (999 # 1000) < 125 / b).
  { apply Qlt_shift_div_l; [assumption|]. unfold Num.abs in Hnear.
    revert Hnear. cmp_cases; intros Hnear; lra. }
  assert (Hhi : 125 / b < 1001 # 1000).
  { apply Qlt_shift_div_r; [assumption|]. unfold Num.abs in Hnear.
    revert Hnear. cmp_cases; intros Hnear; lra. }
  unfold Num.abs. cmp_cases; lra.
Qed.

Lemma near_target_track_unstretched_witness :
  prepareTrack (fun _ => 1)
               (mkTrackMetadata "b" (Some Examples.demoBuffer) READY 125 240 None 1)
  = Some (mkProcessedTrack Examples.demoBuffer
            (mkTrackMetadata "b" (Some Examples.demoBuffer) READY 125 240 None 1)
            (TARGET_BPM / 125)).
Proof.
  apply (near_target_track_unstretched (fun _ => 1)
           (mkTrackMetadata "b" (Some Examples.demoBuffer) READY 125 240 None 1)
           Examples.demoBuffer).
  - reflexivity.
  - reflexivity.
  - reflexivity.
Defined.

End MixProperties.

(** ** Automation and scheduling *)

Module ScheduleFacts.
Import WebAudio Types MixEngine ScheduleSpec TimelineShape TimelineFacts.

Lemma BAR_DURATION_value : BAR_DURATION == 192 # 100.
Proof. reflexivity. Qed.

(** The loop schedules every event when each turn completes. *)
Lemma scheduleLoop_Ok (timelineEvents rest : list TimelineEvent) :
  (forall k e, rest !! k = Some e -> exists s, scheduleEvent timelineEvents e = Ok s) ->
  exists strips,
    scheduleLoop timelineEvents rest = Ok strips /\
    length strips = length rest /\
    forall k e, rest !! k = Some e ->
                exists s, strips !! k = Some s /\ scheduleEvent timelineEvents e = Ok s.
Proof.
  induction rest as [|event rest IH]; intros Hturn; cbn [scheduleLoop].
  - exists []. repeat split. intros k e Hk. discriminate Hk.
  - destruct (Hturn 0%nat event eq_refl) as (s & Hs). rewrite Hs. cbn [bind].
    destruct IH as (strips & -> & Hlen & Hstrips).
    { intros k e Hk. apply (Hturn (S k) e Hk). }
    cbn [bind]. exists (s :: strips). split; [reflexivity|]. split; [cbn; lia|].
    intros [|k] e Hk.
    + injection Hk as <-. exists s. auto.
    + apply (Hstrips k e Hk).
Qed.

Section OnTimeline.
Variable mathRandom : nat -> Q.
Variable style : MixStyle.
Variable processedTracks : list ProcessedTrack.

Local Abbreviation timeline := (snd (buildTimeline mathRandom style processedTracks)).

Lemma trackIndex_on_timeline (k : nat) (e : TimelineEvent) :
  timeline !! k = Some e -> trackIndex e = k.
Proof.
  intros Hk.
  destruct (buildTimeline_events mathRandom style processedTracks) as (_ & _ & Hevs).
  destruct (Hevs k e Hk) as (p & _ & ->). reflexivity.
Qed.

End OnTimeline.

Lemma checkTime_Ok (time : Q) : 0 <= time -> checkTime time = Ok tt.
Proof.
  intros H. unfold checkTime.
  replace (Num.ltb time 0) with false by (symmetry; apply NumFacts.ltb_false; exact H).
  reflexivity.
Qed.

Lemma checkTime_Throw (time : Q) : time < 0 -> checkTime time = Throw RangeError.
Proof.
  intros H. unfold checkTime.
  replace (Num.ltb time 0) with true by (symmetry; apply NumFacts.ltb_true; exact H).
  reflexivity.
Qed.

Lemma checkTime_outcome (time : Q) : returnsOrRangeError (checkTime time).
Proof.
  unfold checkTime. destruct (Num.ltb time 0); [right | left; eexists]; reflexivity.
Qed.

Lemma bind_outcome {A B : Type} (r : result A) (k : A -> result B) :
  returnsOrRangeError r -> (forall a, returnsOrRangeError (k a)) ->
  returnsOrRangeError (bind r k).
Proof.
  intros [(a & ->)| ->] Hk; cbn [bind]; [apply Hk | right; reflexivity].
Qed.

Lemma Ok_outcome {A : Type} (a : A) : returnsOrRangeError (Ok a).
Proof. left. eexists. reflexivity. Qed.

Lemma callAutomation_outcome (call : Automation) :
  returnsOrRangeError (callAutomation call).
Proof.
  destruct call; cbn [callAutomation];
    try apply checkTime_outcome; try apply Ok_outcome.
  destruct (Qeq_bool value 0); [right; reflexivity | apply checkTime_outcome].
Qed.

Lemma callAll_outcome (calls : list Automation) : returnsOrRangeError (callAll calls).
Proof.
  induction calls as [|call rest IH]; cbn [callAll]; [apply Ok_outcome|].
  apply bind_outcome; [apply callAutomation_outcome | intros _; exact IH].
Qed.

Lemma automate_outcome (calls : list Automation) : returnsOrRangeError (automate calls).
Proof.
  unfold automate. apply bind_outcome; [apply callAll_outcome | intros _; apply Ok_outcome].
Qed.

Lemma startAndStop_outcome (source : Playback) :
  returnsOrRangeError (startAndStop source).
Proof.
  unfold startAndStop, sourceStart, sourceStop.
  repeat (apply bind_outcome; [try apply checkTime_outcome | intros _]);
    try apply checkTime_outcome; apply Ok_outcome.
Qed.

(** A source with times that are not negative is started and stopped. *)
Lemma startAndStop_Ok (source : Playback) :
  0 <= pb_when source -> 0 <= pb_offset source -> 0 <= pb_stop source ->
  startAndStop source = Ok source.
Proof.
  intros Hw Ho Hs. unfold startAndStop, sourceStart, sourceStop.
  rewrite !checkTime_Ok by assumption. reflexivity.
Qed.

(** Calls that the platform accepts one by one are accepted in sequence. *)
Lemma automate_Ok (calls : list Automation) :
  Forall (fun call => callAutomation call = Ok tt) calls -> automate calls = Ok calls.
Proof.
  intros H. unfold automate.
  assert (E : callAll calls = Ok tt).
  { induction H as [|call rest Hcall _ IH]; cbn [callAll]; [reflexivity|].
    rewrite Hcall. exact IH. }
  rewrite E. reflexivity.
Qed.

Lemma exponentialRamp_Ok (param : StripParam) (value time : Q) :
  ~ value == 0 -> 0 <= time ->
  callAutomation (exponentialRampToValueAtTime param value time) = Ok tt.
Proof.
  intros Hv Ht. cbn [callAutomation].
  replace (Qeq_bool value 0) with false.
  - now apply checkTime_Ok.
  - symmetry. apply not_true_iff_false. rewrite Qeq_bool_iff. exact Hv.
Qed.

(** With the overlap that the timeline assigns to a technique, a pass
    that starts at a time that is not negative makes only calls that the
    platform accepts. *)
Lemma applyStemAutomation_Ok (tech : TransitionTechnique) (isOutgoing : bool)
      (start baseGain : Q) :
  0 <= start ->
  automate (applyStemAutomation tech isOutgoing start
                                (getOverlapBars tech * BAR_DURATION) baseGain)
  = Ok (applyStemAutomation tech isOutgoing start
                            (getOverlapBars tech * BAR_DURATION) baseGain).
Proof.
  intros Hstart. apply automate_Ok. pose proof BAR_DURATION_value as Hbar.
  destruct tech, isOutgoing; cbn [applyStemAutomation negb app getOverlapBars];
    repeat constructor;
    first [ reflexivity
          | apply checkTime_Ok; lra
          | apply exponentialRamp_Ok; [intros E; discriminate E | lra] ].
Qed.

(** The loop returns or throws a [RangeError] when each of its turns
    does; it throws when one of them does. *)
Lemma scheduleLoop_outcome (timelineEvents rest : list TimelineEvent) :
  (forall k e, rest !! k = Some e ->
               returnsOrRangeError (scheduleEvent timelineEvents e)) ->
  returnsOrRangeError (scheduleLoop timelineEvents rest) /\
  forall k e, rest !! k = Some e ->
              scheduleEvent timelineEvents e = Throw RangeError ->
              scheduleLoop timelineEvents rest = Throw RangeError.
Proof.
  induction rest as [|event rest IH]; intros Hturn; cbn [scheduleLoop].
  - split; [apply Ok_outcome | intros k e Hk; discriminate Hk].
  - destruct IH as [IH1 IH2].
    { intros k e Hk. apply (Hturn (S k) e Hk). }
    split.
    + apply bind_outcome; [apply (Hturn 0%nat event eq_refl) | intros strip].
      apply bind_outcome; [exact IH1 | intros strips; apply Ok_outcome].
    + intros [|k] e Hk Hthrow.
      * injection Hk as <-. rewrite Hthrow. reflexivity.
      * destruct (Hturn 0%nat event eq_refl) as [(strip & ->)| ->]; [|reflexivity].
        cbn [bind]. rewrite (IH2 k e Hk Hthrow). reflexivity.
Qed.

(** An event of positive duration that starts at a negative time: the
    platform refuses [source.start]. *)
Lemma scheduleEvent_negative_start (timelineEvents : list TimelineEvent)
      (e : TimelineEvent) :
  0 < eventDuration e -> startTime e < 0 ->
  scheduleEvent timelineEvents e = Throw RangeError.
Proof.
  intros Hdur Hstart. unfold scheduleEvent. fold (eventDuration e).
  apply NumFacts.gtb_true in Hdur. rewrite Hdur.
  unfold startAndStop, sourceStart. cbn [pb_when pb_offset pb_stop].
  rewrite (checkTime_Throw _ Hstart). reflexivity.
Qed.

Section Scheduling.
Variable mathRandom : nat -> Q.
Variable style : MixStyle.
Variable processedTracks : list ProcessedTrack.

Local Abbreviation timeline := (snd (buildTimeline mathRandom style processedTracks)).

(** The overlap of an event that has a successor is the one of its
    technique. *)
Lemma overlapTime_on_timeline (k : nat) (e : TimelineEvent) :
  timeline !! k = Some e -> (S k < length timeline)%nat ->
  overlapTime e = getOverlapBars (technique e) * BAR_DURATION.
Proof.
  intros Hk Hlt.
  destruct (buildTimeline_events mathRandom style processedTracks) as (Hlen & _ & Hevs).
  destruct (Hevs k e Hk) as (p & _ & ->). unfold hasNextAt. rewrite <- Hlen.
  replace (S k <? length timeline)%nat with true by (symmetry; apply Nat.ltb_lt; exact Hlt).
  reflexivity.
Qed.

(** A turn of the scheduling loop on an event of the timeline returns or
    throws a [RangeError]: the previous event is found. *)
Lemma scheduleEvent_outcome (k : nat) (e : TimelineEvent) :
  timeline !! k = Some e -> returnsOrRangeError (scheduleEvent timeline e).
Proof.
  intros Hk. pose proof (trackIndex_on_timeline mathRandom style processedTracks k e Hk)
    as Hidx.
  assert (Hlt : (k < length timeline)%nat) by (eapply lookup_lt_Some; exact Hk).
  unfold scheduleEvent. rewrite Hidx.
  destruct (Num.gtb _ 0); [|apply Ok_outcome].
  apply bind_outcome; [apply startAndStop_outcome | intros source].
  apply bind_outcome; [apply automate_outcome | intros first].
  apply bind_outcome.
  { destruct k as [|k']; cbn [Nat.eqb negb]; [apply Ok_outcome|].
    destruct (lookup_lt_is_Some_2 timeline (S k' - 1)) as [prev Hprev]; [lia|].
    rewrite Hprev. apply automate_outcome. }
  intros incoming. apply bind_outcome.
  { destruct (negb _); [apply automate_outcome | apply Ok_outcome]. }
  intros outgoing. apply bind_outcome; [|intros tail; apply Ok_outcome].
  destruct (negb _ && _); [|apply Ok_outcome].
  apply bind_outcome; [apply startAndStop_outcome | intros loopSource; apply Ok_outcome].
Qed.

(** A turn of the scheduling loop on an event of a timeline whose events
    have times that are not negative: every call is accepted, and the
    turn returns the strip described here. *)
Lemma scheduleEvent_on_timeline (k : nat) (e : TimelineEvent) :
  Forall schedulable timeline ->
  timeline !! k = Some e ->
  exists incoming,
    (if (k =? 0)%nat then Some []
     else (fun prevEvent =>
             applyStemAutomation (technique prevEvent) false (startTime e)
                                 (overlapTime prevEvent) (gain e))
            <$> timeline !! (k - 1)%nat) = Some incoming /\
    scheduleEvent timeline e
    = if Num.gtb (eventDuration e) 0 then
        Ok (Some (mkStripSchedule
                    (mkPlayback (buffer e) None (startTime e) (bufferOffsetStart e)
                                (startTime e + eventDuration e))
                    ([setValueAtTime channelGain_gain (gain e) (startTime e)]
                     ++ incoming
                     ++ (if (S k <? length timeline)%nat then
                           applyStemAutomation (technique e) true
                             (startTime e + eventDuration e - overlapTime e)
                             (overlapTime e) (gain e)
                         else []))
                    (if (S k <? length timeline)%nat
                        && (needsLoopTail (technique e)
                            && Num.gtb (bufferLoopEnd e) (bufferLoopStart e))
                     then Some (mkPlayback (buffer e)
                                  (Some (bufferLoopStart e, bufferLoopEnd e))
                                  (startTime e + eventDuration e) (bufferLoopStart e)
                                  (startTime e + eventDuration e + tailLen (technique e)))
                     else None)))
      else Ok None.
Proof.
  intros Hall Hk.
  pose proof (trackIndex_on_timeline mathRandom style processedTracks k e Hk) as Hidx.
  assert (Hlt : (k < length timeline)%nat) by (eapply lookup_lt_Some; exact Hk).
  assert (Hsched : forall j x, timeline !! j = Some x -> schedulable x).
  { intros j x Hj. rewrite Forall_forall in Hall. apply Hall.
    eapply list_elem_of_lookup_2. exact Hj. }
  destruct (Hsched k e Hk) as (Hstart & Hoffset & Hloop & Htrans).
  fold (eventDuration e) in Htrans.
  assert (Hin : exists incoming,
             (if (k =? 0)%nat then Some []
              else (fun prevEvent =>
                      applyStemAutomation (technique prevEvent) false (startTime e)
                                          (overlapTime prevEvent) (gain e))
                     <$> timeline !! (k - 1)%nat) = Some incoming /\
             (if negb (k =? 0)%nat then
                match timeline !! (k - 1)%nat with
                | Some prevEvent =>
                    automate (applyStemAutomation (technique prevEvent) false (startTime e)
                                                  (overlapTime prevEvent) (gain e))
                | None => OutOfBounds
                end
              else Ok []) = Ok incoming).
  { destruct k as [|k']; [eexists; split; reflexivity|]. cbn [Nat.eqb negb].
    destruct (lookup_lt_is_Some_2 timeline (S k' - 1)) as [prev Hprev]; [lia|].
    rewrite Hprev. eexists. split; [reflexivity|].
    rewrite (overlapTime_on_timeline (S k' - 1) prev Hprev) by lia.
    now apply applyStemAutomation_Ok. }
  destruct Hin as (incoming & Hin & Hcall). exists incoming. split; [exact Hin|].
  unfold scheduleEvent. fold (eventDuration e). rewrite Hidx.
  destruct (Num.gtb (eventDuration e) 0) eqn:Hdur; [|reflexivity].
  apply NumFacts.gtb_true in Hdur.
  rewrite startAndStop_Ok by (cbn [pb_when pb_offset pb_stop]; lra). cbn [bind].
  rewrite automate_Ok
    by (repeat constructor; cbn [callAutomation]; now apply checkTime_Ok).
  cbn [bind]. rewrite Hcall. cbn [bind].
  replace (negb (Z.of_nat k =? Z.of_nat (length timeline) - 1)%Z)
    with (S k <? length timeline)%nat.
  2:{ destruct (Nat.ltb_spec (S k) (length timeline));
      destruct (Z.eqb_spec (Z.of_nat k) (Z.of_nat (length timeline) - 1));
      try reflexivity; lia. }
  destruct (Nat.ltb_spec (S k) (length timeline)) as [Hnext|Hlast];
    cbn [andb bind]; [|reflexivity].
  rewrite (overlapTime_on_timeline k e Hk Hnext) in *.
  rewrite applyStemAutomation_Ok by exact Htrans.
  cbn [bind].
  destruct (needsLoopTail (technique e) && Num.gtb (bufferLoopEnd e) (bufferLoopStart e));
    [|reflexivity].
  rewrite startAndStop_Ok; [reflexivity | | |]; cbn [pb_when pb_offset pb_stop];
    try lra.
  assert (0 <= tailLen (technique e)) by (destruct (technique e); cbn; lra). lra.
Qed.

(** The scheduling loop on a timeline: refused, and accepted. *)
Lemma scheduleEvents_Throw :
  (exists k e, timeline !! k = Some e /\ 0 < eventDuration e /\ startTime e < 0) ->
  scheduleEvents timeline = Throw RangeError.
Proof.
  intros (k & e & Hk & Hdur & Hstart). unfold scheduleEvents.
  destruct (scheduleLoop_outcome timeline timeline) as [_ Hthrow].
  { intros j x Hj. now apply (scheduleEvent_outcome j). }
  apply (Hthrow k e Hk). now apply scheduleEvent_negative_start.
Qed.

Lemma scheduleEvents_Ok :
  Forall schedulable timeline -> exists strips, scheduleEvents timeline = Ok strips.
Proof.
  intros Hall. unfold scheduleEvents.
  destruct (scheduleLoop_Ok timeline timeline) as (strips & Hloop & _).
  { intros k e Hk.
    destruct (scheduleEvent_on_timeline k e Hall Hk) as (incoming & _ & ->).
    destruct (Num.gtb (eventDuration e) 0); eexists; reflexivity. }
  eauto.
Qed.

End Scheduling.

End ScheduleFacts.

Module AutomationProperties.
Import WebAudio Types MixEngine ScheduleSpec ScheduleFacts.

(** X16.  The exponential ramps of [applyStemAutomation] are ones that
    the Web Audio API can follow: whatever the technique, the direction,
    the window and the base gain [baseGain > 0], every
    [exponentialRampToValueAtTime] call aims at a positive value (never at
    zero), and the call before it on the same parameter has left that
    parameter at a positive value (20 Hz for the filter sweep, [baseGain]
    for the echo cut). *)
Theorem exponential_ramps_are_positive (tech : TransitionTechnique)
        (isOutgoing : bool) (start duration baseGain : Q) :
  0 < baseGain ->
  rampsArePositive (applyStemAutomation tech isOutgoing start duration baseGain).
Proof.
  intros Hgain i p v t Hi.
  destruct tech, isOutgoing; cbn [applyStemAutomation negb app] in Hi;
    do 11 (try (destruct i as [|i]; [try discriminate Hi|]));
    try discriminate Hi;
    injection Hi as <- <- <-; (split; [reflexivity|]);
    eexists; (split; [reflexivity|]); first [assumption | reflexivity].
Qed.

Lemma exponential_ramps_are_positive_witness :
  rampsArePositive (applyStemAutomation ECHO_OUT true 100 (768 # 100) 1).
Proof.
  apply (exponential_ramps_are_positive ECHO_OUT true 100 (768 # 100) 1).
  reflexivity.
Defined.

(** X17.  Every recipe fades the channel in or out.  On the outgoing
    pass the first call on the channel fader sets it to [baseGain] at
    [start] and the last one is a ramp down to 0, or to 0.001 for the echo
    techniques; on the incoming pass the first call sets the fader to 0 at
    [start] and the last one is a linear ramp up to [baseGain]. *)
Theorem recipes_fade_out_and_in (tech : TransitionTechnique)
        (start duration baseGain : Q) :
  (head (gainCalls (applyStemAutomation tech true start duration baseGain))
   = Some (setValueAtTime channelGain_gain baseGain start) /\
   exists a v,
     last (gainCalls (applyStemAutomation tech true start duration baseGain)) = Some a /\
     isRamp a = true /\ valueOf a = Some v /\ 0 <= v /\ v <= 1 # 1000) /\
  (head (gainCalls (applyStemAutomation tech false start duration baseGain))
   = Some (setValueAtTime channelGain_gain 0 start) /\
   exists t,
     last (gainCalls (applyStemAutomation tech false start duration baseGain))
     = Some (linearRampToValueAtTime channelGain_gain baseGain t)).
Proof.
  destruct tech; cbn; (split; [split; [reflexivity|] | split; [reflexivity|]]);
    try (do 2 eexists; repeat split; try reflexivity; discriminate);
    eexists; reflexivity.
Qed.

(** X18.  With the overlap that the timeline assigns to a technique,
    [getOverlapBars(tech) * BAR_DURATION], every timed call of either pass
    of [applyStemAutomation] takes effect inside the transition window,
    between [start] and [start + duration]: the fixed offsets of the
    recipes (1, 2, 4 and 10 seconds, 0.1 second around the swap and drop
    points) fit the overlaps of the table, also the zero overlap of
    [HARD_CUT]. *)
Theorem automation_inside_transition_window (tech : TransitionTechnique)
        (isOutgoing : bool) (start baseGain : Q) :
  withinWindow start (start + getOverlapBars tech * BAR_DURATION)
    (applyStemAutomation tech isOutgoing start
                         (getOverlapBars tech * BAR_DURATION) baseGain).
Proof.
  unfold withinWindow. pose proof BAR_DURATION_value as Hbar.
  destruct tech, isOutgoing; cbn [applyStemAutomation negb app getOverlapBars];
    repeat constructor; cbn [timeOf]; try exact I; lra.
Qed.

End AutomationProperties.

Module ScheduleProperties.
Import WebAudio Types MixEngine ScheduleSpec TimelineShape TimelineFacts
       ScheduleFacts MoreExamples.

(** X19.  The two passes of a transition are aligned.  On a timeline of
    [renderMix] whose events have times that are not negative (start
    time, offsets, start of the outgoing pass), for an event [this] with a
    successor [next], both of positive duration, the scheduling of both is
    accepted; the outgoing pass on [this] and the
    incoming pass on [next] apply the same technique, [this.technique],
    over the same duration, [this.overlapTime]; the outgoing pass starts at
    [this.startTime + wallDuration - this.overlapTime] and the incoming
    pass at [next.startTime], which the timeline has computed as
    [this.startTime + (eventDuration - this.overlapTime)]: the same instant
    in exact arithmetic, in two groupings of the same sum; the main source
    of [this] stops at [this.startTime + wallDuration], that is
    [this.overlapTime] after [next] has started. *)
Theorem transition_passes_aligned (mathRandom : nat -> Q) (style : MixStyle)
        (processedTracks : list ProcessedTrack)
        (k : nat) (this next : TimelineEvent) :
  Forall schedulable (snd (buildTimeline mathRandom style processedTracks)) ->
  snd (buildTimeline mathRandom style processedTracks) !! k = Some this ->
  snd (buildTimeline mathRandom style processedTracks) !! S k = Some next ->
  0 < eventDuration this -> 0 < eventDuration next ->
  exists stripThis stripNext before after,
    scheduleEvent (snd (buildTimeline mathRandom style processedTracks)) this
    = Ok (Some stripThis) /\
    scheduleEvent (snd (buildTimeline mathRandom style processedTracks)) next
    = Ok (Some stripNext) /\
    automation stripThis
    = before ++ applyStemAutomation (technique this) true
                  (startTime this + eventDuration this - overlapTime this)
                  (overlapTime this) (gain this) /\
    automation stripNext
    = setValueAtTime channelGain_gain (gain next) (startTime next)
      :: applyStemAutomation (technique this) false (startTime next)
           (overlapTime this) (gain next)
      ++ after /\
    startTime next = startTime this + (eventDuration this - overlapTime this) /\
    startTime this + eventDuration this - overlapTime this == startTime next /\
    pb_when (mainSource stripNext) = startTime next /\
    pb_stop (mainSource stripThis) = startTime this + eventDuration this /\
    pb_stop (mainSource stripThis) == startTime next + overlapTime this.
Proof.
  intros Hall Hthis Hnext Hdur Hdur'.
  assert (Hlen : (S k < length (snd (buildTimeline mathRandom style processedTracks)))%nat)
    by (eapply lookup_lt_Some; exact Hnext).
  destruct (scheduleEvent_on_timeline mathRandom style processedTracks k this Hall Hthis)
    as (incoming & _ & Hs).
  destruct (scheduleEvent_on_timeline mathRandom style processedTracks (S k) next
              Hall Hnext)
    as (incoming' & Hin' & Hs').
  apply NumFacts.gtb_true in Hdur, Hdur'. rewrite Hdur in Hs. rewrite Hdur' in Hs'.
  replace (S k <? _)%nat with true in Hs by (symmetry; apply Nat.ltb_lt; exact Hlen).
  cbn [Nat.eqb] in Hin'. replace (S k - 1)%nat with k in Hin' by lia.
  rewrite Hthis in Hin'. injection Hin' as <-.
  do 2 eexists.
  exists ([setValueAtTime channelGain_gain (gain this) (startTime this)] ++ incoming).
  eexists.
  split; [exact Hs|]. split; [exact Hs'|].
  cbn [automation mainSource pb_stop pb_when].
  split; [now rewrite <- app_assoc|]. split; [reflexivity|].
  destruct (MixEngineFacts.timelineLoop_linked mathRandom style processedTracks 0 0 0 [])
    as [Hpairs _].
  { split; [intros i a b Ha; discriminate Ha | intros _ e He; discriminate He]. }
  fold (buildTimeline mathRandom style processedTracks) in Hpairs.
  rewrite (Hpairs k this next Hthis Hnext).
  split; [reflexivity|]. split; [ring|]. split; [reflexivity|].
  split; [reflexivity | ring].
Qed.

Lemma transition_passes_aligned_witness :
  exists this next stripThis stripNext,
    snd (buildTimeline (fun _ => 1 # 2) MILLS
           (prepareTracks (fun _ => 1) (validTracks Examples.demoTracks)))
    = [this; next] /\
    scheduleEvent [this; next] this = Ok (Some stripThis) /\
    scheduleEvent [this; next] next = Ok (Some stripNext) /\
    startTime this + eventDuration this - overlapTime this == startTime next /\
    pb_when (mainSource stripNext) = startTime next /\
    pb_stop (mainSource stripThis) == startTime next + overlapTime this.
Proof.
  edestruct (transition_passes_aligned (fun _ => 1 # 2) MILLS
               (prepareTracks (fun _ => 1) (validTracks Examples.demoTracks)) 0)
    as (stripThis & stripNext & before & after & Hs & Hs' & _ & _ & _ & H1 & H2 & _ & H3).
  - repeat constructor; vm_compute; discriminate.
  - reflexivity.
  - reflexivity.
  - reflexivity.
  - reflexivity.
  - do 2 eexists. exists stripThis, stripNext.
    split; [reflexivity|]. split; [exact Hs|]. split; [exact Hs'|]. auto.
Defined.

(** X20.  The scheduling loop of [renderMix] returns or throws a
    [RangeError], on every timeline that [renderMix] builds (the previous
    event it looks up always exists).  It throws when an event of positive
    duration starts at a negative time, which [source.start] refuses.  It
    returns when the events have times that are not negative (start time,
    offsets, start of the outgoing pass), and then it has handled each
    event: an event whose duration is not positive is
    skipped, nothing is scheduled for it; any other event plays its buffer
    from [bufferOffsetStart] for its duration, starting at [startTime]; a
    loop tail is added exactly when the event is not the last one, its
    technique is [LOOP_ECHO], [ECHO_OUT] or [DROP_SWAP] and its loop region
    is not empty, and then the tail starts when the main source stops,
    loops over the loop region and lasts 16 seconds for [LOOP_ECHO] and 8
    seconds otherwise. *)
Theorem schedule_covers_timeline (mathRandom : nat -> Q) (style : MixStyle)
        (processedTracks : list ProcessedTrack) :
  returnsOrRangeError
    (scheduleEvents (snd (buildTimeline mathRandom style processedTracks))) /\
  ((exists k e,
       snd (buildTimeline mathRandom style processedTracks) !! k = Some e /\
       0 < eventDuration e /\ startTime e < 0) ->
   scheduleEvents (snd (buildTimeline mathRandom style processedTracks))
   = Throw RangeError) /\
  (Forall schedulable (snd (buildTimeline mathRandom style processedTracks)) ->
   exists strips,
     scheduleEvents (snd (buildTimeline mathRandom style processedTracks)) = Ok strips /\
     length strips = length (snd (buildTimeline mathRandom style processedTracks)) /\
     forall k e,
       snd (buildTimeline mathRandom style processedTracks) !! k = Some e ->
       (eventDuration e <= 0 -> strips !! k = Some None) /\
       (0 < eventDuration e ->
        exists strip,
          strips !! k = Some (Some strip) /\
          mainSource strip
          = mkPlayback (buffer e) None (startTime e) (bufferOffsetStart e)
                       (startTime e + eventDuration e) /\
          (loopTail strip <> None <->
           (S k < length (snd (buildTimeline mathRandom style processedTracks)))%nat /\
           needsLoopTail (technique e) = true /\
           bufferLoopStart e < bufferLoopEnd e) /\
          forall tail,
            loopTail strip = Some tail ->
            pb_loop tail = Some (bufferLoopStart e, bufferLoopEnd e) /\
            pb_offset tail = bufferLoopStart e /\
            pb_when tail = pb_stop (mainSource strip) /\
            pb_stop tail
            = pb_when tail + (match technique e with LOOP_ECHO => 16 | _ => 8 end))).
Proof.
  unfold scheduleEvents.
  destruct (scheduleLoop_outcome (snd (buildTimeline mathRandom style processedTracks))
              (snd (buildTimeline mathRandom style processedTracks)))
    as [Houtcome Hthrow].
  { intros k e Hk. now apply (scheduleEvent_outcome mathRandom style processedTracks k). }
  split; [exact Houtcome|]. split.
  { intros (k & e & Hk & Hdur & Hstart). apply (Hthrow k e Hk).
    now apply scheduleEvent_negative_start. }
  intros Hall.
  destruct (scheduleLoop_Ok (snd (buildTimeline mathRandom style processedTracks))
              (snd (buildTimeline mathRandom style processedTracks)))
    as (strips & Hloop & Hlen & Hstrips).
  { intros k e Hk.
    destruct (scheduleEvent_on_timeline mathRandom style processedTracks k e Hall Hk)
      as (incoming & _ & ->).
    destruct (Num.gtb (eventDuration e) 0); eexists; reflexivity. }
  exists strips. split; [exact Hloop|]. split; [exact Hlen|].
  intros k e Hk. destruct (Hstrips k e Hk) as (s & Hs & Hevent).
  destruct (scheduleEvent_on_timeline mathRandom style processedTracks k e Hall Hk)
    as (incoming & _ & Hshape).
  rewrite Hshape in Hevent. clear Hshape. split.
  - intros Hdur. apply NumFacts.gtb_false in Hdur. rewrite Hdur in Hevent.
    injection Hevent as <-. exact Hs.
  - intros Hdur. apply NumFacts.gtb_true in Hdur. rewrite Hdur in Hevent.
    injection Hevent as <-. eexists. split; [exact Hs|].
    cbn [mainSource loopTail pb_stop]. split; [reflexivity|]. split.
    + destruct (Nat.ltb_spec (S k)
                  (length (snd (buildTimeline mathRandom style processedTracks))))
        as [Hlt|Hge]; cbn [andb].
      * destruct (needsLoopTail (technique e)); cbn [andb].
        -- destruct (Num.gtb (bufferLoopEnd e) (bufferLoopStart e)) eqn:Hg.
           ++ apply NumFacts.gtb_true in Hg. split; [auto | discriminate].
           ++ apply NumFacts.gtb_false in Hg. split; [congruence|].
              intros (_ & _ & Habs). exfalso. lra.
        -- split; [congruence | intros (_ & Habs & _); discriminate].
      * split; [congruence | intros (Habs & _); lia].
    + intros tail Htail.
      destruct ((S k <? length (snd (buildTimeline mathRandom style processedTracks)))%nat
                && (needsLoopTail (technique e)
                    && Num.gtb (bufferLoopEnd e) (bufferLoopStart e)));
        [|discriminate].
      injection Htail as <-. cbn [pb_loop pb_offset pb_when pb_stop].
      repeat split.
Qed.

Lemma schedule_covers_timeline_witness :
  (exists strips,
      scheduleEvents
        (snd (buildTimeline (fun _ => 1 # 2) MILLS
                (prepareTracks (fun _ => 1) (validTracks Examples.demoTracks))))
      = Ok strips /\ length strips = 2%nat) /\
  scheduleEvents
    (snd (buildTimeline (fun _ => 1 # 10) CAROLA
            (prepareTracks (fun _ => 1) (validTracks shortTracks))))
  = Throw RangeError.
Proof.
  split.
  - destruct (schedule_covers_timeline (fun _ => 1 # 2) MILLS
                (prepareTracks (fun _ => 1) (validTracks Examples.demoTracks)))
      as (_ & _ & Hok).
    destruct Hok as (strips & Hs & Hlen & _).
    + repeat constructor; vm_compute; discriminate.
    + exists strips. split; [exact Hs | exact Hlen].
  - destruct (schedule_covers_timeline (fun _ => 1 # 10) CAROLA
                (prepareTracks (fun _ => 1) (validTracks shortTracks)))
      as (_ & Hthrow & _).
    apply Hthrow. exists 1%nat. eexists. split; [reflexivity|].
    split; vm_compute; reflexivity.
Defined.

(** X14.  When at least one track is [READY] with a positive tempo and a
    file that decodes to a well-formed buffer, and the offline context
    renders a buffer with at least one channel, the scheduling decides the
    outcome of [renderMix].  It throws a [RangeError] when an event of
    positive duration starts at a negative time (a transition that is
    longer than what the track before it plays).  It returns a result when
    the events have times that are not negative (start time, offsets,
    start of the outgoing pass): the context is rendered for at least 10
    seconds; the blob is the WAV encoding of the whole rendered buffer, 44
    bytes of header and two bytes per channel and frame; the metadata
    lists the start time and the technique of every timeline event, the
    first start time being 0 and the last technique [SLOW_EQ_BLEND]. *)
Theorem renderMix_outcome (hanningWindow : Z -> Q) (mathRandom : nat -> Q)
        (startRendering : list TimelineEvent -> Q -> AudioBuffer)
        (tracks : list TrackMetadata) (config : MixConfiguration)
        (track : TrackMetadata) (rawBuffer : AudioBuffer) :
  In track tracks -> status track = READY -> 0 < originalBpm track ->
  file track = Some rawBuffer -> wellFormed rawBuffer ->
  (forall events seconds,
      channelData (startRendering events seconds) <> [] /\
      (0 <= frames (startRendering events seconds))%Z) ->
  ((exists k e,
       timelineOf hanningWindow mathRandom (style config) tracks !! k = Some e /\
       0 < eventDuration e /\ startTime e < 0) ->
   renderMix hanningWindow mathRandom startRendering tracks config
   = Throw RangeError) /\
  (Forall schedulable (timelineOf hanningWindow mathRandom (style config) tracks) ->
   exists r totalDuration,
     renderMix hanningWindow mathRandom startRendering tracks config = Ok r /\
     10 <= totalDuration /\
     bufferToWave
       (startRendering (timelineOf hanningWindow mathRandom (style config) tracks)
                       totalDuration)
       0 (frames (startRendering
                    (timelineOf hanningWindow mathRandom (style config) tracks)
                    totalDuration))
     = Ok (blob r) /\
     Z.of_nat (length (blob r))
     = (44 + 2 * Z.of_nat (numberOfChannels
                             (startRendering
                                (timelineOf hanningWindow mathRandom (style config) tracks)
                                totalDuration))
             * frames (startRendering
                         (timelineOf hanningWindow mathRandom (style config) tracks)
                         totalDuration))%Z /\
     transitionPoints r
     = map startTime (timelineOf hanningWindow mathRandom (style config) tracks) /\
     techniquesUsed r
     = map technique (timelineOf hanningWindow mathRandom (style config) tracks) /\
     head (transitionPoints r) = Some 0 /\
     last (techniquesUsed r) = Some SLOW_EQ_BLEND /\
     mixStyle r = style config).
Proof.
  intros Hin Hready Hbpm Hfile Hwf Hrender.
  destruct (prepareTrack_succeeds hanningWindow track rawBuffer Hfile Hwf Hbpm)
    as (p & Hp).
  assert (Hvalid : In track (validTracks tracks)) by (apply validTracks_In; auto).
  pose proof (prepareTracks_complete hanningWindow _ _ _ Hvalid Hp) as Hprocessed.
  unfold timelineOf, processedOf. unfold renderMix.
  destruct (validTracks tracks) as [|v valid] eqn:Ev; [destruct Hvalid|].
  cbn [length Nat.eqb].
  destruct (prepareTracks hanningWindow (v :: valid)) as [|p0 ps] eqn:Ep;
    [destruct Hprocessed|].
  cbn [length Nat.eqb].
  destruct (buildTimeline_events mathRandom (style config) (p0 :: ps))
    as (Hlen & Hfirst & Hevs).
  pose proof (scheduleEvents_Throw mathRandom (style config) (p0 :: ps)) as Hthrow.
  pose proof (scheduleEvents_Ok mathRandom (style config) (p0 :: ps)) as Hok.
  destruct (buildTimeline mathRandom (style config) (p0 :: ps)) as [cursor events].
  cbn [snd] in *. split.
  { intros Hbad. rewrite (Hthrow Hbad). reflexivity. }
  intros Hall. destruct (Hok Hall) as (strips & ->). cbn [bind].
  set (totalDuration := Num.max (cursor + 10) 10).
  destruct (Hrender events totalDuration) as [Hchannels Hframes].
  rewrite (WaveFacts.bufferToWave_bytes _ 0 _ Hframes Hchannels). cbn [bind].
  eexists. exists totalDuration. split; [reflexivity|].
  cbn [blob transitionPoints techniquesUsed mixStyle].
  split; [unfold totalDuration, Num.max; cmp_cases; lra|].
  split; [exact (WaveFacts.bufferToWave_bytes _ 0 _ Hframes Hchannels)|].
  split.
  { rewrite length_app, WaveFacts.length_headerBytes, WaveFacts.length_dataBytes.
    unfold numberOfChannels. lia. }
  split; [reflexivity|]. split; [reflexivity|].
  destruct events as [|e0 events']; [discriminate Hlen|].
  split.
  - cbn [map head]. now rewrite (Hfirst e0 eq_refl).
  - split; [|reflexivity].
    rewrite last_map, last_lookup.
    destruct (lookup_lt_is_Some_2 (e0 :: events') (Init.Nat.pred (length (e0 :: events'))))
      as [e He]; [cbn; lia|].
    rewrite He. cbn [fmap option_fmap option_map]. f_equal.
    destruct (Hevs _ e He) as (q & _ & Heq).
    rewrite Heq. cbn [timelineEvent technique]. unfold hasNextAt.
    rewrite <- Hlen.
    replace (S (Init.Nat.pred (length (e0 :: events'))) <? length (e0 :: events'))%nat
      with false; [reflexivity|].
    symmetry. apply Nat.ltb_ge. cbn. lia.
Qed.

Lemma renderMix_outcome_witness :
  (exists r totalDuration,
      renderMix (fun _ => 1) (fun _ => 1 # 2) (fun _ _ => Examples.demoBuffer)
                Examples.demoTracks (mkMixConfiguration MILLS 125 32) = Ok r /\
      10 <= totalDuration /\
      Z.of_nat (length (blob r)) = 52%Z /\
      head (transitionPoints r) = Some 0 /\
      last (techniquesUsed r) = Some SLOW_EQ_BLEND) /\
  renderMix (fun _ => 1) (fun _ => 1 # 10) (fun _ _ => Examples.demoBuffer)
            shortTracks (mkMixConfiguration CAROLA 125 32)
  = Throw RangeError.
Proof.
  split.
  - destruct (renderMix_outcome (fun _ => 1) (fun _ => 1 # 2)
                (fun _ _ => Examples.demoBuffer) Examples.demoTracks
                (mkMixConfiguration MILLS 125 32)
                (mkTrackMetadata "b" (Some Examples.demoBuffer) READY 125 240 None 1)
                Examples.demoBuffer)
      as (_ & Hok).
    + right. right. left. reflexivity.
    + reflexivity.
    + reflexivity.
    + reflexivity.
    + split; [discriminate|]. repeat constructor.
    + intros events seconds. split; [discriminate | discriminate].
    + destruct Hok as (r & d & Hr & Hd & _ & Hlen & _ & _ & Hhead & Hlast & _).
      * repeat constructor; vm_compute; discriminate.
      * exists r, d. auto.
  - destruct (renderMix_outcome (fun _ => 1) (fun _ => 1 # 10)
                (fun _ _ => Examples.demoBuffer) shortTracks
                (mkMixConfiguration CAROLA 125 32)
                (mkTrackMetadata "a" (Some Examples.demoBuffer) READY 125 100
                   (Some (mkCuePoints 0 95 (mkLoopRegion 64 80))) 1)
                Examples.demoBuffer)
      as (Hthrow & _).
    + left. reflexivity.
    + reflexivity.
    + reflexivity.
    + reflexivity.
    + split; [discriminate|]. repeat constructor.
    + intros events seconds. split; [discriminate | discriminate].
    + apply Hthrow. exists 1%nat. eexists. split; [reflexivity|].
      split; vm_compute; reflexivity.
Defined.

End ScheduleProperties.

(** ** The WAV file, read back *)

Module WaveReadingFacts.
Import WebAudio Types MixEngine WaveSpec WaveReading WaveFacts.

Lemma uint32_of_littleEndian (v : Z) :
  (0 <= v < 4294967296)%Z ->
  (v mod 256 + 256 * (v / 256 mod 256) + 65536 * (v / 256 / 256 mod 256)
   + 16777216 * (v / 256 / 256 / 256 mod 256) = v)%Z.
Proof. intros Hv. Z.div_mod_to_equations. lia. Qed.

Lemma uint16_of_littleEndian (v : Z) :
  (0 <= v < 65536)%Z -> (v mod 256 + 256 * (v / 256 mod 256) = v)%Z.
Proof. intros Hv. Z.div_mod_to_equations. lia. Qed.

Lemma int16_of_littleEndian (v : Z) (rest : list Z) :
  (- 32768 <= v <= 32767)%Z -> getInt16 (littleEndian 2 v ++ rest) 0 = Some v.
Proof.
  intros Hv. unfold getInt16, getUint16. cbn [littleEndian app drop take].
  f_equal. destruct (Z.ltb_spec (v mod 256 + 256 * (v / 256 mod 256)) 32768);
    Z.div_mod_to_equations; lia.
Qed.

(** The fields of the header, read back from the bytes. *)
Lemma header_fields (numOfChan sampleRate size : Z) (data : list Z) :
  (1 <= numOfChan < 32768)%Z ->
  (0 <= sampleRate)%Z -> (sampleRate * 2 * numOfChan < 4294967296)%Z ->
  (44 <= size < 4294967296)%Z ->
  take 4 (headerBytes numOfChan sampleRate size ++ data) = asciiBytes "RIFF" /\
  getUint32 (headerBytes numOfChan sampleRate size ++ data) 4 = Some (size - 8)%Z /\
  take 4 (drop 8 (headerBytes numOfChan sampleRate size ++ data)) = asciiBytes "WAVE" /\
  take 4 (drop 12 (headerBytes numOfChan sampleRate size ++ data)) = asciiBytes "fmt " /\
  getUint32 (headerBytes numOfChan sampleRate size ++ data) 16 = Some 16%Z /\
  getUint16 (headerBytes numOfChan sampleRate size ++ data) 20 = Some 1%Z /\
  getUint16 (headerBytes numOfChan sampleRate size ++ data) 22 = Some numOfChan /\
  getUint32 (headerBytes numOfChan sampleRate size ++ data) 24 = Some sampleRate /\
  getUint32 (headerBytes numOfChan sampleRate size ++ data) 28
  = Some (sampleRate * 2 * numOfChan)%Z /\
  getUint16 (headerBytes numOfChan sampleRate size ++ data) 32 = Some (numOfChan * 2)%Z /\
  getUint16 (headerBytes numOfChan sampleRate size ++ data) 34 = Some 16%Z /\
  take 4 (drop 36 (headerBytes numOfChan sampleRate size ++ data)) = asciiBytes "data" /\
  getUint32 (headerBytes numOfChan sampleRate size ++ data) 40 = Some (size - 44)%Z.
Proof.
  intros Hc Hr Hbr Hsize.
  assert (Hr' : (sampleRate < 4294967296)%Z) by nia.
  unfold headerBytes, getUint32, getUint16. cbn [littleEndian app drop take].
  repeat match goal with |- _ /\ _ => split end; try reflexivity; f_equal.
  - apply uint32_of_littleEndian. lia.
  - apply uint16_of_littleEndian. lia.
  - apply uint32_of_littleEndian. lia.
  - apply uint32_of_littleEndian. nia.
  - apply uint16_of_littleEndian. lia.
  - replace (size - 40 - 4)%Z with (size - 44)%Z by lia.
    apply uint32_of_littleEndian. lia.
Qed.

(** Every encoded sample is a signed 16-bit value. *)
Lemma encodeSample_range (x : option Q) : (- 32768 <= encodeSample x <= 32767)%Z.
Proof.
  destruct x as [x|]; cbn [encodeSample]; [|lia].
  destruct (WaveClaims.clamp_range x) as [Hlo Hhi]. set (s := clamp x) in *.
  unfold toPCM16. destruct (Num.ltb ((1 # 2) + s) 0) eqn:E.
  - apply NumFacts.ltb_true in E.
    assert (Hb : (- 32768 <= Num.trunc (s * 32768) <= 0)%Z).
    { apply WaveClaims.trunc_between;
        [change (inject_Z (-32768)) with (-32768) | change (inject_Z 0) with 0]; lra. }
    rewrite WaveClaims.toInt32_small; lia.
  - apply NumFacts.ltb_false in E.
    assert (Hb : (- 16384 <= Num.trunc (s * 32767) <= 32767)%Z).
    { apply WaveClaims.trunc_between;
        [change (inject_Z (-16384)) with (-16384) | change (inject_Z 32767) with 32767]; lra. }
    rewrite WaveClaims.toInt32_small; lia.
Qed.

(** The two bytes of channel [i + c] within a frame. *)
Lemma frameBytes_sample (channels : list (list Q)) (offset : Z) (rest : list Z) (n : nat) :
  forall (i c : nat),
    (c < n)%nat ->
    exists tail,
      drop (2 * c) (frameBytes channels offset i n ++ rest)
      = littleEndian 2 (encodeSample (sampleAt channels (i + c) offset)) ++ tail.
Proof.
  unfold frameBytes. induction n as [|n IH]; intros i c Hc; [lia|].
  cbn [seq flat_map]. destruct c as [|c].
  - rewrite Nat.add_0_r, <- app_assoc. cbn [Nat.mul drop]. eauto.
  - replace (2 * S c)%nat with (S (S (2 * c))) by lia.
    destruct (IH (S i) c ltac:(lia)) as (tail & Htail). exists tail.
    replace (i + S c)%nat with (S i + c)%nat by lia.
    rewrite <- Htail. reflexivity.
Qed.

(** The frames of the data chunk, one after the other. *)
Lemma dataBytes_frame (channels : list (list Q)) (offset : Z) (len k : nat) :
  (k < len)%nat ->
  exists rest,
    dataBytes channels offset len
    = dataBytes channels offset k
      ++ frameBytes channels (offset + Z.of_nat k) 0 (length channels) ++ rest.
Proof.
  induction len as [|len IH]; intros Hk; [lia|].
  rewrite dataBytes_S. destruct (Nat.eq_dec k len) as [->|Hne].
  - exists []. now rewrite app_nil_r.
  - destruct IH as (rest & ->); [lia|]. rewrite <- !app_assoc. eauto.
Qed.

(** The sample of frame [k] and channel [c], read back from the data
    chunk. *)
Lemma dataBytes_sample (channels : list (list Q)) (offset : Z) (len k c : nat)
      (header : list Z) :
  length header = 44%nat -> (k < len)%nat -> (c < length channels)%nat ->
  getInt16 (header ++ dataBytes channels offset len) (44 + 2 * (k * length channels + c))
  = Some (encodeSample (sampleAt channels c (offset + Z.of_nat k))).
Proof.
  intros Hheader Hk Hc.
  destruct (dataBytes_frame channels offset len k Hk) as (rest & Hdata).
  destruct (frameBytes_sample channels (offset + Z.of_nat k) rest (length channels) 0 c Hc)
    as (tail & Hframe).
  assert (Hdrop : drop (44 + 2 * (k * length channels + c))
                       (header ++ dataBytes channels offset len)
                  = littleEndian 2 (encodeSample (sampleAt channels c (offset + Z.of_nat k)))
                    ++ tail).
  { rewrite Hdata. rewrite drop_app_add' by (symmetry; exact Hheader).
    replace (2 * (k * length channels + c))%nat
      with (length (dataBytes channels offset k) + 2 * c)%nat
      by (rewrite length_dataBytes; lia).
    rewrite drop_app_add' by reflexivity. exact Hframe. }
  unfold getInt16, getUint16. rewrite Hdrop.
  change (getInt16 (littleEndian 2 (encodeSample (sampleAt channels c (offset + Z.of_nat k)))
                    ++ tail) 0
          = Some (encodeSample (sampleAt channels c (offset + Z.of_nat k)))).
  apply int16_of_littleEndian. apply encodeSample_range.
Qed.

Lemma trunc_monotone (x y : Q) : x <= y -> (Num.trunc x <= Num.trunc y)%Z.
Proof.
  intros Hxy. unfold Num.trunc. cmp_cases.
  - now apply Qceiling_resp_le.
  - assert (H1 : (Qceiling x <= 0)%Z).
    { change 0%Z with (Qceiling 0). apply Qceiling_resp_le. lra. }
    assert (H2 : (0 <= Qfloor y)%Z).
    { change 0%Z with (Qfloor 0). now apply Qfloor_resp_le. }
    lia.
  - lra.
  - now apply Qfloor_resp_le.
Qed.

(** The three cases of the clamp. *)
Lemma clamp_cases (x : Q) :
  (x <= - (1) /\ clamp x == - (1)) \/ (- (1) <= x /\ x <= 1 /\ clamp x == x)
  \/ (1 <= x /\ clamp x == 1).
Proof.
  unfold clamp, Num.min.
  destruct (Num.leb 1 x) eqn:E1;
    [apply NumFacts.leb_true in E1 | apply NumFacts.leb_false in E1];
    unfold Num.max.
  - replace (Num.leb (-1) 1) with true by reflexivity.
    right. right. split; [assumption | reflexivity].
  - destruct (Num.leb (-1) x) eqn:E2;
      [apply NumFacts.leb_true in E2 | apply NumFacts.leb_false in E2].
    + right. left. split; [assumption|]. split; [lra | reflexivity].
    + left. split; [lra | reflexivity].
Qed.

Lemma clamp_monotone (x y : Q) : x <= y -> clamp x <= clamp y.
Proof.
  intros Hxy.
  destruct (clamp_cases x) as [[Hx ->]|[(Hx & Hx' & ->)|[Hx ->]]];
    destruct (clamp_cases y) as [[Hy ->]|[(Hy & Hy' & ->)|[Hy ->]]]; lra.
Qed.

Lemma toPCM16_unfold (s : Q) :
  - (1) <= s -> s <= 1 ->
  toPCM16 s = if Num.ltb ((1 # 2) + s) 0 then Num.trunc (s * 32768)
              else Num.trunc (s * 32767).
Proof.
  intros Hlo Hhi. unfold toPCM16. destruct (Num.ltb ((1 # 2) + s) 0) eqn:E.
  - apply NumFacts.ltb_true in E. apply WaveClaims.toInt32_small.
    assert (Hb : (- 32768 <= Num.trunc (s * 32768) <= 0)%Z).
    { apply WaveClaims.trunc_between;
        [change (inject_Z (-32768)) with (-32768) | change (inject_Z 0) with 0]; lra. }
    lia.
  - apply NumFacts.ltb_false in E. apply WaveClaims.toInt32_small.
    assert (Hb : (- 16384 <= Num.trunc (s * 32767) <= 32767)%Z).
    { apply WaveClaims.trunc_between;
        [change (inject_Z (-16384)) with (-16384) | change (inject_Z 32767) with 32767]; lra. }
    lia.
Qed.

End WaveReadingFacts.

Module WaveProperties.
Import WebAudio Types MixEngine WaveSpec WaveReading WaveFacts WaveReadingFacts.

(** X21.  The layout of the file.  For every buffer with at least one
    channel and every [len >= 0] such that the file stays below 4 GiB (and
    the channel count and byte rate fit their fields), [bufferToWave]
    returns [44 + 2 * numberOfChannels * len] bytes that start with a
    canonical 44-byte header: "RIFF", the file size minus 8, "WAVE",
    "fmt ", chunk size 16, format 1 (PCM), the channel count, the sample
    rate, the byte rate [sampleRate * 2 * channels], the block size
    [2 * channels], 16 bits per sample, "data", and the size of the data
    that follow, [2 * channels * len]. *)
Theorem wav_layout (abuffer : AudioBuffer) (offset len : Z) :
  (0 <= len)%Z ->
  (1 <= Z.of_nat (numberOfChannels abuffer) < 32768)%Z ->
  (0 <= sampleRate abuffer)%Z ->
  (sampleRate abuffer * 2 * Z.of_nat (numberOfChannels abuffer) < 4294967296)%Z ->
  (len * Z.of_nat (numberOfChannels abuffer) * 2 + 44 < 4294967296)%Z ->
  exists bytes,
    bufferToWave abuffer offset len = Ok bytes /\
    Z.of_nat (length bytes) = (44 + 2 * Z.of_nat (numberOfChannels abuffer) * len)%Z /\
    take 4 bytes = asciiBytes "RIFF" /\
    getUint32 bytes 4 = Some (Z.of_nat (length bytes) - 8)%Z /\
    take 4 (drop 8 bytes) = asciiBytes "WAVE" /\
    take 4 (drop 12 bytes) = asciiBytes "fmt " /\
    getUint32 bytes 16 = Some 16%Z /\
    getUint16 bytes 20 = Some 1%Z /\
    getUint16 bytes 22 = Some (Z.of_nat (numberOfChannels abuffer)) /\
    getUint32 bytes 24 = Some (sampleRate abuffer) /\
    getUint32 bytes 28
    = Some (sampleRate abuffer * 2 * Z.of_nat (numberOfChannels abuffer))%Z /\
    getUint16 bytes 32 = Some (Z.of_nat (numberOfChannels abuffer) * 2)%Z /\
    getUint16 bytes 34 = Some 16%Z /\
    take 4 (drop 36 bytes) = asciiBytes "data" /\
    getUint32 bytes 40 = Some (Z.of_nat (length bytes) - 44)%Z.
Proof.
  intros Hlen Hnc Hrate Hbyterate Hsize.
  assert (Hch : channelData abuffer <> []).
  { unfold numberOfChannels in Hnc. destruct (channelData abuffer); [cbn in Hnc; lia|].
    discriminate. }
  eexists. split; [apply (bufferToWave_bytes abuffer offset len Hlen Hch)|].
  assert (Hbytes : Z.of_nat (length (headerBytes (Z.of_nat (numberOfChannels abuffer))
                                       (sampleRate abuffer)
                                       (len * Z.of_nat (numberOfChannels abuffer) * 2 + 44)
                                     ++ dataBytes (channelData abuffer) offset (Z.to_nat len)))
                   = (len * Z.of_nat (numberOfChannels abuffer) * 2 + 44)%Z).
  { rewrite length_app, length_headerBytes, length_dataBytes.
    unfold numberOfChannels. lia. }
  rewrite Hbytes.
  destruct (header_fields (Z.of_nat (numberOfChannels abuffer)) (sampleRate abuffer)
              (len * Z.of_nat (numberOfChannels abuffer) * 2 + 44)
              (dataBytes (channelData abuffer) offset (Z.to_nat len)))
    as (H0 & H4 & H8 & H12 & H16 & H20 & H22 & H24 & H28 & H32 & H34 & H36 & H40);
    [lia | lia | lia | nia |].
  split; [lia|]. repeat split; assumption.
Qed.

Lemma wav_layout_witness :
  exists bytes,
    bufferToWave Examples.demoBuffer 0 2 = Ok bytes /\
    Z.of_nat (length bytes) = 52%Z /\
    take 4 bytes = asciiBytes "RIFF" /\
    getUint32 bytes 4 = Some 44%Z /\
    getUint16 bytes 22 = Some 2%Z /\
    getUint32 bytes 28 = Some 176400%Z /\
    getUint32 bytes 40 = Some 8%Z.
Proof.
  destruct (wav_layout Examples.demoBuffer 0 2)
    as (bytes & Hb & Hlen & H0 & H4 & _ & _ & _ & _ & H22 & _ & H28 & _ & _ & _ & H40);
    [lia | cbn; lia | cbn; lia | cbn; lia | cbn; lia |].
  exists bytes. change (44 + 2 * Z.of_nat (numberOfChannels Examples.demoBuffer) * 2)%Z
    with 52%Z in Hlen.
  rewrite Hlen in H4, H40. repeat split; assumption.
Defined.

(** X22.  The samples can be read back.  For every buffer with at least
    one channel, every [len >= 0], every frame [k < len] and every channel
    [c], the signed 16-bit little-endian value at byte
    [44 + 2 * (k * numberOfChannels + c)] of the file is the encoding of
    the sample [offset + k] of channel [c]: frames are interleaved, channel
    0 first, and a frame beyond the end of the buffer reads as 0. *)
Theorem wav_samples_read_back (abuffer : AudioBuffer) (offset len : Z) (k c : nat) :
  (0 <= offset)%Z ->
  (Z.of_nat k < len)%Z -> (c < numberOfChannels abuffer)%nat ->
  exists bytes,
    bufferToWave abuffer offset len = Ok bytes /\
    getInt16 bytes (44 + 2 * (k * numberOfChannels abuffer + c))
    = Some (encodeSample (sampleAt (channelData abuffer) c (offset + Z.of_nat k))) /\
    (forall ch, channelData abuffer !! c = Some ch ->
                (Z.of_nat (length ch) <= offset + Z.of_nat k)%Z ->
                getInt16 bytes (44 + 2 * (k * numberOfChannels abuffer + c)) = Some 0%Z).
Proof.
  intros Hoff Hk Hc.
  assert (Hch : channelData abuffer <> []).
  { unfold numberOfChannels in Hc. destruct (channelData abuffer); [cbn in Hc; lia|].
    discriminate. }
  eexists. split; [apply (bufferToWave_bytes abuffer offset len ltac:(lia) Hch)|].
  assert (Hread : getInt16
            (headerBytes (Z.of_nat (numberOfChannels abuffer)) (sampleRate abuffer)
                         (len * Z.of_nat (numberOfChannels abuffer) * 2 + 44)
             ++ dataBytes (channelData abuffer) offset (Z.to_nat len))
            (44 + 2 * (k * numberOfChannels abuffer + c))
          = Some (encodeSample (sampleAt (channelData abuffer) c (offset + Z.of_nat k)))).
  { apply dataBytes_sample; [reflexivity | lia | exact Hc]. }
  split; [exact Hread|].
  intros ch Hlookup Hbeyond. rewrite Hread. f_equal.
  unfold sampleAt.
  replace (offset + Z.of_nat k <? 0)%Z with false by (symmetry; apply Z.ltb_ge; lia).
  rewrite Hlookup. cbn [fmap option_fmap option_map mjoin option_join].
  rewrite (proj2 (lookup_ge_None ch _)) by lia. reflexivity.
Qed.

Lemma wav_samples_read_back_witness :
  exists bytes,
    bufferToWave (mkAudioBuffer 44100 1 [[- (1 # 4)]]) 0 2 = Ok bytes /\
    getInt16 bytes 44 = Some (- 8191)%Z /\
    getInt16 bytes 46 = Some 0%Z.
Proof.
  destruct (wav_samples_read_back (mkAudioBuffer 44100 1 [[- (1 # 4)]]) 0 2 0 0)
    as (bytes & Hb & H0 & _); [lia | lia | cbn; lia |].
  destruct (wav_samples_read_back (mkAudioBuffer 44100 1 [[- (1 # 4)]]) 0 2 1 0)
    as (bytes' & Hb' & _ & H1); [lia | lia | cbn; lia |].
  rewrite Hb in Hb'. injection Hb' as <-.
  exists bytes. split; [exact Hb|]. split; [exact H0|].
  apply (H1 [- (1 # 4)]); [reflexivity | cbn; lia].
Defined.

(** X23.  The sample encoding keeps the order and saturates: a larger
    sample never gets a smaller code (no wrap-around, also across the
    change of scale at -0.5); every sample at or above 1 is written as
    32767 and every sample at or below -1 as -32768; 0 is written as 0. *)
Theorem sample_encoding_monotone (x y : Q) :
  (x <= y -> (encodeSample (Some x) <= encodeSample (Some y))%Z) /\
  (1 <= x -> encodeSample (Some x) = 32767%Z) /\
  (x <= - (1) -> encodeSample (Some x) = (- 32768)%Z) /\
  (x == 0 -> encodeSample (Some x) = 0%Z).
Proof.
  cbn [encodeSample].
  destruct (WaveClaims.clamp_range x) as [Hxlo Hxhi].
  destruct (WaveClaims.clamp_range y) as [Hylo Hyhi].
  rewrite (toPCM16_unfold (clamp x) Hxlo Hxhi), (toPCM16_unfold (clamp y) Hylo Hyhi).
  split; [|split; [|split]].
  - intros Hxy.
    pose proof (clamp_monotone x y Hxy) as Hc.
    destruct (Num.ltb ((1 # 2) + clamp x) 0) eqn:Ex;
      destruct (Num.ltb ((1 # 2) + clamp y) 0) eqn:Ey;
      try apply NumFacts.ltb_true in Ex; try apply NumFacts.ltb_false in Ex;
      try apply NumFacts.ltb_true in Ey; try apply NumFacts.ltb_false in Ey.
    + apply trunc_monotone. lra.
    + assert (H1 : (Num.trunc (clamp x * 32768) <= Num.trunc (- 16384))%Z)
        by (apply trunc_monotone; lra).
      assert (H2 : (Num.trunc (- (163835 # 10)) <= Num.trunc (clamp y * 32767))%Z)
        by (apply trunc_monotone; lra).
      change (Num.trunc (- 16384)) with (- 16384)%Z in H1.
      change (Num.trunc (- (163835 # 10))) with (- 16383)%Z in H2. lia.
    + lra.
    + apply trunc_monotone. lra.
  - intros Hx.
    assert (Hc : clamp x == 1).
    { destruct (clamp_cases x) as [[Hx' E]|[(Hx' & Hx'' & E)|[Hx' E]]]; rewrite E; lra. }
    replace (Num.ltb ((1 # 2) + clamp x) 0) with false
      by (symmetry; apply NumFacts.ltb_false; lra).
    assert (H1 : (Num.trunc 32767 <= Num.trunc (clamp x * 32767))%Z)
      by (apply trunc_monotone; lra).
    assert (H2 : (Num.trunc (clamp x * 32767) <= Num.trunc 32767)%Z)
      by (apply trunc_monotone; lra).
    change (Num.trunc 32767) with 32767%Z in *. lia.
  - intros Hx.
    assert (Hc : clamp x == - (1)).
    { destruct (clamp_cases x) as [[Hx' E]|[(Hx' & Hx'' & E)|[Hx' E]]]; rewrite E; lra. }
    replace (Num.ltb ((1 # 2) + clamp x) 0) with true
      by (symmetry; apply NumFacts.ltb_true; lra).
    assert (H1 : (Num.trunc (- 32768) <= Num.trunc (clamp x * 32768))%Z)
      by (apply trunc_monotone; lra).
    assert (H2 : (Num.trunc (clamp x * 32768) <= Num.trunc (- 32768))%Z)
      by (apply trunc_monotone; lra).
    change (Num.trunc (- 32768)) with (- 32768)%Z in *. lia.
  - intros Hx.
    assert (Hc : clamp x == 0).
    { destruct (clamp_cases x) as [[Hx' E]|[(Hx' & Hx'' & E)|[Hx' E]]]; rewrite E; lra. }
    replace (Num.ltb ((1 # 2) + clamp x) 0) with false
      by (symmetry; apply NumFacts.ltb_false; lra).
    assert (H1 : (Num.trunc 0 <= Num.trunc (clamp x * 32767))%Z)
      by (apply trunc_monotone; lra).
    assert (H2 : (Num.trunc (clamp x * 32767) <= Num.trunc 0)%Z)
      by (apply trunc_monotone; lra).
    change (Num.trunc 0) with 0%Z in *. lia.
Qed.

Lemma sample_encoding_monotone_witness :
  (encodeSample (Some (- (6 # 10))%Q) <= encodeSample (Some (- (4 # 10))%Q))%Z /\
  encodeSample (Some (3 # 2)) = 32767%Z /\
  encodeSample (Some (- (3 # 2))) = (- 32768)%Z.
Proof.
  destruct (sample_encoding_monotone (- (6 # 10)) (- (4 # 10))) as (Hmono & _).
  destruct (sample_encoding_monotone (3 # 2) 0) as (_ & Hhi & _).
  destruct (sample_encoding_monotone (- (3 # 2)) 0) as (_ & _ & Hlo & _).
  split; [apply Hmono; discriminate|].
  split; [apply Hhi; discriminate | apply Hlo; discriminate].
Defined.

End WaveProperties.

(** ** Cue points and the analysis pipeline *)

Module AnalysisFacts.
Import Types AnalysisEngine CueSpec CueFacts.

(** With a positive tempo, a first downbeat inside the track and a
    non-empty energy profile, the cue points are in order. *)
Lemma detectCuePoints_in_order (beatGrid : BeatParser.BeatGrid) (energy : EnergyProfile)
      (duration : Q) :
  0 < duration ->
  0 < BeatParser.bpm beatGrid ->
  (forall d, head (BeatParser.downbeats beatGrid) = Some d -> 0 <= d /\ d < duration) ->
  low energy <> [] ->
  cuesInOrder duration (detectCuePoints beatGrid energy duration).
Proof.
  intros Hd Hbpm Hfirst Hnonempty. unfold cuesInOrder, detectCuePoints.
  replace (length (low energy) =? 0)%nat with false.
  2:{ symmetry. apply Nat.eqb_neq. destruct (low energy); [contradiction | discriminate]. }
  destruct (mainLoop _ _ _ _ _) as [mainSum mainCount].
  rewrite nearest_self.
  match goal with |- context [nearest ?ds ?t ?i] => generalize (nearest ds t i) end.
  intros nearestDownbeat.
  assert (Hspb : 0 < 60 / BeatParser.bpm beatGrid) by (apply Qlt_shift_div_l; lra).
  revert Hspb. generalize (60 / BeatParser.bpm beatGrid). intros secondsPerBeat Hspb.
  assert (Hstart : 0 <= match BeatParser.downbeats beatGrid with d :: _ => d | [] => 0 end
                   /\ match BeatParser.downbeats beatGrid with d :: _ => d | [] => 0 end
                      < duration).
  { destruct (BeatParser.downbeats beatGrid) as [|d ds]; [lra|].
    apply Hfirst. reflexivity. }
  revert Hstart.
  generalize (match BeatParser.downbeats beatGrid with d :: _ => d | [] => 0 end).
  intros startPoint [Hs0 Hs1].
  cbn [cueStart cueEnd loopRegion loopStart loopEnd].
  unfold Num.max, Num.abs. cmp_cases.
  all: repeat match goal with |- _ /\ _ => split end;
    try reflexivity; try lra; first [left; lra | right; lra].
Qed.

End AnalysisFacts.

Module AnalysisProperties.
Import Types AnalysisEngine CueSpec CueFacts AnalysisFacts.

(** X24.  The mix-out point lies in the last 40% of the track: for every
    duration > 0, every beat grid and every non-empty energy profile, the
    cue end returned by [detectCuePoints] is at least [0.6 * duration] and
    at most [duration]; it is the end of the loop region. *)
Theorem cue_end_in_last_part (beatGrid : BeatParser.BeatGrid) (energy : EnergyProfile)
        (duration : Q) :
  0 < duration -> low energy <> [] ->
  duration * (6 # 10) <= cueEnd (detectCuePoints beatGrid energy duration) /\
  cueEnd (detectCuePoints beatGrid energy duration) <= duration /\
  loopEnd (loopRegion (detectCuePoints beatGrid energy duration))
  = cueEnd (detectCuePoints beatGrid energy duration).
Proof.
  intros Hd Hnonempty. unfold detectCuePoints.
  replace (length (low energy) =? 0)%nat with false.
  2:{ symmetry. apply Nat.eqb_neq. destruct (low energy); [contradiction | discriminate]. }
  destruct (mainLoop _ _ _ _ _) as [mainSum mainCount].
  rewrite nearest_self.
  match goal with |- context [nearest ?ds ?t ?i] => generalize (nearest ds t i) end.
  intros nearestDownbeat.
  generalize (60 / BeatParser.bpm beatGrid). intros secondsPerBeat.
  generalize (match BeatParser.downbeats beatGrid with d :: _ => d | [] => 0 end).
  intros startPoint.
  cbn [cueStart cueEnd loopRegion loopStart loopEnd].
  unfold Num.max, Num.abs. cmp_cases.
  all: repeat match goal with |- _ /\ _ => split end; try reflexivity; lra.
Qed.

Lemma cue_end_in_last_part_witness :
  40 * (6 # 10) <= cueEnd (detectCuePoints (Examples.gridAt120 40) Examples.flatEnergy 40) /\
  cueEnd (detectCuePoints (Examples.gridAt120 40) Examples.flatEnergy 40) <= 40.
Proof.
  destruct (cue_end_in_last_part (Examples.gridAt120 40) Examples.flatEnergy 40)
    as (Hlo & Hhi & _).
  - reflexivity.
  - discriminate.
  - split; assumption.
Defined.

(** X25.  The loop region is the last four bars before the mix-out point:
    for every duration, every beat grid with a positive tempo and every
    non-empty energy profile, either the loop is exactly 16 beats long
    (16 * 60 / bpm seconds), ends at the cue end and does not start before
    the cue start, wherever the downbeats are (the snap to the nearest
    downbeat never moves the loop start), or its start was reset to
    [max(0, duration - 30)]. *)
Theorem loop_is_four_bars (beatGrid : BeatParser.BeatGrid) (energy : EnergyProfile)
        (duration : Q) :
  0 < BeatParser.bpm beatGrid -> low energy <> [] ->
  (loopEnd (loopRegion (detectCuePoints beatGrid energy duration))
   - loopStart (loopRegion (detectCuePoints beatGrid energy duration))
   == 16 * (60 / BeatParser.bpm beatGrid) /\
   cueStart (detectCuePoints beatGrid energy duration)
   <= loopStart (loopRegion (detectCuePoints beatGrid energy duration)))
  \/ loopStart (loopRegion (detectCuePoints beatGrid energy duration))
     == Num.max 0 (duration - 30).
Proof.
  intros Hbpm Hnonempty. unfold detectCuePoints.
  replace (length (low energy) =? 0)%nat with false.
  2:{ symmetry. apply Nat.eqb_neq. destruct (low energy); [contradiction | discriminate]. }
  destruct (mainLoop _ _ _ _ _) as [mainSum mainCount].
  rewrite nearest_self.
  match goal with |- context [nearest ?ds ?t ?i] => generalize (nearest ds t i) end.
  intros nearestDownbeat.
  assert (Hspb : 0 < 60 / BeatParser.bpm beatGrid) by (apply Qlt_shift_div_l; lra).
  revert Hspb. generalize (60 / BeatParser.bpm beatGrid). intros secondsPerBeat Hspb.
  generalize (match BeatParser.downbeats beatGrid with d :: _ => d | [] => 0 end).
  intros startPoint.
  cbn [cueStart cueEnd loopRegion loopStart loopEnd].
  unfold Num.abs. cmp_cases.
  all: first [ right; reflexivity | left; split; lra ].
Qed.

Lemma loop_is_four_bars_witness :
  (loopEnd (loopRegion (detectCuePoints (Examples.gridAt120 40) Examples.flatEnergy 40))
   - loopStart (loopRegion (detectCuePoints (Examples.gridAt120 40) Examples.flatEnergy 40))
   == 16 * (60 / BeatParser.bpm (Examples.gridAt120 40)) /\
   cueStart (detectCuePoints (Examples.gridAt120 40) Examples.flatEnergy 40)
   <= loopStart (loopRegion (detectCuePoints (Examples.gridAt120 40) Examples.flatEnergy 40)))
  \/ loopStart (loopRegion (detectCuePoints (Examples.gridAt120 40) Examples.flatEnergy 40))
     == Num.max 0 (40 - 30).
Proof.
  apply (loop_is_four_bars (Examples.gridAt120 40) Examples.flatEnergy 40).
  - reflexivity.
  - discriminate.
Defined.

End AnalysisProperties.

Module TempoFacts.
Import AnalysisEngine.



End TempoFacts.

Module PipelineProperties.
Import Types AnalysisEngine TempoSpec CueSpec CueFacts AnalysisFacts GridSpec GridFacts
       TempoFacts.

(** X26.  Grid and cue points together, as [analyzeTrack] and
    [analyzeLite] chain them: for every tempo [bpm > 0], every duration
    > 0, every onset list and forced offset and every non-empty energy
    profile, [getLockedGrid] returns a grid and [detectCuePoints] on that
    grid returns cue points in order, [0 <= start < duration] and
    [0 <= loop start < loop end = end <= duration]; the cue start is the
    first beat of the grid (0 when the grid is empty). *)
Theorem grid_then_cues_in_order (rawBeats : list Q) (bpm duration forced : Q)
        (energy : EnergyProfile) :
  0 < bpm -> 0 < duration -> low energy <> [] ->
  exists g,
    BeatParser.getLockedGrid rawBeats bpm duration forced = Ok g /\
    cuesInOrder duration (detectCuePoints g energy duration) /\
    cueStart (detectCuePoints g energy duration)
    = match BeatParser.beats g with b :: _ => b | [] => 0 end.
Proof.
  intros Hbpm Hd Hnonempty.
  assert (Hiv : 0 < 60 / bpm) by (apply Qlt_shift_div_l; lra).
  destruct (getLockedGrid_steps rawBeats bpm duration forced Hbpm)
    as (t & s & Ht & H0 & _ & _ & (_ & _ & Hbeats & _ & _ & Hdown) & _ & Hgrid).
  eexists. split; [exact Hgrid|].
  assert (Hhead : forall d, head (BeatParser.gs_downbeats s) = Some d ->
                            head (BeatParser.gs_lockedBeats s) = Some d).
  { intros d Hd0. rewrite head_lookup in *. rewrite Hdown in Hd0. exact Hd0. }
  split.
  - apply detectCuePoints_in_order; try assumption. cbn [BeatParser.downbeats].
    intros d Hd0. apply Hhead in Hd0. rewrite head_lookup in Hd0.
    destruct (Hbeats 0%nat d Hd0) as [Heq Hlt]. unfold gridPoint in Heq.
    change (Num.ofNat 0) with 0 in Heq. split; [lra | assumption].
  - unfold detectCuePoints.
    replace (length (low energy) =? 0)%nat with false.
    2:{ symmetry. apply Nat.eqb_neq. destruct (low energy); [contradiction | discriminate]. }
    destruct (mainLoop _ _ _ _ _) as [mainSum mainCount].
    cbn [cueStart BeatParser.downbeats BeatParser.beats].
    pose proof (Hdown 0%nat) as H00. cbn [Nat.mul] in H00.
    destruct (BeatParser.gs_downbeats s) as [|d ds];
      destruct (BeatParser.gs_lockedBeats s) as [|b bs]; cbn in H00;
      congruence.
Qed.

Lemma grid_then_cues_in_order_witness :
  exists g,
    BeatParser.getLockedGrid [] 120 40 (1 # 4) = Ok g /\
    cuesInOrder 40 (detectCuePoints g Examples.flatEnergy 40) /\
    cueStart (detectCuePoints g Examples.flatEnergy 40)
    = match BeatParser.beats g with b :: _ => b | [] => 0 end.
Proof.
  apply (grid_then_cues_in_order [] 120 40 (1 # 4) Examples.flatEnergy).
  - reflexivity.
  - reflexivity.
  - discriminate.
Defined.



End PipelineProperties.

(** ** Key codes *)

Module CamelotFacts.
Import Camelot CamelotSpec.
Local Open Scope string_scope.

Lemma property_In (map : list (string * Z)) (key : string) (v : Z) :
  property map key = Some v -> In (key, v) map.
Proof.
  induction map as [|[k w] map IH]; cbn [property]; [discriminate|].
  destruct (String.eqb_spec key k) as [->|Hne].
  - intros [= ->]. left. reflexivity.
  - intros H. right. auto.
Qed.

Lemma property_None (map : list (string * Z)) (key : string) :
  ~ In key (List.map fst map) -> property map key = None.
Proof.
  induction map as [|[k w] map IH]; cbn [property List.map fst In]; [reflexivity|].
  intros Hnot. destruct (String.eqb_spec key k) as [->|Hne].
  - exfalso. apply Hnot. left. reflexivity.
  - apply IH. intros Hin. apply Hnot. right. exact Hin.
Qed.

(** Both tables have an entry from 1 to 12 for each of the 17 names, and
    for no other name. *)
Lemma tables_on_keyNames (isMinor : bool) (key : string) :
  (In key keyNames ->
   exists n, property (if isMinor then minorMap else majorMap) key = Some n /\
             (1 <= n <= 12)%Z) /\
  (~ In key keyNames -> property (if isMinor then minorMap else majorMap) key = None).
Proof.
  split.
  - intros Hin. cbn [keyNames In] in Hin.
    repeat match goal with H : _ \/ _ |- _ => destruct H as [H|H] end;
      try contradiction; subst key; destruct isMinor;
      (eexists; split; [reflexivity | lia]).
  - intros Hnot. apply property_None. intros Hin. apply Hnot.
    destruct isMinor; cbn [minorMap majorMap List.map fst In] in Hin;
      cbn [keyNames In]; tauto.
Qed.

End CamelotFacts.

Module CamelotProperties.
Import Camelot CamelotSpec CamelotFacts.
Local Open Scope string_scope.

(** X28.  [mapToCamelot] returns a Camelot code or the key it was given.
    When the key, with "sharp" and "flat" spelled as "#" and "b", is one of
    the 17 names of the tables, the result is the table's number for that
    name, a number from 1 to 12, followed by "A" if the scale is "minor"
    and by "B" otherwise; any other key comes back unchanged. *)
Theorem mapToCamelot_code_or_key (key scale : string) :
  (In (replace "flat" "b" (replace "sharp" "#" key)) keyNames ->
   exists n : Z,
     property (if String.eqb scale "minor" then minorMap else majorMap)
              (replace "flat" "b" (replace "sharp" "#" key)) = Some n /\
     (1 <= n <= 12)%Z /\
     mapToCamelot key scale
     = toString n ++ (if String.eqb scale "minor" then "A" else "B")) /\
  (~ In (replace "flat" "b" (replace "sharp" "#" key)) keyNames ->
   mapToCamelot key scale = key).
Proof.
  unfold mapToCamelot.
  set (normKey := replace "flat" "b" (replace "sharp" "#" key)).
  destruct (tables_on_keyNames (String.eqb scale "minor") normKey) as [Hin Hout].
  split.
  - intros Hkey. destruct (Hin Hkey) as (n & Hn & Hrange). exists n.
    split; [exact Hn|]. split; [exact Hrange|]. rewrite Hn.
    replace (0 <? n)%Z with true by (symmetry; apply Z.ltb_lt; lia).
    destruct (String.eqb scale "minor"); reflexivity.
  - intros Hkey. rewrite (Hout Hkey). reflexivity.
Qed.

Lemma mapToCamelot_code_or_key_witness :
  mapToCamelot "Bflat" "minor" = "3A" /\ mapToCamelot "H" "minor" = "H".
Proof.
  split.
  - destruct (mapToCamelot_code_or_key "Bflat" "minor") as [Hin _].
    destruct Hin as (n & Hn & _ & H).
    + cbn. tauto.
    + injection Hn as <-. exact H.
  - destruct (mapToCamelot_code_or_key "H" "minor") as [_ Hout].
    apply Hout. cbn. intros H.
    repeat match goal with H : _ \/ _ |- _ => destruct H as [H|H] end;
      try contradiction; discriminate H.
Defined.

(** X29.  The two tables are the Camelot wheel.  For every key that,
    with "sharp" and "flat" spelled as "#" and "b", names one of the twelve
    pitch classes (C = 0, seventeen spellings), the major code is
    [(7 * pc + 7) mod 12 + 1] followed by "B", so C major is 8B and a fifth
    up is one number on, and the minor code is the number of the major key
    three semitones above (the relative major) followed by "A"; hence
    enharmonic spellings get the same code. *)
Theorem mapToCamelot_is_the_wheel (key : string) (pc : Z) :
  property pitchClass (replace "flat" "b" (replace "sharp" "#" key)) = Some pc ->
  mapToCamelot key "major" = toString (wheelNumber pc) ++ "B" /\
  mapToCamelot key "minor" = toString (wheelNumber (pc + 3)) ++ "A".
Proof.
  intros Hpc. unfold mapToCamelot.
  set (normKey := replace "flat" "b" (replace "sharp" "#" key)) in *.
  apply property_In in Hpc. cbn [pitchClass In] in Hpc.
  repeat match goal with
  | H : _ \/ _ |- _ => destruct H as [H|H]
  end;
  try contradiction;
  injection Hpc as <- <-; split; reflexivity.
Qed.

Lemma mapToCamelot_is_the_wheel_witness :
  mapToCamelot "Fsharp" "major" = "2B" /\ mapToCamelot "Fsharp" "minor" = "11A".
Proof.
  apply (mapToCamelot_is_the_wheel "Fsharp" 6). reflexivity.
Defined.

End CamelotProperties.

(** ** Backend selection *)

Module EssentiaInitProperties.
Import EssentiaInit.

(** X30.  The backend is chosen once.  After the first [analyzeTrack]
    has awaited the initialisation, whatever the platform did, the engine
    is ready and is in full mode only with an [Essentia] instance at hand;
    it is in lite mode exactly when the global scripts were missing, no
    mirror delivered the binary, or the instantiation failed; and no later
    call changes the engine, whatever the platform would then answer: a
    downgrade to lite mode lasts for the session. *)
Theorem backend_chosen_once {Binary Essentia : Type}
        (first later : Platform Binary Essentia) :
  isReady (awaitInit first newEngine) = true /\
  (useLiteMode (awaitInit first newEngine) = false ->
   exists instance, essentia (awaitInit first newEngine) = Some instance) /\
  (useLiteMode (awaitInit first newEngine) = true <->
   globalsDefined first = false
   \/ fetchLoop (fetchWasm first) = None
   \/ exists wasmBinary, fetchLoop (fetchWasm first) = Some wasmBinary /\
                         instantiate first wasmBinary = None) /\
  awaitInit later (awaitInit first newEngine) = awaitInit first newEngine.
Proof.
  unfold awaitInit, initializeEssentia, newEngine.
  cbn [initPromise isReady essentia useLiteMode].
  destruct (globalsDefined first); cbn [negb].
  - destruct (fetchLoop (fetchWasm first)) as [wasmBinary|].
    + destruct (instantiate first wasmBinary) as [instance|] eqn:Hinst;
        cbn [initPromise isReady essentia useLiteMode].
      * repeat split; eauto; try discriminate.
        intros [H|[H|(b & Hb & H)]]; try discriminate.
        injection Hb as <-. congruence.
      * repeat split; eauto; discriminate.
    + cbn [initPromise isReady essentia useLiteMode].
      repeat split; eauto; discriminate.
  - cbn [initPromise isReady essentia useLiteMode].
    repeat split; eauto; discriminate.
Qed.

End EssentiaInitProperties.
